(** * Mount-table diff engine of node-disk-manager (pkg/mount/libmount)

    A shallow embedding of [mount_table_diff.go].  The Go code works on
    pointers: a mount table holds [*Filesystem] pointers, a diff list
    holds [*MountTabDiffEntry] pointers, and the second pass of
    [GenerateDiff] patches a diff entry through such a pointer.  The
    embedding therefore keeps an explicit heap with one store per pointee
    type and runs the code in a small state-and-failure monad; a nil or
    dangling dereference is the failure. *)

From Stdlib Require Import ZArith String Ascii.
From stdpp Require Import base option list gmap strings sorting.

Open Scope Z_scope.

(** ** Data model *)

Abbreviation loc := positive.

(** A Go pointer: [None] is nil. *)
Abbreviation ptr := (option loc).

(** Modelled from the spec: the [Filesystem] struct (filesystem.go is not
    among the sources).  Only the five fields the diff engine reads are
    kept: ID, Source, Target, VFSOptions, FSOptions. *)
Record Filesystem := mkFilesystem {
  id : Z;
  source : string;
  target : string;
  vfsOptions : string;
  fsOptions : string
}.

(** Modelled from the spec: the [MountTab] struct (mount_tab.go is not among
    the sources); the source reads its field [entries], a slice of
    [*Filesystem]. *)
Record MountTab := mkMountTab { entries : list ptr }.

Inductive MountAction :=
  | MountActionMount
  | MountActionUmount
  | MountActionMove
  | MountActionRemount.

Record MountTabDiffEntry := mkEntry {
  oldFs : ptr;
  newFs : ptr;
  action : MountAction
}.

(** [MountTabDiff] is [[]*MountTabDiffEntry]. *)
Abbreviation MountTabDiff := (list ptr).

Global Instance MountAction_eq_dec : EqDecision MountAction.
Proof. solve_decision. Defined.
Global Instance Filesystem_eq_dec : EqDecision Filesystem.
Proof. solve_decision. Defined.
Global Instance MountTabDiffEntry_eq_dec : EqDecision MountTabDiffEntry.
Proof. solve_decision. Defined.

(** ** Heap and monad *)

Record heap := mkHeap {
  fs_heap : gmap loc Filesystem;
  de_heap : gmap loc MountTabDiffEntry
}.

Definition M (A : Type) : Type := heap → option (A * heap).

Definition ret {A} (a : A) : M A := λ h, Some (a, h).
Definition bind {A B} (m : M A) (k : A → M B) : M B :=
  λ h, match m h with
       | Some (a, h') => k a h'
       | None => None
       end.

Declare Scope go_scope.
Delimit Scope go_scope with go.
Notation "'do' x <- m ; k" := (bind m (λ x, k))
  (at level 10, x name, m at level 100, k at level 200,
   format "'do'  x  <-  m ;  '/' k") : go_scope.
Open Scope go_scope.

(** [*p] for [p : *Filesystem]. *)
Definition load_fs (p : ptr) : M Filesystem := λ h,
  match p with
  | Some l => match fs_heap h !! l with Some v => Some (v, h) | None => None end
  | None => None
  end.

(** [fs := v; &fs]: a fresh [Filesystem] cell. *)
Definition new_fs (v : Filesystem) : M ptr := λ h,
  let l := fresh (dom (fs_heap h)) in
  Some (Some l, mkHeap (<[l := v]> (fs_heap h)) (de_heap h)).

(** [*p] for [p : *MountTabDiffEntry]. *)
Definition load_de (p : ptr) : M MountTabDiffEntry := λ h,
  match p with
  | Some l => match de_heap h !! l with Some e => Some (e, h) | None => None end
  | None => None
  end.

(** [&MountTabDiffEntry{...}]: a fresh diff-entry cell. *)
Definition new_de (e : MountTabDiffEntry) : M ptr := λ h,
  let l := fresh (dom (de_heap h)) in
  Some (Some l, mkHeap (fs_heap h) (<[l := e]> (de_heap h))).

(** [*p = e] for [p : *MountTabDiffEntry]. *)
Definition store_de (p : ptr) (e : MountTabDiffEntry) : M unit := λ h,
  match p with
  | Some l =>
      match de_heap h !! l with
      | Some _ => Some (tt, mkHeap (fs_heap h) (<[l := e]> (de_heap h)))
      | None => None
      end
  | None => None
  end.

(** [for _, x := range xs { acc = body x acc }]. *)
Fixpoint for_range {A S} (xs : list A) (acc : S) (body : A → S → M S) : M S :=
  match xs with
  | [] => ret acc
  | x :: rest => do acc' <- body x acc; for_range rest acc' body
  end.

(** ** Filesystem accessors and mount-table lookups *)

(** Modelled from the spec: the read-only accessor [GetID] of [Filesystem]
    (filesystem.go is not among the sources); like every accessor it reads
    through the pointer, so a nil receiver fails. *)
Definition GetID (p : ptr) : M Z := do fs <- load_fs p; ret (id fs).

(** Modelled from the spec: the read-only accessor [GetSource]. *)
Definition GetSource (p : ptr) : M string := do fs <- load_fs p; ret (source fs).

(** Modelled from the spec: the read-only accessor [GetTarget]. *)
Definition GetTarget (p : ptr) : M string := do fs <- load_fs p; ret (target fs).

(** Modelled from the spec: the read-only accessor [GetVFSOptions]. *)
Definition GetVFSOptions (p : ptr) : M string :=
  do fs <- load_fs p; ret (vfsOptions fs).

(** Modelled from the spec: the read-only accessor [GetFSOptions]. *)
Definition GetFSOptions (p : ptr) : M string :=
  do fs <- load_fs p; ret (fsOptions fs).

(** Modelled from the spec: a filter predicate over entries ([FsFilter] of
    mount_tab.go, which is not among the sources). *)
Definition FsFilter := ptr → M bool.

(** Modelled from the spec: [SourceFilter(value)] is true iff the entry's
    Source equals [value]. *)
Definition SourceFilter (value : string) : FsFilter :=
  λ fs, do s <- GetSource fs; ret (bool_decide (s = value)).

(** Modelled from the spec: [TargetFilter(value)] is true iff the entry's
    Target equals [value]. *)
Definition TargetFilter (value : string) : FsFilter :=
  λ fs, do t <- GetTarget fs; ret (bool_decide (t = value)).

(** Modelled from the spec: [Size()] is the number of entries (mount_tab.go
    is not among the sources). *)
Definition Size (mt : MountTab) : nat := length (entries mt).

(** Modelled from the spec: the logical AND of all filters on one entry,
    as [Find] forms it. *)
Fixpoint all_filters (filters : list FsFilter) (fs : ptr) : M bool :=
  match filters with
  | [] => ret true
  | f :: rest => do b <- f fs; do c <- all_filters rest fs; ret (b && c)
  end.

(** Modelled from the spec: the scan of [Find] over the entries, stopping
    at the first that passes all filters. *)
Fixpoint find_entry (es : list ptr) (filters : list FsFilter) : M ptr :=
  match es with
  | [] => ret None
  | entry :: rest =>
      do res <- all_filters filters entry;
      if res then ret entry else find_entry rest filters
  end.

(** Modelled from the spec: [Find(predicates...)] is the first entry that
    satisfies the logical AND of all given predicates, or nil. *)
Definition Find (mt : MountTab) (filters : list FsFilter) : M ptr :=
  find_entry (entries mt) filters.

(** ** mount_table_diff.go *)

Definition NewMountTabDiff : MountTabDiff := [].

Definition AddDiffEntry (md : MountTabDiff) (oldFs newFs : ptr)
    (action : MountAction) : M MountTabDiff :=
  do de <- new_de (mkEntry oldFs newFs action); ret (md ++ [de]).

(** The condition of the [if] in [getMountEntry]; [&&] short-circuits, so
    [newFs] is dereferenced only when it is not nil. *)
Definition isMountOf (diffEntry : ptr) (source : string) (id : Z) : M bool :=
  do e <- load_de diffEntry;
  if bool_decide (action e = MountActionMount) then
    match newFs e with
    | None => ret false
    | Some _ =>
        do i <- GetID (newFs e);
        if bool_decide (i = id) then
          do s <- GetSource (newFs e); ret (bool_decide (s = source))
        else ret false
    end
  else ret false.

Fixpoint getMountEntry (md : MountTabDiff) (source : string) (id : Z) : M ptr :=
  match md with
  | [] => ret None
  | diffEntry :: rest =>
      do b <- isMountOf diffEntry source id;
      if b then ret diffEntry else getMountEntry rest source id
  end.

(** Body of the first loop: "Search newly mounted or modified entries". *)
Definition searchMounted (oldTab : MountTab) (newFs : ptr)
    (diffTable : MountTabDiff) : M MountTabDiff :=
  do s <- GetSource newFs;
  do t <- GetTarget newFs;
  do oldFs <- Find oldTab [SourceFilter s; TargetFilter t];
  match oldFs with
  | None => AddDiffEntry diffTable None newFs MountActionMount
  | Some _ =>
      do ov <- GetVFSOptions oldFs;
      do nv <- GetVFSOptions newFs;
      if bool_decide (ov ≠ nv) then
        AddDiffEntry diffTable oldFs newFs MountActionRemount
      else
        do oo <- GetFSOptions oldFs;
        do no <- GetFSOptions newFs;
        if bool_decide (oo ≠ no) then
          AddDiffEntry diffTable oldFs newFs MountActionRemount
        else ret diffTable
  end.

(** [de.oldFs = oldFs] and [de.action = a], through the pointer [de]. *)
Definition set_oldFs (de : ptr) (v : ptr) : M unit :=
  do e <- load_de de; store_de de (mkEntry v (newFs e) (action e)).
Definition set_action (de : ptr) (a : MountAction) : M unit :=
  do e <- load_de de; store_de de (mkEntry (oldFs e) (newFs e) a).

(** Body of the second loop: "Search umounted or moved entries". *)
Definition searchUmounted (newTab : MountTab) (oldFs : ptr)
    (diffTable : MountTabDiff) : M MountTabDiff :=
  do s <- GetSource oldFs;
  do t <- GetTarget oldFs;
  do newFs <- Find newTab [SourceFilter s; TargetFilter t];
  match newFs with
  | None =>
      do s <- GetSource oldFs;
      do i <- GetID oldFs;
      do de <- getMountEntry diffTable s i;
      match de with
      | None => AddDiffEntry diffTable oldFs None MountActionUmount
      | Some _ =>
          do _ <- set_oldFs de oldFs;
          do _ <- set_action de MountActionMove;
          ret diffTable
      end
  | Some _ => ret diffTable
  end.

Definition GenerateDiff (oldTab newTab : option MountTab) : M MountTabDiff :=
  let diffTable := NewMountTabDiff in
  let oldTab := default (mkMountTab []) oldTab in
  let newTab := default (mkMountTab []) newTab in
  let oldTabSize := Size oldTab in
  let newTabSize := Size newTab in
  if bool_decide (newTabSize = 0%nat) && bool_decide (oldTabSize = 0%nat) then
    ret diffTable
  else if bool_decide (oldTabSize = 0%nat) then
    for_range (entries newTab) diffTable
      (λ entry diffTable, AddDiffEntry diffTable None entry MountActionMount)
  else if bool_decide (newTabSize = 0%nat) then
    for_range (entries oldTab) diffTable
      (λ entry diffTable, AddDiffEntry diffTable entry None MountActionUmount)
  else
    do diffTable <- for_range (entries newTab) diffTable (searchMounted oldTab);
    for_range (entries oldTab) diffTable (searchUmounted newTab).

Definition GetAction (mde : ptr) : M MountAction :=
  do e <- load_de mde; ret (action e).

Definition GetOldFs (mde : ptr) : M ptr :=
  do e <- load_de mde;
  match oldFs e with
  | None => ret None
  | Some _ => do fs <- load_fs (oldFs e); new_fs fs
  end.

Definition GetNewFs (mde : ptr) : M ptr :=
  do e <- load_de mde;
  match newFs e with
  | None => ret None
  | Some _ => do fs <- load_fs (newFs e); new_fs fs
  end.

(** [sort.Strings]: ascending order of Go's string comparison, which is
    the bytewise lexicographic order. *)
Definition string_le (s1 s2 : string) : Prop := String.leb s1 s2 = true.
Global Instance string_le_dec : RelDecision string_le.
Proof. intros s1 s2. unfold string_le. apply _. Defined.

Definition sort_Strings (l : list string) : list string := merge_sort string_le l.

(** First loop of [ListSources]; [uniqueSources] is a [map[string]struct{}]. *)
Definition collectSource (diff : ptr) (uniqueSources : gset string) : M (gset string) :=
  do e <- load_de diff;
  do src <- (if bool_decide (action e = MountActionUmount)
          then GetSource (oldFs e) else GetSource (newFs e));
  if bool_decide (src ∈ uniqueSources) then ret uniqueSources
  else ret ({[src]} ∪ uniqueSources).

(** Go iterates over a map in an unspecified order; [elements] fixes one,
    and the sort that follows makes the result independent of it. *)
Definition ListSources (md : MountTabDiff) : M (list string) :=
  do uniqueSources <- for_range md ∅ collectSource;
  ret (sort_Strings (elements uniqueSources)).

(** ** Reading the heap *)

(** The [Filesystem] a pointer refers to, if any. *)
Definition fsv (fh : gmap loc Filesystem) (p : ptr) : option Filesystem :=
  match p with Some l => fh !! l | None => None end.
Abbreviation fsval h := (fsv (fs_heap h)).

(** The diff entry a pointer refers to, if any. *)
Definition deval (h : heap) (p : ptr) : option MountTabDiffEntry :=
  match p with Some l => de_heap h !! l | None => None end.

(** [md] holds pointers to the entries [v], in this order. *)
Definition reads (h : heap) (md : MountTabDiff) (v : list MountTabDiffEntry) : Prop :=
  Forall2 (λ p e, deval h p = Some e) md v.

(** A table whose entries are neither nil nor dangling. *)
Definition tab_ok (h : heap) (mt : MountTab) : Prop :=
  Forall (λ p, is_Some (fsval h p)) (entries mt).

(** No dangling pointer in a diff entry (nil is allowed). *)
Definition ptr_ok (fh : gmap loc Filesystem) (p : ptr) : Prop :=
  p = None ∨ is_Some (fsv fh p).
Definition entry_ok (fh : gmap loc Filesystem) (e : MountTabDiffEntry) : Prop :=
  ptr_ok fh (oldFs e) ∧ ptr_ok fh (newFs e).

(** A caller's assignment [*p = v] through a [*Filesystem]. *)
Definition store_fs (p : ptr) (v : Filesystem) : M unit := λ h,
  match p with
  | Some l =>
      match fs_heap h !! l with
      | Some _ => Some (tt, mkHeap (<[l := v]> (fs_heap h)) (de_heap h))
      | None => None
      end
  | None => None
  end.

(** ** Lookups as pure functions of the heap *)

Definition same_mount (s t : string) (v : Filesystem) : bool :=
  bool_decide (source v = s) && bool_decide (target v = t).

(** What [Find(SourceFilter(s), TargetFilter(t))] returns on a table whose
    entries are all allocated. *)
Fixpoint lookup_mount (fh : gmap loc Filesystem) (es : list ptr) (s t : string) : ptr :=
  match es with
  | [] => None
  | p :: rest =>
      match fsv fh p with
      | Some v => if same_mount s t v then p else lookup_mount fh rest s t
      | None => None
      end
  end.

(** ** The diff list as a function of the two tables

    The entries that [GenerateDiff] leaves in the heap, read through the
    returned pointers, as list functions over the [Filesystem] store; the
    refinement lemmas below connect them to the monadic code. *)

(** Entries appended by one iteration of the first loop. *)
Definition mounted_view (fh : gmap loc Filesystem) (old : list ptr) (p : ptr)
    : list MountTabDiffEntry :=
  match fsv fh p with
  | None => []
  | Some n =>
      match lookup_mount fh old (source n) (target n) with
      | None => [mkEntry None p MountActionMount]
      | Some o =>
          match fh !! o with
          | Some ov =>
              if bool_decide (vfsOptions ov ≠ vfsOptions n)
                 || bool_decide (fsOptions ov ≠ fsOptions n)
              then [mkEntry (Some o) p MountActionRemount] else []
          | None => []
          end
      end
  end.

Definition pass1_view (fh : gmap loc Filesystem) (old new : list ptr)
    : list MountTabDiffEntry :=
  new ≫= mounted_view fh old.

(** The test of [getMountEntry] on an entry without dangling pointers. *)
Definition is_mount_of (fh : gmap loc Filesystem) (s : string) (i : Z)
    (e : MountTabDiffEntry) : bool :=
  bool_decide (action e = MountActionMount) &&
  match fsv fh (newFs e) with
  | Some v => bool_decide (id v = i) && bool_decide (source v = s)
  | None => false
  end.

(** Effect of one iteration of the second loop. *)
Definition umounted_view (fh : gmap loc Filesystem) (new : list ptr)
    (v : list MountTabDiffEntry) (p : ptr) : list MountTabDiffEntry :=
  match fsv fh p with
  | None => v
  | Some o =>
      match lookup_mount fh new (source o) (target o) with
      | Some _ => v
      | None =>
          match list_find (λ e, is_mount_of fh (source o) (id o) e = true) v with
          | Some (i, e) => <[i := mkEntry p (newFs e) MountActionMove]> v
          | None => v ++ [mkEntry p None MountActionUmount]
          end
      end
  end.

Definition pass2_view (fh : gmap loc Filesystem) (new : list ptr)
    (v : list MountTabDiffEntry) (old : list ptr) : list MountTabDiffEntry :=
  foldl (umounted_view fh new) v old.

Definition diff_view (fh : gmap loc Filesystem) (old new : list ptr)
    : list MountTabDiffEntry :=
  match old, new with
  | [], [] => []
  | [], _ => (λ p, mkEntry None p MountActionMount) <$> new
  | _, [] => (λ p, mkEntry p None MountActionUmount) <$> old
  | _, _ => pass2_view fh new (pass1_view fh old new) old
  end.

(** The invariant of a diff list under construction: distinct cells, holding
    the entries [v], none with a dangling pointer. *)
Definition diff_ok (h : heap) (md : MountTabDiff) (v : list MountTabDiffEntry) : Prop :=
  NoDup md ∧ reads h md v ∧ Forall (entry_ok (fs_heap h)) v.

(** The entries of a possibly nil table. *)
Definition entries_of (mt : option MountTab) : list ptr :=
  entries (default (mkMountTab []) mt).

(** The presence invariant of a diff entry: which sides are nil. *)
Definition presence (fh : gmap loc Filesystem) (e : MountTabDiffEntry) : Prop :=
  match action e with
  | MountActionMount => oldFs e = None ∧ is_Some (fsv fh (newFs e))
  | MountActionUmount => is_Some (fsv fh (oldFs e)) ∧ newFs e = None
  | MountActionMove | MountActionRemount =>
      is_Some (fsv fh (oldFs e)) ∧ is_Some (fsv fh (newFs e))
  end.

(** The two sides of a diff entry and their accessors. *)
Inductive side := Old | New.
Definition side_ptr (s : side) (e : MountTabDiffEntry) : ptr :=
  match s with Old => oldFs e | New => newFs e end.
Definition getter (s : side) : ptr → M ptr :=
  match s with Old => GetOldFs | New => GetNewFs end.

(** How the second loop may change an entry of the first: not at all, or
    from Mount to Move with the same newFs. *)
Definition patched (e1 e : MountTabDiffEntry) : Prop :=
  e = e1 ∨
  (action e1 = MountActionMount ∧ action e = MountActionMove ∧ newFs e = newFs e1).

(** What every Mount entry of a diff list under construction satisfies. *)
Definition mount_inv (new : list ptr) (e : MountTabDiffEntry) : Prop :=
  action e = MountActionMount → oldFs e = None ∧ newFs e ∈ new.

(** The spec's data-model invariant: within one table, IDs are unique. *)
Definition unique_ids (fh : gmap loc Filesystem) (es : list ptr) : Prop :=
  ∀ i j p q v w, es !! i = Some p → es !! j = Some q →
    fsv fh p = Some v → fsv fh q = Some w → id v = id w → i = j.

(** Structurally identical entries: the four fields the diff compares. *)
Definition same_fields (a b : Filesystem) : Prop :=
  source a = source b ∧ target a = target b ∧
  vfsOptions a = vfsOptions b ∧ fsOptions a = fsOptions b.

(** [p] and [q] point to structurally identical entries. *)
Definition same_entry (h : heap) (p q : ptr) : Prop :=
  ∃ a b, fsval h p = Some a ∧ fsval h q = Some b ∧ same_fields a b.

(** The side of a diff entry whose Source [ListSources] reports. *)
Definition src_ptr (e : MountTabDiffEntry) : ptr :=
  match action e with
  | MountActionUmount => oldFs e
  | _ => newFs e
  end.

(** Strictly ascending order of strings. *)
Definition string_lt (s1 s2 : string) : Prop := String.ltb s1 s2 = true.

(** The diff entries that refer to the old-table entry [o] or to the
    new-table entry [n]. *)
Definition refers_to (o n : ptr) (e : MountTabDiffEntry) : Prop :=
  oldFs e = o ∨ newFs e = n.
Global Instance refers_to_dec o n e : Decision (refers_to o n e).
Proof. unfold refers_to. apply _. Defined.

(** ** Concrete tables used by the examples *)

Module Ex.
Local Open Scope string_scope.
Local Open Scope positive_scope.

Definition sdb1_a := mkFilesystem 5 "/dev/sdb1" "/mnt/a" "rw,relatime" "rw".
Definition sdb1_b := mkFilesystem 5 "/dev/sdb1" "/mnt/b" "rw,relatime" "rw".
Definition sdb1_ro := mkFilesystem 5 "/dev/sdb1" "/mnt/a" "ro,relatime" "rw".
Definition sdc1_b := mkFilesystem 5 "/dev/sdc1" "/mnt/b" "rw,relatime" "rw".
Definition sdd1_d := mkFilesystem 7 "/dev/sdd1" "/mnt/d" "rw,relatime" "rw".
Definition tmp_1m := mkFilesystem 8 "tmpfs" "/mnt/t" "rw" "size=1m".
Definition tmp_2m := mkFilesystem 9 "tmpfs" "/mnt/t" "rw" "size=2m".

(** Cells 1-5 and 7-8 hold one mount each; 6, 9 and 10 are second
    instances with the contents of 1, 7 and 8. *)
Definition fh0 : gmap loc Filesystem :=
  list_to_map [(1, sdb1_a); (2, sdb1_b); (3, sdb1_ro); (4, sdc1_b); (5, sdd1_d);
               (6, sdb1_a); (7, tmp_1m); (8, tmp_2m); (9, tmp_1m); (10, tmp_2m)].
Definition h0 : heap := mkHeap fh0 ∅.

Definition tab (ls : list loc) : option MountTab := Some (mkMountTab (Some <$> ls)).
End Ex.

(** [h] extends [h0] by the cells of [md] and by nothing else: every
    [Filesystem] and every diff entry of [h0] is as it was, the cells of [md]
    did not exist in [h0], and every diff-entry cell of [h] is one of [h0] or
    of [md]. *)
Definition framed (h0 : heap) (md : MountTabDiff) (h : heap) : Prop :=
  fs_heap h = fs_heap h0 ∧
  (∀ l e, de_heap h0 !! l = Some e → de_heap h !! l = Some e) ∧
  (∀ p, p ∈ md → deval h0 p = None) ∧
  (∀ l, is_Some (de_heap h !! l) → is_Some (de_heap h0 !! l) ∨ Some l ∈ md).

(** A diff list under construction from the heap [h0]. *)
Definition building (h0 : heap) (md : MountTabDiff) (h : heap) : Prop :=
  (∃ v, diff_ok h md v) ∧ framed h0 md h.

(** What the two tables say about a diff entry of each kind, with the
    lookups as [lookup_mount] computes them. *)
Definition justified (fh : gmap loc Filesystem) (old new : list ptr)
    (e : MountTabDiffEntry) : Prop :=
  match action e with
  | MountActionMount =>
      oldFs e = None ∧ newFs e ∈ new ∧
      ∃ n, fsv fh (newFs e) = Some n ∧
        lookup_mount fh old (source n) (target n) = None
  | MountActionUmount =>
      newFs e = None ∧ oldFs e ∈ old ∧
      ∃ o, fsv fh (oldFs e) = Some o ∧
        lookup_mount fh new (source o) (target o) = None
  | MountActionMove =>
      oldFs e ∈ old ∧ newFs e ∈ new ∧
      ∃ o n, fsv fh (oldFs e) = Some o ∧ fsv fh (newFs e) = Some n ∧
        lookup_mount fh new (source o) (target o) = None ∧
        lookup_mount fh old (source n) (target n) = None
  | MountActionRemount =>
      oldFs e ∈ old ∧ newFs e ∈ new ∧
      ∃ o n, fsv fh (oldFs e) = Some o ∧ fsv fh (newFs e) = Some n ∧
        lookup_mount fh old (source n) (target n) = oldFs e ∧
        (vfsOptions o ≠ vfsOptions n ∨ fsOptions o ≠ fsOptions n)
  end.

(** The spec's data-model invariant read for mount points: within one
    table, no two entries have the same Source and the same Target. *)
Definition unique_mounts (fh : gmap loc Filesystem) (es : list ptr) : Prop :=
  ∀ i j p q v w, es !! i = Some p → es !! j = Some q →
    fsv fh p = Some v → fsv fh q = Some w →
    source v = source w → target v = target w → i = j.

(** The change that undoes a change: a Mount for a Umount and the other way
    round, a Move back, a Remount back. *)
Definition mirror_action (a : MountAction) : MountAction :=
  match a with
  | MountActionMount => MountActionUmount
  | MountActionUmount => MountActionMount
  | MountActionMove => MountActionMove
  | MountActionRemount => MountActionRemount
  end.
Definition mirror (e : MountTabDiffEntry) : MountTabDiffEntry :=
  mkEntry (newFs e) (oldFs e) (mirror_action (action e)).

(** An entry whose Source and Target no entry of the table [new] has. *)
Definition vanished (fh : gmap loc Filesystem) (new : list ptr) (p : ptr) : bool :=
  match fsv fh p with
  | Some o => bool_decide (lookup_mount fh new (source o) (target o) = None)
  | None => false
  end.

(** * Proofs *)

(** ** Running the monad *)

Lemma bind_run {A B} (m : M A) (k : A → M B) h a h1 :
  m h = Some (a, h1) → bind m k h = k a h1.
Proof. intros H. unfold bind. by rewrite H. Qed.

Lemma bind_inv {A B} (m : M A) (k : A → M B) h r :
  bind m k h = Some r → ∃ a h1, m h = Some (a, h1) ∧ k a h1 = Some r.
Proof.
  unfold bind. destruct (m h) as [[a h1]|] eqn:E; [|done]. eauto.
Qed.

Lemma load_fs_run h p v : fsval h p = Some v → load_fs p h = Some (v, h).
Proof. destruct p as [l|]; simpl; [|done]. intros ->. done. Qed.

Lemma load_de_run h p e : deval h p = Some e → load_de p h = Some (e, h).
Proof. destruct p as [l|]; simpl; [|done]. intros ->. done. Qed.

Lemma load_de_inv h p e h1 : load_de p h = Some (e, h1) → deval h p = Some e ∧ h1 = h.
Proof.
  destruct p as [l|]; simpl; [|done].
  destruct (de_heap h !! l); naive_solver.
Qed.

Lemma load_fs_inv h p v h1 : load_fs p h = Some (v, h1) → fsval h p = Some v ∧ h1 = h.
Proof.
  destruct p as [l|]; simpl; [|done].
  destruct (fs_heap h !! l); naive_solver.
Qed.

Section accessors.
Context (h : heap) (p : ptr) (v : Filesystem) (Hv : fsval h p = Some v).

Lemma GetID_run : GetID p h = Some (id v, h).
Proof. unfold GetID. by rewrite (bind_run _ _ _ _ _ (load_fs_run _ _ _ Hv)). Qed.
Lemma GetSource_run : GetSource p h = Some (source v, h).
Proof. unfold GetSource. by rewrite (bind_run _ _ _ _ _ (load_fs_run _ _ _ Hv)). Qed.
Lemma GetTarget_run : GetTarget p h = Some (target v, h).
Proof. unfold GetTarget. by rewrite (bind_run _ _ _ _ _ (load_fs_run _ _ _ Hv)). Qed.
Lemma GetVFSOptions_run : GetVFSOptions p h = Some (vfsOptions v, h).
Proof. unfold GetVFSOptions. by rewrite (bind_run _ _ _ _ _ (load_fs_run _ _ _ Hv)). Qed.
Lemma GetFSOptions_run : GetFSOptions p h = Some (fsOptions v, h).
Proof. unfold GetFSOptions. by rewrite (bind_run _ _ _ _ _ (load_fs_run _ _ _ Hv)). Qed.
End accessors.

(** Rewrites the leading monadic call of the goal with a known run. *)
Ltac run_with H := rewrite (bind_run _ _ _ _ _ H); cbv beta.
Ltac run_get Hv :=
  first [ run_with (GetSource_run _ _ _ Hv)
        | run_with (GetTarget_run _ _ _ Hv)
        | run_with (GetID_run _ _ _ Hv)
        | run_with (GetVFSOptions_run _ _ _ Hv)
        | run_with (GetFSOptions_run _ _ _ Hv) ].

Lemma find_entry_run h es s t :
  Forall (λ p, is_Some (fsval h p)) es →
  find_entry es [SourceFilter s; TargetFilter t] h
  = Some (lookup_mount (fs_heap h) es s t, h).
Proof.
  induction 1 as [|p es [v Hv] _ IH]; [done|].
  cbn [find_entry lookup_mount all_filters]. rewrite Hv.
  unfold SourceFilter, TargetFilter, same_mount.
  unfold bind at 1. unfold bind at 1.
  rewrite (bind_run _ _ _ _ _ (GetSource_run _ _ _ Hv)).
  unfold ret at 1. unfold bind at 1. unfold bind at 1.
  rewrite (bind_run _ _ _ _ _ (GetTarget_run _ _ _ Hv)).
  unfold ret at 1. unfold bind at 1. unfold ret at 1. unfold ret at 1.
  destruct (bool_decide (source v = s)), (bool_decide (target v = t)); simpl; auto.
Qed.

Lemma Find_run h mt s t :
  tab_ok h mt →
  Find mt [SourceFilter s; TargetFilter t] h
  = Some (lookup_mount (fs_heap h) (entries mt) s t, h).
Proof. apply find_entry_run. Qed.

Lemma lookup_mount_None fh es s t :
  Forall (λ p, is_Some (fsv fh p)) es →
  lookup_mount fh es s t = None ↔
  ∀ p v, p ∈ es → fsv fh p = Some v → ¬ (source v = s ∧ target v = t).
Proof.
  induction 1 as [|p es [v Hv] Hes IH]; simpl.
  { split; [|done]. intros _ p v Hp. by apply elem_of_nil in Hp. }
  rewrite Hv. unfold same_mount.
  destruct (bool_decide_reflect (source v = s)) as [Hs|Hs]; simpl.
  - destruct (bool_decide_reflect (target v = t)) as [Ht|Ht].
    + split.
      * intros ->. simpl in Hv. done.
      * intros H. exfalso. apply (H p v); [left|done|done].
    + rewrite IH. split.
      * intros H q w Hq Hw. apply elem_of_cons in Hq as [->|Hq]; [|by eapply H].
        rewrite Hv in Hw. injection Hw as <-. tauto.
      * intros H q w Hq Hw. apply (H q w); [by right|done].
  - rewrite IH. split.
    + intros H q w Hq Hw. apply elem_of_cons in Hq as [->|Hq]; [|by eapply H].
      rewrite Hv in Hw. injection Hw as <-. tauto.
    + intros H q w Hq Hw. apply (H q w); [by right|done].
Qed.

Lemma lookup_mount_Some fh es s t o :
  lookup_mount fh es s t = Some o →
  ∃ pre post v, es = pre ++ Some o :: post ∧ fsv fh (Some o) = Some v ∧
    source v = s ∧ target v = t ∧
    ∀ p w, p ∈ pre → fsv fh p = Some w → ¬ (source w = s ∧ target w = t).
Proof.
  induction es as [|p es IH]; simpl; [done|].
  destruct (fsv fh p) as [v|] eqn:Hv; [|done]. unfold same_mount.
  destruct (bool_decide_reflect (source v = s)) as [Hs|Hs]; simpl;
    [destruct (bool_decide_reflect (target v = t)) as [Ht|Ht]|].
  - intros ->. exists [], es, v. split_and!; try done.
    intros q w Hq. by apply elem_of_nil in Hq.
  - intros (pre & post & w & -> & Hw & Hs' & Ht' & Hpre)%IH.
    exists (p :: pre), post, w. split_and!; try done.
    intros q u Hq Hu. apply elem_of_cons in Hq as [->|Hq]; [|by eapply Hpre].
    rewrite Hv in Hu. injection Hu as <-. tauto.
  - intros (pre & post & w & -> & Hw & Hs' & Ht' & Hpre)%IH.
    exists (p :: pre), post, w. split_and!; try done.
    intros q u Hq Hu. apply elem_of_cons in Hq as [->|Hq]; [|by eapply Hpre].
    rewrite Hv in Hu. injection Hu as <-. tauto.
Qed.

(** ** Diff-list cells *)

Lemma AddDiffEntry_run md o n a h :
  AddDiffEntry md o n a h
  = Some (md ++ [Some (fresh (dom (de_heap h)))],
          mkHeap (fs_heap h)
                 (<[fresh (dom (de_heap h)) := mkEntry o n a]> (de_heap h))).
Proof. reflexivity. Qed.

Lemma deval_alloc h p e e' :
  deval h p = Some e →
  deval (mkHeap (fs_heap h) (<[fresh (dom (de_heap h)) := e']> (de_heap h))) p = Some e.
Proof.
  destruct p as [l|]; simpl; [|done]. intros Hl.
  rewrite lookup_insert_ne; [done|]. intros <-.
  pose proof (is_fresh (dom (de_heap h))) as Hf.
  apply Hf, elem_of_dom. by eexists.
Qed.

Lemma reads_alloc h md v e' :
  reads h md v →
  reads (mkHeap (fs_heap h) (<[fresh (dom (de_heap h)) := e']> (de_heap h))) md v.
Proof. intros H. eapply Forall2_impl; [exact H|]. intros p e. apply deval_alloc. Qed.

Lemma reads_elem_of h md v p :
  reads h md v → p ∈ md → ∃ e, deval h p = Some e ∧ e ∈ v.
Proof.
  intros H (i & Hi)%list_elem_of_lookup.
  destruct (Forall2_lookup_l _ _ _ _ _ H Hi) as (e & He & Hpe).
  exists e. split; [done|]. by eapply list_elem_of_lookup_2.
Qed.

Lemma reads_elem_of_r h md v e :
  reads h md v → e ∈ v → ∃ p, p ∈ md ∧ deval h p = Some e.
Proof.
  intros H (i & Hi)%list_elem_of_lookup.
  destruct (Forall2_lookup_r _ _ _ _ _ H Hi) as (p & Hp & Hpe).
  exists p. split; [|done]. by eapply list_elem_of_lookup_2.
Qed.

Lemma reads_inj h md v1 v2 : reads h md v1 → reads h md v2 → v1 = v2.
Proof.
  intros H1. revert v2. induction H1 as [|p e md v He _ IH]; intros v2 H2.
  - by apply Forall2_nil_inv_l in H2.
  - apply Forall2_cons_inv_l in H2 as (e2 & v2' & He2 & H2 & ->).
    f_equal; [congruence|by apply IH].
Qed.

Lemma reads_nil h : reads h [] [].
Proof. constructor. Qed.

Lemma diff_ok_nil h : diff_ok h [] [].
Proof. split_and!; constructor. Qed.

Lemma cells_alloc h md v e :
  NoDup md → reads h md v →
  NoDup (md ++ [Some (fresh (dom (de_heap h)))]) ∧
  reads (mkHeap (fs_heap h) (<[fresh (dom (de_heap h)) := e]> (de_heap h)))
        (md ++ [Some (fresh (dom (de_heap h)))]) (v ++ [e]).
Proof.
  intros Hnd Hr. split.
  - apply NoDup_app. split_and!; [done| |apply NoDup_singleton].
    intros p Hp ->%list_elem_of_singleton.
    destruct (reads_elem_of _ _ _ _ Hr Hp) as (e0 & He0 & _). simpl in He0.
    apply (is_fresh (dom (de_heap h))), elem_of_dom. by eexists.
  - apply Forall2_app; [by apply reads_alloc|].
    constructor; [|constructor]. simpl. by rewrite lookup_insert_eq.
Qed.

Lemma diff_ok_alloc h md v e :
  diff_ok h md v → entry_ok (fs_heap h) e →
  diff_ok (mkHeap (fs_heap h) (<[fresh (dom (de_heap h)) := e]> (de_heap h)))
          (md ++ [Some (fresh (dom (de_heap h)))]) (v ++ [e]).
Proof.
  intros (Hnd & Hr & Hok) He.
  destruct (cells_alloc h md v e Hnd Hr) as [Hnd' Hr'].
  split_and!; [done..|].
  simpl. apply Forall_app. split; [done|]. by constructor.
Qed.

Lemma diff_ok_store h md v idx l e' :
  diff_ok h md v → md !! idx = Some (Some l) → entry_ok (fs_heap h) e' →
  diff_ok (mkHeap (fs_heap h) (<[l := e']> (de_heap h))) md (<[idx := e']> v).
Proof.
  intros (Hnd & Hr & Hok) Hidx He. split_and!; [done| |].
  - apply Forall2_same_length_lookup. split.
    { rewrite length_insert. by eapply Forall2_length. }
    intros j p e Hp Hj. destruct (decide (j = idx)) as [->|Hne].
    + rewrite Hidx in Hp. injection Hp as <-.
      rewrite list_lookup_insert_eq in Hj.
      * injection Hj as <-. simpl. by rewrite lookup_insert_eq.
      * rewrite <-(Forall2_length _ _ _ Hr). by eapply lookup_lt_Some.
    + rewrite list_lookup_insert_ne in Hj by done.
      pose proof (Forall2_lookup_lr _ _ _ _ _ _ Hr Hp Hj) as Hpe.
      destruct p as [l'|]; [|done]. simpl in *.
      rewrite lookup_insert_ne; [done|]. intros ->.
      apply Hne. symmetry. by eapply NoDup_lookup.
  - simpl. apply Forall_insert; done.
Qed.

Lemma isMountOf_run h p e s i :
  deval h p = Some e → entry_ok (fs_heap h) e →
  isMountOf p s i h = Some (is_mount_of (fs_heap h) s i e, h).
Proof.
  intros Hp [_ Hn]. unfold isMountOf, is_mount_of.
  run_with (load_de_run _ _ _ Hp).
  destruct (bool_decide (action e = MountActionMount)); simpl; [|done].
  destruct Hn as [Hn|[w Hw]].
  { rewrite Hn. done. }
  rewrite Hw. destruct (newFs e) as [l|] eqn:El; [|done].
  run_get Hw. destruct (bool_decide (id w = i)); simpl; [|done].
  run_get Hw. done.
Qed.

Lemma getMountEntry_run h md v s i :
  reads h md v → Forall (entry_ok (fs_heap h)) v →
  getMountEntry md s i h
  = Some (match list_find (λ e, is_mount_of (fs_heap h) s i e = true) v with
          | Some (idx, _) => default None (md !! idx)
          | None => None
          end, h).
Proof.
  induction 1 as [|p e md v Hp Hr IH]; intros Hok; [done|].
  apply Forall_cons in Hok as [He Hok].
  cbn [getMountEntry list_find].
  run_with (isMountOf_run _ _ _ s i Hp He).
  case_decide as Hm.
  - rewrite Hm. done.
  - apply not_true_is_false in Hm. rewrite Hm, (IH Hok).
    destruct (list_find _ v) as [[idx e']|]; done.
Qed.

(** ** The first loop *)

Lemma searchMounted_mount h old p n md :
  tab_ok h old → fsval h p = Some n →
  lookup_mount (fs_heap h) (entries old) (source n) (target n) = None →
  searchMounted old p md h = AddDiffEntry md None p MountActionMount h.
Proof.
  intros Hold Hn Hl. unfold searchMounted.
  run_get Hn. run_get Hn. run_with (Find_run _ _ (source n) (target n) Hold).
  by rewrite Hl.
Qed.

Lemma searchMounted_match h old p n o ov md :
  tab_ok h old → fsval h p = Some n →
  lookup_mount (fs_heap h) (entries old) (source n) (target n) = Some o →
  fs_heap h !! o = Some ov →
  searchMounted old p md h
  = if bool_decide (vfsOptions ov ≠ vfsOptions n)
       || bool_decide (fsOptions ov ≠ fsOptions n)
    then AddDiffEntry md (Some o) p MountActionRemount h
    else Some (md, h).
Proof.
  intros Hold Hn Hl Ho. unfold searchMounted.
  run_get Hn. run_get Hn. run_with (Find_run _ _ (source n) (target n) Hold).
  rewrite Hl.
  assert (fsval h (Some o) = Some ov) as Ho' by done.
  run_get Ho'. run_get Hn.
  destruct (bool_decide (vfsOptions ov ≠ vfsOptions n)); simpl; [done|].
  run_get Ho'. run_get Hn.
  by destruct (bool_decide (fsOptions ov ≠ fsOptions n)).
Qed.

Lemma searchMounted_run h old p md v :
  tab_ok h old → is_Some (fsval h p) → diff_ok h md v →
  ∃ ext h', searchMounted old p md h = Some (md ++ ext, h') ∧
    fs_heap h' = fs_heap h ∧
    diff_ok h' (md ++ ext) (v ++ mounted_view (fs_heap h) (entries old) p).
Proof.
  intros Hold [n Hn] Hd. unfold mounted_view. rewrite Hn.
  destruct (lookup_mount _ _ _ _) as [o|] eqn:Hl.
  - destruct (lookup_mount_Some _ _ _ _ _ Hl) as (pre & post & ov & _ & Ho & _).
    simpl in Ho. rewrite Ho.
    rewrite (searchMounted_match _ _ _ _ _ _ _ Hold Hn Hl Ho).
    destruct (_ || _).
    + rewrite AddDiffEntry_run. eexists _, _. split_and!; [done..|].
      apply diff_ok_alloc; [done|]. split; right; simpl; eauto.
    + exists [], h. rewrite !app_nil_r. done.
  - rewrite (searchMounted_mount _ _ _ _ _ Hold Hn Hl), AddDiffEntry_run.
    eexists _, _. split_and!; [done..|].
    apply diff_ok_alloc; [done|]. split; [by left|right; simpl; eauto].
Qed.

Lemma pass1_run h old es md v :
  tab_ok h old → Forall (λ p, is_Some (fsval h p)) es → diff_ok h md v →
  ∃ ext h', for_range es md (searchMounted old) h = Some (md ++ ext, h') ∧
    fs_heap h' = fs_heap h ∧
    diff_ok h' (md ++ ext) (v ++ pass1_view (fs_heap h) (entries old) es).
Proof.
  revert h md v. induction es as [|p es IH]; intros h md v Hold Hes Hd.
  - exists [], h. unfold pass1_view. simpl. rewrite !app_nil_r. done.
  - apply Forall_cons in Hes as [Hp Hes]. cbn [for_range].
    destruct (searchMounted_run _ _ _ _ _ Hold Hp Hd) as (ext1 & h1 & Hrun & Hfs & Hd1).
    run_with Hrun.
    assert (tab_ok h1 old) as Hold1 by (unfold tab_ok; by rewrite Hfs).
    assert (Forall (λ p, is_Some (fsval h1 p)) es) as Hes1 by (by rewrite Hfs).
    destruct (IH h1 (md ++ ext1) _ Hold1 Hes1 Hd1) as (ext2 & h2 & Hrun2 & Hfs2 & Hd2).
    exists (ext1 ++ ext2), h2. rewrite app_assoc. split_and!.
    + done.
    + congruence.
    + unfold pass1_view in *. rewrite bind_cons, app_assoc. by rewrite Hfs in Hd2.
Qed.

(** ** The second loop *)

Lemma searchUmounted_kept h new p o q md :
  tab_ok h new → fsval h p = Some o →
  lookup_mount (fs_heap h) (entries new) (source o) (target o) = Some q →
  searchUmounted new p md h = Some (md, h).
Proof.
  intros Hnew Ho Hl. unfold searchUmounted.
  run_get Ho. run_get Ho. run_with (Find_run _ _ (source o) (target o) Hnew).
  by rewrite Hl.
Qed.

Lemma searchUmounted_umount h new p o md v :
  tab_ok h new → fsval h p = Some o →
  reads h md v → Forall (entry_ok (fs_heap h)) v →
  lookup_mount (fs_heap h) (entries new) (source o) (target o) = None →
  list_find (λ e, is_mount_of (fs_heap h) (source o) (id o) e = true) v = None →
  searchUmounted new p md h = AddDiffEntry md p None MountActionUmount h.
Proof.
  intros Hnew Ho Hr Hok Hl Hf. unfold searchUmounted.
  run_get Ho. run_get Ho. run_with (Find_run _ _ (source o) (target o) Hnew).
  rewrite Hl. run_get Ho. run_get Ho.
  run_with (getMountEntry_run _ _ _ (source o) (id o) Hr Hok).
  by rewrite Hf.
Qed.

Lemma searchUmounted_move h new p o md v idx e :
  tab_ok h new → fsval h p = Some o →
  reads h md v → Forall (entry_ok (fs_heap h)) v →
  lookup_mount (fs_heap h) (entries new) (source o) (target o) = None →
  list_find (λ e, is_mount_of (fs_heap h) (source o) (id o) e = true) v = Some (idx, e) →
  ∃ l, md !! idx = Some (Some l) ∧
    searchUmounted new p md h
    = Some (md, mkHeap (fs_heap h)
                  (<[l := mkEntry p (newFs e) MountActionMove]> (de_heap h))).
Proof.
  intros Hnew Ho Hr Hok Hl Hf.
  apply list_find_Some in Hf as Hf'. destruct Hf' as (Hidx & _ & _).
  destruct (Forall2_lookup_r _ _ _ _ _ Hr Hidx) as (d & Hd & Hde).
  destruct d as [l|]; [|done]. exists l. split; [done|].
  unfold searchUmounted.
  run_get Ho. run_get Ho. run_with (Find_run _ _ (source o) (target o) Hnew).
  rewrite Hl. run_get Ho. run_get Ho.
  run_with (getMountEntry_run _ _ _ (source o) (id o) Hr Hok).
  rewrite Hf, Hd. cbn [from_option Datatypes.id].
  unfold set_oldFs, set_action, bind, store_de, load_de, ret.
  simpl in Hde.
  repeat (first [rewrite Hde | rewrite lookup_insert_eq]; simpl).
  by rewrite insert_insert_eq.
Qed.

Lemma is_mount_of_newFs fh s i e :
  is_mount_of fh s i e = true →
  action e = MountActionMount ∧
  ∃ w, fsv fh (newFs e) = Some w ∧ id w = i ∧ source w = s.
Proof.
  unfold is_mount_of. intros [Ha Hw]%andb_true_iff.
  apply bool_decide_eq_true in Ha. split; [done|].
  destruct (fsv fh (newFs e)) as [w|]; [|done].
  apply andb_true_iff in Hw as [Hi Hs].
  apply bool_decide_eq_true in Hi, Hs. eauto.
Qed.

Lemma searchUmounted_run h new p md v :
  tab_ok h new → is_Some (fsval h p) → diff_ok h md v →
  ∃ ext h', searchUmounted new p md h = Some (md ++ ext, h') ∧
    fs_heap h' = fs_heap h ∧
    diff_ok h' (md ++ ext) (umounted_view (fs_heap h) (entries new) v p).
Proof.
  intros Hnew [o Ho] Hd. unfold umounted_view. rewrite Ho.
  destruct (lookup_mount _ _ _ _) as [q|] eqn:Hl.
  { rewrite (searchUmounted_kept _ _ _ _ _ _ Hnew Ho Hl).
    exists [], h. by rewrite app_nil_r. }
  destruct Hd as (Hnd & Hr & Hok).
  destruct (list_find _ v) as [[idx e]|] eqn:Hf.
  - destruct (searchUmounted_move _ _ _ _ _ _ _ _ Hnew Ho Hr Hok Hl Hf)
      as (l & Hidx & ->).
    eexists [], _. rewrite app_nil_r. split_and!; [done..|].
    apply diff_ok_store; [done..|].
    apply list_find_Some in Hf as (Hv & Hm & _).
    apply is_mount_of_newFs in Hm as (_ & w & Hw & _).
    split; right; simpl; eauto.
  - rewrite (searchUmounted_umount _ _ _ _ _ _ Hnew Ho Hr Hok Hl Hf), AddDiffEntry_run.
    eexists _, _. split_and!; [done..|].
    apply diff_ok_alloc; [done|]. split; [right; simpl; eauto|by left].
Qed.

Lemma pass2_run h new es md v :
  tab_ok h new → Forall (λ p, is_Some (fsval h p)) es → diff_ok h md v →
  ∃ ext h', for_range es md (searchUmounted new) h = Some (md ++ ext, h') ∧
    fs_heap h' = fs_heap h ∧
    diff_ok h' (md ++ ext) (pass2_view (fs_heap h) (entries new) v es).
Proof.
  revert h md v. induction es as [|p es IH]; intros h md v Hnew Hes Hd.
  - exists [], h. rewrite app_nil_r. done.
  - apply Forall_cons in Hes as [Hp Hes]. cbn [for_range].
    destruct (searchUmounted_run _ _ _ _ _ Hnew Hp Hd) as (ext1 & h1 & Hrun & Hfs & Hd1).
    run_with Hrun.
    assert (tab_ok h1 new) as Hnew1 by (unfold tab_ok; by rewrite Hfs).
    assert (Forall (λ p, is_Some (fsval h1 p)) es) as Hes1 by (by rewrite Hfs).
    destruct (IH h1 (md ++ ext1) _ Hnew1 Hes1 Hd1) as (ext2 & h2 & Hrun2 & Hfs2 & Hd2).
    exists (ext1 ++ ext2), h2. rewrite app_assoc. split_and!.
    + done.
    + congruence.
    + simpl. by rewrite Hfs in Hd2.
Qed.

(** ** The degenerate loops *)

(** A loop that only appends one entry per element. *)
Lemma adds_run (mk : ptr → MountTabDiffEntry) es md h v :
  NoDup md → reads h md v →
  ∃ ext h',
    for_range es md (λ entry diffTable,
      AddDiffEntry diffTable (oldFs (mk entry)) (newFs (mk entry))
                   (action (mk entry))) h
    = Some (md ++ ext, h') ∧
    fs_heap h' = fs_heap h ∧
    NoDup (md ++ ext) ∧ reads h' (md ++ ext) (v ++ (mk <$> es)).
Proof.
  revert h md v. induction es as [|p es IH]; intros h md v Hnd Hr.
  - exists [], h. simpl. rewrite !app_nil_r. done.
  - cbn [for_range]. run_with (AddDiffEntry_run md (oldFs (mk p)) (newFs (mk p))
                                 (action (mk p)) h).
    destruct (cells_alloc h md v (mk p) Hnd Hr) as [Hnd1 Hr1].
    destruct (mk p) as [o n a] eqn:Emk. simpl in *.
    destruct (IH _ _ _ Hnd1 Hr1) as (ext2 & h2 & Hrun2 & Hfs2 & Hnd2 & Hr2).
    exists (Some (fresh (dom (de_heap h))) :: ext2), h2.
    rewrite <-app_assoc in Hrun2, Hnd2, Hr2. simpl in *.
    rewrite <-app_assoc in Hr2. rewrite Emk. done.
Qed.

Lemma mounts_run es md h v :
  Forall (ptr_ok (fs_heap h)) es → diff_ok h md v →
  ∃ ext h',
    for_range es md (λ entry diffTable,
      AddDiffEntry diffTable None entry MountActionMount) h = Some (md ++ ext, h') ∧
    fs_heap h' = fs_heap h ∧
    diff_ok h' (md ++ ext) (v ++ ((λ p, mkEntry None p MountActionMount) <$> es)).
Proof.
  intros Hes (Hnd & Hr & Hok).
  destruct (adds_run (λ p, mkEntry None p MountActionMount) es md h v Hnd Hr)
    as (ext & h' & Hrun & Hfs & Hnd' & Hr').
  exists ext, h'. unfold diff_ok. split_and!; try done.
  rewrite Hfs. apply Forall_app. split; [done|].
  apply Forall_fmap. eapply Forall_impl; [exact Hes|].
  intros p Hp. split; [by left|done].
Qed.

Lemma umounts_run es md h v :
  Forall (ptr_ok (fs_heap h)) es → diff_ok h md v →
  ∃ ext h',
    for_range es md (λ entry diffTable,
      AddDiffEntry diffTable entry None MountActionUmount) h = Some (md ++ ext, h') ∧
    fs_heap h' = fs_heap h ∧
    diff_ok h' (md ++ ext) (v ++ ((λ p, mkEntry p None MountActionUmount) <$> es)).
Proof.
  intros Hes (Hnd & Hr & Hok).
  destruct (adds_run (λ p, mkEntry p None MountActionUmount) es md h v Hnd Hr)
    as (ext & h' & Hrun & Hfs & Hnd' & Hr').
  exists ext, h'. unfold diff_ok. split_and!; try done.
  rewrite Hfs. apply Forall_app. split; [done|].
  apply Forall_fmap. eapply Forall_impl; [exact Hes|].
  intros p Hp. split; [done|by left].
Qed.

(** ** GenerateDiff computes [diff_view] *)

Lemma tab_ok_ptr_ok h es :
  Forall (λ p, is_Some (fsval h p)) es → Forall (ptr_ok (fs_heap h)) es.
Proof. intros H. eapply Forall_impl; [exact H|]. intros p Hp. by right. Qed.

Lemma GenerateDiff_run h oldTab newTab :
  Forall (λ p, is_Some (fsval h p)) (entries_of oldTab) →
  Forall (λ p, is_Some (fsval h p)) (entries_of newTab) →
  ∃ md h', GenerateDiff oldTab newTab h = Some (md, h') ∧
    fs_heap h' = fs_heap h ∧
    diff_ok h' md (diff_view (fs_heap h) (entries_of oldTab) (entries_of newTab)).
Proof.
  unfold entries_of, GenerateDiff, Size.
  set (old := default (mkMountTab []) oldTab).
  set (new := default (mkMountTab []) newTab).
  intros Hold Hnew. unfold diff_view, NewMountTabDiff.
  destruct (entries old) as [|o olds] eqn:Eo, (entries new) as [|n news] eqn:En;
    cbn [length bool_decide andb].
  - exists [], h. split_and!; [done..|apply diff_ok_nil].
  - rewrite bool_decide_eq_false_2 by done. rewrite bool_decide_eq_true_2 by done.
    cbn [andb].
    destruct (mounts_run (n :: news) [] h [] (tab_ok_ptr_ok _ _ Hnew) (diff_ok_nil h))
      as (ext & h' & Hrun & Hfs & Hd).
    exists ext, h'. done.
  - rewrite bool_decide_eq_true_2 by done. rewrite bool_decide_eq_false_2 by done.
    cbn [andb].
    destruct (umounts_run (o :: olds) [] h [] (tab_ok_ptr_ok _ _ Hold) (diff_ok_nil h))
      as (ext & h' & Hrun & Hfs & Hd).
    exists ext, h'. done.
  - rewrite !bool_decide_eq_false_2 by done. cbn [andb].
    rewrite <-Eo, <-En in *.
    destruct (pass1_run h old (entries new) [] [] Hold Hnew (diff_ok_nil h))
      as (md1 & h1 & Hrun1 & Hfs1 & Hd1).
    run_with Hrun1.
    assert (tab_ok h1 new) as Hnew1 by (unfold tab_ok; by rewrite Hfs1).
    assert (Forall (λ p, is_Some (fsval h1 p)) (entries old)) as Hold1
      by (by rewrite Hfs1).
    destruct (pass2_run h1 new (entries old) _ _ Hnew1 Hold1 Hd1)
      as (md2 & h2 & Hrun2 & Hfs2 & Hd2).
    exists ([] ++ md1 ++ md2), h2. split_and!.
    + by rewrite app_assoc.
    + congruence.
    + rewrite app_assoc. by rewrite Hfs1 in Hd2.
Qed.

Lemma GenerateDiff_inv h oldTab newTab md h' :
  Forall (λ p, is_Some (fsval h p)) (entries_of oldTab) →
  Forall (λ p, is_Some (fsval h p)) (entries_of newTab) →
  GenerateDiff oldTab newTab h = Some (md, h') →
  fs_heap h' = fs_heap h ∧
  diff_ok h' md (diff_view (fs_heap h) (entries_of oldTab) (entries_of newTab)).
Proof.
  intros Hold Hnew Hrun.
  destruct (GenerateDiff_run h oldTab newTab Hold Hnew) as (md0 & h0 & Hrun0 & H).
  rewrite Hrun in Hrun0. by injection Hrun0 as <- <-.
Qed.

(** ** Pass 1, entry by entry *)

Lemma lookup_mount_first fh pre o post ov s t :
  fsv fh (Some o) = Some ov → source ov = s → target ov = t →
  Forall (λ p, is_Some (fsv fh p)) pre →
  (∀ q w, q ∈ pre → fsv fh q = Some w → ¬ (source w = s ∧ target w = t)) →
  lookup_mount fh (pre ++ Some o :: post) s t = Some o.
Proof.
  intros Ho Hs Ht Hpre Hno. induction Hpre as [|q pre [w Hw] Hpre IH]; simpl.
  - simpl in Ho. rewrite Ho. unfold same_mount.
    by rewrite !bool_decide_eq_true_2.
  - rewrite Hw. unfold same_mount.
    destruct (bool_decide_reflect (source w = s)) as [Hs'|Hs']; simpl;
      [destruct (bool_decide_reflect (target w = t)) as [Ht'|Ht']|].
    + exfalso. apply (Hno q w); [left|done|done].
    + apply IH. intros q' w' Hq'. apply Hno. by right.
    + apply IH. intros q' w' Hq'. apply Hno. by right.
Qed.

(** ** Shapes of the computed entries *)

Lemma elem_of_mounted_view fh old p e :
  e ∈ mounted_view fh old p →
  ∃ n, fsv fh p = Some n ∧ newFs e = p ∧
    ((lookup_mount fh old (source n) (target n) = None ∧
      e = mkEntry None p MountActionMount) ∨
     (∃ o ov, lookup_mount fh old (source n) (target n) = Some o ∧
        fh !! o = Some ov ∧
        (vfsOptions ov ≠ vfsOptions n ∨ fsOptions ov ≠ fsOptions n) ∧
        e = mkEntry (Some o) p MountActionRemount)).
Proof.
  unfold mounted_view. destruct (fsv fh p) as [n|] eqn:Hn.
  2:{ intros H. by apply elem_of_nil in H. }
  destruct (lookup_mount _ _ _ _) as [o|] eqn:Hl.
  - destruct (fh !! o) as [ov|] eqn:Ho.
    2:{ intros H. by apply elem_of_nil in H. }
    destruct (bool_decide_reflect (vfsOptions ov ≠ vfsOptions n)) as [Hv|Hv]; simpl.
    + intros ->%list_elem_of_singleton. exists n. split_and!; [done..|].
      right. exists o, ov. auto.
    + destruct (bool_decide_reflect (fsOptions ov ≠ fsOptions n)) as [Hf|Hf].
      * intros ->%list_elem_of_singleton. exists n. split_and!; [done..|].
        right. exists o, ov. auto.
      * intros H. by apply elem_of_nil in H.
  - intros ->%list_elem_of_singleton. exists n. split_and!; [done..|]. by left.
Qed.

Lemma elem_of_pass1_view fh old new e :
  e ∈ pass1_view fh old new → ∃ p, p ∈ new ∧ e ∈ mounted_view fh old p.
Proof.
  unfold pass1_view. intros (p & He & Hp)%list_elem_of_bind. eauto.
Qed.

Lemma umounted_view_cases fh new v p :
  umounted_view fh new v p = v ∨
  ∃ o, fsv fh p = Some o ∧
    lookup_mount fh new (source o) (target o) = None ∧
    ((list_find (λ e, is_mount_of fh (source o) (id o) e = true) v = None ∧
      umounted_view fh new v p = v ++ [mkEntry p None MountActionUmount]) ∨
     (∃ idx e,
        list_find (λ e, is_mount_of fh (source o) (id o) e = true) v = Some (idx, e) ∧
        umounted_view fh new v p
        = <[idx := mkEntry p (newFs e) MountActionMove]> v)).
Proof.
  unfold umounted_view. destruct (fsv fh p) as [o|] eqn:Ho; [|by left].
  destruct (lookup_mount _ _ _ _) as [q|] eqn:Hl; [by left|].
  right. exists o. split_and!; [done..|].
  destruct (list_find _ v) as [[idx e]|]; [right|left]; eauto.
Qed.

(** A property of single entries that both kinds of second-loop updates
    establish holds of every entry at the end. *)
Lemma pass2_view_Forall (P : MountTabDiffEntry → Prop) fh new v es :
  Forall P v →
  (∀ p o, p ∈ es → fsv fh p = Some o →
     lookup_mount fh new (source o) (target o) = None →
     P (mkEntry p None MountActionUmount)) →
  (∀ p o e, p ∈ es → fsv fh p = Some o →
     lookup_mount fh new (source o) (target o) = None →
     is_mount_of fh (source o) (id o) e = true → P e →
     P (mkEntry p (newFs e) MountActionMove)) →
  Forall P (pass2_view fh new v es).
Proof.
  revert v. induction es as [|p es IH]; intros v Hv Hu Hm; [done|].
  simpl. apply IH.
  - destruct (umounted_view_cases fh new v p)
      as [->|(o & Ho & Hl & [[Hf ->]|(idx & e & Hf & ->)])]; [done| |].
    + apply Forall_app. split; [done|]. constructor; [|constructor].
      apply (Hu p o); [left|done..].
    + apply list_find_Some in Hf as (Hidx & Hmo & _).
      apply Forall_insert; [done|].
      apply (Hm p o e); [left|done..|].
      eapply Forall_lookup_1; eauto.
  - intros q o Hq. apply Hu. by right.
  - intros q o e Hq. apply Hm. by right.
Qed.

Lemma pass1_view_presence fh old new :
  Forall (presence fh) (pass1_view fh old new).
Proof.
  apply Forall_forall. intros e (p & Hp & He)%elem_of_pass1_view.
  apply elem_of_mounted_view in He
    as (n & Hn & Hnew & [[Hl ->]|(o & ov & Hl & Ho & _ & ->)]);
    unfold presence; simpl; eauto.
Qed.

Lemma diff_view_presence fh old new :
  Forall (λ p, is_Some (fsv fh p)) old →
  Forall (λ p, is_Some (fsv fh p)) new →
  Forall (presence fh) (diff_view fh old new).
Proof.
  intros Hold Hnew. unfold diff_view.
  destruct old as [|o old], new as [|n new]; [constructor| | |].
  - apply Forall_fmap. eapply Forall_impl; [exact Hnew|]. by intros p Hp.
  - apply Forall_fmap. eapply Forall_impl; [exact Hold|]. by intros p Hp.
  - apply pass2_view_Forall; [apply pass1_view_presence| |].
    + intros p w _ Hw _. unfold presence. simpl. eauto.
    + intros p w e _ Hw _ (_ & w' & Hw' & _)%is_mount_of_newFs _.
      unfold presence. simpl. eauto.
Qed.

(** C7. Every entry of a diff list returned by [GenerateDiff] has, for
    Mount, a nil oldFs and a present newFs; for Umount, a present oldFs and
    a nil newFs; for Move and Remount, both present. *)
Theorem C7_presence_invariant h oldTab newTab md h' :
  Forall (λ p, is_Some (fsval h p)) (entries_of oldTab) →
  Forall (λ p, is_Some (fsval h p)) (entries_of newTab) →
  GenerateDiff oldTab newTab h = Some (md, h') →
  ∀ p, p ∈ md →
    ∃ e, deval h' p = Some e ∧
      match action e with
      | MountActionMount => oldFs e = None ∧ is_Some (fsval h' (newFs e))
      | MountActionUmount => is_Some (fsval h' (oldFs e)) ∧ newFs e = None
      | MountActionMove | MountActionRemount =>
          is_Some (fsval h' (oldFs e)) ∧ is_Some (fsval h' (newFs e))
      end.
Proof.
  intros Hold Hnew Hrun p Hp.
  destruct (GenerateDiff_inv _ _ _ _ _ Hold Hnew Hrun) as (Hfs & _ & Hr & _).
  destruct (reads_elem_of _ _ _ _ Hr Hp) as (e & He & Hin).
  exists e. split; [done|]. rewrite Hfs.
  pose proof (diff_view_presence _ _ _ Hold Hnew) as Hall.
  by apply (proj1 (Forall_forall _ _) Hall e).
Qed.

(** Proves that the entries of a concrete table are allocated. *)
Ltac solve_allocated := apply (bool_decide_unpack _); vm_compute; exact I.

Lemma C7_presence_invariant_witness :
  ∃ md h',
    GenerateDiff (Ex.tab [1; 5]%positive) (Ex.tab [2; 3]%positive) Ex.h0
    = Some (md, h') ∧
    ∀ p, p ∈ md →
      ∃ e, deval h' p = Some e ∧
        match action e with
        | MountActionMount => oldFs e = None ∧ is_Some (fsval h' (newFs e))
        | MountActionUmount => is_Some (fsval h' (oldFs e)) ∧ newFs e = None
        | MountActionMove | MountActionRemount =>
            is_Some (fsval h' (oldFs e)) ∧ is_Some (fsval h' (newFs e))
        end.
Proof.
  eexists _, _. split; [vm_compute; reflexivity|].
  apply (C7_presence_invariant Ex.h0 (Ex.tab [1; 5]%positive)
           (Ex.tab [2; 3]%positive)); [solve_allocated..|].
  vm_compute. reflexivity.
Defined.

(** ** Totality and the degenerate cases *)

(** C4. [GenerateDiff] returns a diff list on all tables whose entries are
    allocated, leaving every [Filesystem] as it was; a nil table is the
    table without entries; two tables without entries give the empty list
    and an unchanged heap; an old table without entries gives one Mount entry
    (oldFs nil) per new-table entry, in order, in distinct cells; a new table
    without entries gives one Umount entry (newFs nil) per old-table entry,
    in order, in distinct cells. *)
Theorem C4_GenerateDiff_total h oldTab newTab :
  (Forall (λ p, is_Some (fsval h p)) (entries_of oldTab) →
   Forall (λ p, is_Some (fsval h p)) (entries_of newTab) →
   ∃ md h', GenerateDiff oldTab newTab h = Some (md, h') ∧
            fs_heap h' = fs_heap h) ∧
  GenerateDiff None newTab = GenerateDiff (Some (mkMountTab [])) newTab ∧
  GenerateDiff oldTab None = GenerateDiff oldTab (Some (mkMountTab [])) ∧
  (entries_of oldTab = [] → entries_of newTab = [] →
   GenerateDiff oldTab newTab h = Some ([], h)) ∧
  (entries_of oldTab = [] →
   ∃ md h', GenerateDiff oldTab newTab h = Some (md, h') ∧
     fs_heap h' = fs_heap h ∧ NoDup md ∧
     reads h' md ((λ p, mkEntry None p MountActionMount) <$> entries_of newTab)) ∧
  (entries_of newTab = [] →
   ∃ md h', GenerateDiff oldTab newTab h = Some (md, h') ∧
     fs_heap h' = fs_heap h ∧ NoDup md ∧
     reads h' md ((λ p, mkEntry p None MountActionUmount) <$> entries_of oldTab)).
Proof.
  split_and!.
  - intros Hold Hnew.
    destruct (GenerateDiff_run h oldTab newTab Hold Hnew) as (md & h' & Hrun & Hfs & _).
    eauto.
  - reflexivity.
  - reflexivity.
  - unfold entries_of, GenerateDiff, Size. intros -> ->. reflexivity.
  - unfold entries_of, GenerateDiff, Size. intros ->.
    destruct (entries (default (mkMountTab []) newTab)) as [|n news] eqn:En.
    { exists [], h. split_and!; [reflexivity|reflexivity|constructor|constructor]. }
    cbn [length]. rewrite bool_decide_eq_false_2 by done.
    rewrite bool_decide_eq_true_2 by done. cbn [andb].
    destruct (adds_run (λ p, mkEntry None p MountActionMount) (n :: news) [] h []
                (NoDup_nil_2) (reads_nil h)) as (ext & h' & Hrun & H).
    exists ext, h'. split; [exact Hrun|exact H].
  - unfold entries_of, GenerateDiff, Size. intros ->.
    destruct (entries (default (mkMountTab []) oldTab)) as [|o olds] eqn:Eo.
    { exists [], h. split_and!; [reflexivity|reflexivity|constructor|constructor]. }
    cbn [length]. rewrite bool_decide_eq_true_2 by done.
    rewrite bool_decide_eq_false_2 by done. cbn [andb].
    destruct (adds_run (λ p, mkEntry p None MountActionUmount) (o :: olds) [] h []
                (NoDup_nil_2) (reads_nil h)) as (ext & h' & Hrun & H).
    exists ext, h'. split; [exact Hrun|exact H].
Qed.

Lemma C4_GenerateDiff_total_witness :
  (∃ md h', GenerateDiff (Ex.tab [1; 5]%positive) (Ex.tab [2; 3]%positive) Ex.h0
            = Some (md, h') ∧ fs_heap h' = Ex.fh0) ∧
  GenerateDiff None None Ex.h0 = Some ([], Ex.h0) ∧
  (∃ md h', GenerateDiff None (Ex.tab [2; 5]%positive) Ex.h0 = Some (md, h') ∧
     fs_heap h' = Ex.fh0 ∧ NoDup md ∧
     reads h' md [mkEntry None (Some 2%positive) MountActionMount;
                  mkEntry None (Some 5%positive) MountActionMount]) ∧
  (∃ md h', GenerateDiff (Ex.tab [1; 5]%positive) None Ex.h0 = Some (md, h') ∧
     fs_heap h' = Ex.fh0 ∧ NoDup md ∧
     reads h' md [mkEntry (Some 1%positive) None MountActionUmount;
                  mkEntry (Some 5%positive) None MountActionUmount]).
Proof.
  split_and!.
  - apply (C4_GenerateDiff_total Ex.h0 (Ex.tab [1; 5]%positive)
             (Ex.tab [2; 3]%positive)); solve_allocated.
  - by apply (C4_GenerateDiff_total Ex.h0 None None).
  - by apply (C4_GenerateDiff_total Ex.h0 None (Ex.tab [2; 5]%positive)).
  - by apply (C4_GenerateDiff_total Ex.h0 (Ex.tab [1; 5]%positive) None).
Defined.

(** ** The accessors of a diff entry *)

Lemma getter_run s h mde e :
  deval h mde = Some e → ptr_ok (fs_heap h) (side_ptr s e) →
  getter s mde h
  = Some (match fsval h (side_ptr s e) with
          | Some w =>
              (Some (fresh (dom (fs_heap h))),
               mkHeap (<[fresh (dom (fs_heap h)) := w]> (fs_heap h)) (de_heap h))
          | None => (None, h)
          end).
Proof.
  intros He Hok.
  destruct s; unfold getter, GetOldFs, GetNewFs, side_ptr in *;
    run_with (load_de_run _ _ _ He);
    (destruct Hok as [Hnil|[w Hw]];
     [ by rewrite Hnil
     | rewrite Hw;
       match goal with |- context [match ?q with Some _ => _ | None => _ end] =>
         destruct q as [l|] eqn:El; [|done] end;
       by run_with (load_fs_run _ _ _ Hw) ]).
Qed.

(** C9. [GetOldFs] and [GetNewFs] return nil for a nil side and otherwise a
    pointer to a fresh cell holding the contents of the referenced
    [Filesystem]; whatever the caller then writes through the returned
    pointer, a later [GetOldFs] or [GetNewFs] on the same diff entry returns
    the contents it would have returned without the write. *)
Theorem C9_accessors_return_copies h mde e s1 :
  deval h mde = Some e → entry_ok (fs_heap h) e →
  ∃ r h1, getter s1 mde h = Some (r, h1) ∧
    (side_ptr s1 e = None → r = None ∧ h1 = h) ∧
    ∀ w, fsval h (side_ptr s1 e) = Some w →
      fsval h r = None ∧ fsval h1 r = Some w ∧
      ∀ v', ∃ h2, store_fs r v' h1 = Some (tt, h2) ∧
        ∀ s2, ∃ r' h1' r2 h3,
          getter s2 mde h1 = Some (r', h1') ∧
          getter s2 mde h2 = Some (r2, h3) ∧
          fsval h1' r' = fsval h (side_ptr s2 e) ∧
          fsval h3 r2 = fsval h (side_ptr s2 e).
Proof.
  intros He [Hold Hnew].
  assert (∀ s, ptr_ok (fs_heap h) (side_ptr s e)) as Hok by (by intros []).
  rewrite (getter_run s1 h mde e He (Hok s1)).
  destruct (fsval h (side_ptr s1 e)) as [w|] eqn:Hw.
  2:{ eexists _, _. split; [done|]. split; [done|]. intros w' [=]. }
  set (l := fresh (dom (fs_heap h))).
  assert (fs_heap h !! l = None) as Hl.
  { apply not_elem_of_dom, is_fresh. }
  eexists _, _. split; [done|]. split.
  { intros Hnil. rewrite Hnil in Hw. done. }
  intros w' [= <-]. split; [done|]. split.
  { simpl. by rewrite lookup_insert_eq. }
  intros v'. eexists. split.
  { simpl. by rewrite lookup_insert_eq. }
  intros s2.
  assert (∀ x, fsv (<[l := x]> (fs_heap h)) (side_ptr s2 e)
               = fsval h (side_ptr s2 e)) as Hsame.
  { intros x. destruct (Hok s2) as [->|[w2 Hw2]]; [done|].
    destruct (side_ptr s2 e) as [l2|]; [|done]. simpl in *.
    rewrite lookup_insert_ne; [done|]. intros ->. congruence. }
  set (h1 := mkHeap (<[l := w]> (fs_heap h)) (de_heap h)).
  set (h2 := mkHeap (<[l := v']> (<[l := w]> (fs_heap h))) (de_heap h)).
  assert (ptr_ok (fs_heap h1) (side_ptr s2 e)) as Hok1.
  { unfold ptr_ok. simpl. rewrite Hsame. apply Hok. }
  assert (ptr_ok (fs_heap h2) (side_ptr s2 e)) as Hok2.
  { unfold ptr_ok. simpl. rewrite insert_insert_eq, Hsame. apply Hok. }
  rewrite (getter_run s2 h1 mde e He Hok1), (getter_run s2 h2 mde e He Hok2).
  simpl. rewrite insert_insert_eq, !Hsame.
  destruct (fsval h (side_ptr s2 e)) as [w2|] eqn:Hw2.
  - eexists _, _, _, _. split_and!; [done..| |]; simpl; by rewrite lookup_insert_eq.
  - eexists _, _, _, _. split_and!; [done..| |]; done.
Qed.

Lemma C9_accessors_return_copies_witness :
  let h := mkHeap Ex.fh0
             (<[1%positive := mkEntry (Some 1%positive) (Some 2%positive)
                                MountActionMove]> ∅) in
  ∃ r h1, GetOldFs (Some 1%positive) h = Some (r, h1) ∧
    fsval h1 r = Some Ex.sdb1_a ∧
    ∃ h2, store_fs r Ex.sdd1_d h1 = Some (tt, h2) ∧
      fsval h2 r = Some Ex.sdd1_d ∧
      ∃ r2 h3, GetOldFs (Some 1%positive) h2 = Some (r2, h3) ∧
        fsval h3 r2 = Some Ex.sdb1_a.
Proof.
  intros h.
  destruct (C9_accessors_return_copies h (Some 1%positive)
              (mkEntry (Some 1%positive) (Some 2%positive) MountActionMove) Old)
    as (r & h1 & Hrun & _ & Hcopy).
  { reflexivity. }
  { split; right; by eexists. }
  destruct (Hcopy Ex.sdb1_a eq_refl) as (_ & Hr & Hmut).
  destruct (Hmut Ex.sdd1_d) as (h2 & Hstore & Hlater).
  destruct (Hlater Old) as (_ & _ & r2 & h3 & _ & Hrun2 & _ & Hv2).
  exists r, h1. split; [exact Hrun|]. split; [exact Hr|].
  exists h2. split; [exact Hstore|]. split.
  - vm_compute in Hrun. injection Hrun as <- <-.
    vm_compute in Hstore. injection Hstore as <-. reflexivity.
  - exists r2, h3. split; [exact Hrun2|exact Hv2].
Defined.

(** ** Move entries *)

Lemma pass1_view_newFs fh old new e :
  e ∈ pass1_view fh old new →
  newFs e ∈ new ∧ action e ≠ MountActionMove ∧ action e ≠ MountActionUmount.
Proof.
  intros (p & Hp & He)%elem_of_pass1_view.
  apply elem_of_mounted_view in He
    as (n & Hn & Hnew & [[Hl ->]|(o & ov & Hl & Ho & _ & ->)]); simpl; done.
Qed.

(** What the second loop maintains about Mount and Move entries. *)
Lemma diff_view_moves fh old new :
  Forall (λ p, is_Some (fsv fh p)) new →
  Forall (λ e,
    (action e = MountActionMount → newFs e ∈ new) ∧
    (action e = MountActionMove →
     ∃ ov nv, fsv fh (oldFs e) = Some ov ∧ fsv fh (newFs e) = Some nv ∧
       oldFs e ∈ old ∧ newFs e ∈ new ∧
       id ov = id nv ∧ source ov = source nv ∧ target ov ≠ target nv))
    (diff_view fh old new).
Proof.
  intros Hnew. unfold diff_view.
  destruct old as [|o old], new as [|n new]; [constructor| | |].
  - apply Forall_fmap, Forall_forall. intros p Hp. simpl. done.
  - apply Forall_fmap, Forall_forall. intros p Hp. simpl. done.
  - apply pass2_view_Forall.
    + apply Forall_forall. intros e (Hin & Hmv & _)%pass1_view_newFs. done.
    + intros p w _ _ _. simpl. done.
    + intros p w e Hp Hw Hl (Hact & w' & Hw' & Hid & Hsrc)%is_mount_of_newFs [Hin _].
      simpl. split; [done|]. intros _. exists w, w'.
      specialize (Hin Hact). split_and!; try done.
      intros Ht.
      apply (proj1 (lookup_mount_None _ _ _ _ Hnew) Hl (newFs e) w' Hin Hw').
      done.
Qed.

(** C10. In a list returned by [GenerateDiff], a Move entry has both sides
    present, its oldFs an old-table entry and its newFs a new-table entry
    with the same ID and the same Source and a different Target.  (The
    Targets differ on all tables: no uniqueness of (Source, Target) pairs is
    needed.) *)
Theorem C10_move_entries h oldTab newTab md h' :
  Forall (λ p, is_Some (fsval h p)) (entries_of oldTab) →
  Forall (λ p, is_Some (fsval h p)) (entries_of newTab) →
  GenerateDiff oldTab newTab h = Some (md, h') →
  ∀ p e, p ∈ md → deval h' p = Some e → action e = MountActionMove →
    ∃ ov nv, fsval h' (oldFs e) = Some ov ∧ fsval h' (newFs e) = Some nv ∧
      oldFs e ∈ entries_of oldTab ∧ newFs e ∈ entries_of newTab ∧
      id ov = id nv ∧ source ov = source nv ∧ target ov ≠ target nv.
Proof.
  intros Hold Hnew Hrun p e Hp He Hact.
  destruct (GenerateDiff_inv _ _ _ _ _ Hold Hnew Hrun) as (Hfs & _ & Hr & _).
  destruct (reads_elem_of _ _ _ _ Hr Hp) as (e' & He' & Hin).
  assert (e' = e) as -> by congruence.
  rewrite Hfs.
  pose proof (diff_view_moves (fs_heap h) (entries_of oldTab) _ Hnew) as Hall.
  by apply (proj1 (Forall_forall _ _) Hall e).
Qed.

Lemma C10_move_entries_witness :
  ∃ md h',
    GenerateDiff (Ex.tab [1; 5]%positive) (Ex.tab [2; 5]%positive) Ex.h0
    = Some (md, h') ∧
    deval h' (Some 1%positive)
    = Some (mkEntry (Some 1%positive) (Some 2%positive) MountActionMove) ∧
    ∃ ov nv, fsval h' (Some 1%positive) = Some ov ∧
      fsval h' (Some 2%positive) = Some nv ∧
      Some 1%positive ∈ entries_of (Ex.tab [1; 5]%positive) ∧
      Some 2%positive ∈ entries_of (Ex.tab [2; 5]%positive) ∧
      id ov = id nv ∧ source ov = source nv ∧ target ov ≠ target nv.
Proof.
  eexists _, _. split; [vm_compute; reflexivity|]. split; [reflexivity|].
  apply (C10_move_entries Ex.h0 (Ex.tab [1; 5]%positive) (Ex.tab [2; 5]%positive)
           _ _ ltac:(solve_allocated) ltac:(solve_allocated) eq_refl
           (Some 1%positive)
           (mkEntry (Some 1%positive) (Some 2%positive) MountActionMove)).
  - apply list_elem_of_here.
  - reflexivity.
  - reflexivity.
Defined.

(** ** Order of the diff list *)

Lemma patched_refl v : Forall2 patched v v.
Proof. apply Forall_Forall2_diag, Forall_forall. intros e _. by left. Qed.

Lemma patched_trans e1 e2 e3 : patched e1 e2 → patched e2 e3 → patched e1 e3.
Proof.
  intros [->|(Ha & Hb & Hc)] [->|(Ha' & Hb' & Hc')]; unfold patched; eauto.
  - congruence.
Qed.

Lemma pass1_view_sublist fh old new :
  newFs <$> pass1_view fh old new `sublist_of` new.
Proof.
  unfold pass1_view. induction new as [|p new IH]; [done|].
  rewrite bind_cons, fmap_app.
  destruct (mounted_view fh old p) as [|e [|e' l]] eqn:Hm.
  - simpl. by apply sublist_cons.
  - assert (e ∈ mounted_view fh old p) as He by (rewrite Hm; left).
    apply elem_of_mounted_view in He as (n & _ & <- & _).
    simpl. by apply sublist_skip.
  - exfalso. unfold mounted_view in Hm.
    repeat (case_match; try done).
Qed.

Lemma umounted_view_shape fh new v u p :
  Forall (λ e, action e = MountActionUmount ∧ newFs e = None) u →
  ∃ v' u', umounted_view fh new (v ++ u) p = v' ++ u ++ u' ∧
    Forall2 patched v v' ∧
    (u' = [] ∨ u' = [mkEntry p None MountActionUmount]).
Proof.
  intros Hu.
  destruct (umounted_view_cases fh new (v ++ u) p)
    as [->|(o & Ho & Hl & [[Hf ->]|(idx & e & Hf & ->)])].
  - exists v, []. rewrite app_nil_r. split_and!; [done|apply patched_refl|by left].
  - exists v, [mkEntry p None MountActionUmount].
    rewrite app_assoc. split_and!; [done|apply patched_refl|by right].
  - apply list_find_Some in Hf as (Hidx & (Hact & _)%is_mount_of_newFs & _).
    assert (idx < length v)%nat as Hlt.
    { destruct (decide (idx < length v)%nat) as [|Hge]; [done|].
      rewrite lookup_app_r in Hidx by lia.
      apply list_elem_of_lookup_2 in Hidx.
      apply (proj1 (Forall_forall _ _) Hu) in Hidx as [Hum _]. congruence. }
    rewrite lookup_app_l in Hidx by done.
    exists (<[idx := mkEntry p (newFs e) MountActionMove]> v), [].
    rewrite app_nil_r, insert_app_l by done. split_and!; [done| |by left].
    apply Forall2_same_length_lookup. split; [by rewrite length_insert|].
    intros j e1 e2 H1 H2. destruct (decide (j = idx)) as [->|Hne].
    + rewrite list_lookup_insert_eq in H2 by done. injection H2 as <-.
      assert (e1 = e) as -> by congruence. right. done.
    + rewrite list_lookup_insert_ne in H2 by done. left. congruence.
Qed.

Lemma pass2_view_shape fh new es v u :
  Forall (λ e, action e = MountActionUmount ∧ newFs e = None) u →
  ∃ v' u', pass2_view fh new (v ++ u) es = v' ++ u ++ u' ∧
    Forall2 patched v v' ∧
    Forall (λ e, action e = MountActionUmount ∧ newFs e = None) u' ∧
    oldFs <$> u' `sublist_of` es.
Proof.
  revert v u. induction es as [|p es IH]; intros v u Hu.
  - exists v, []. rewrite app_nil_r. split_and!; [done|apply patched_refl|done..].
  - simpl.
    destruct (umounted_view_shape fh new v u p Hu) as (v1 & u1 & -> & Hp1 & Hu1).
    assert (Forall (λ e, action e = MountActionUmount ∧ newFs e = None) (u ++ u1))
      as Hu'.
    { apply Forall_app. split; [done|]. destruct Hu1 as [->| ->]; repeat constructor. }
    destruct (IH v1 (u ++ u1) Hu') as (v2 & u2 & -> & Hp2 & Hu2 & Hsub).
    exists v2, (u1 ++ u2). rewrite <-!app_assoc. split_and!.
    + done.
    + clear -Hp1 Hp2. revert v2 Hp2.
      induction Hp1 as [|a b v v1 Hab _ IH]; intros v2 Hp2.
      * by apply Forall2_nil_inv_l in Hp2 as ->.
      * apply Forall2_cons_inv_l in Hp2 as (c & v2' & Hbc & Hp2 & ->).
        constructor; [by eapply patched_trans|by apply IH].
    + apply Forall_app. split; [|done].
      destruct Hu1 as [->| ->]; repeat constructor.
    + rewrite fmap_app. destruct Hu1 as [->| ->]; simpl.
      * by apply sublist_cons.
      * by apply sublist_skip.
Qed.

Lemma fmap_oldFs_umounts (es : list ptr) :
  oldFs <$> ((λ p, mkEntry p None MountActionUmount) <$> es) = es.
Proof. induction es as [|p es IH]; simpl; by f_equal. Qed.

Lemma searchMounted_no_old h old es md :
  entries old = [] → Forall (λ p, is_Some (fsval h p)) es →
  for_range es md (searchMounted old) h
  = for_range es md (λ entry diffTable,
      AddDiffEntry diffTable None entry MountActionMount) h.
Proof.
  intros Hold. revert h md. induction es as [|p es IH]; intros h md Hes; [done|].
  apply Forall_cons in Hes as [[n Hn] Hes]. cbn [for_range].
  assert (tab_ok h old) as Hok by (unfold tab_ok; rewrite Hold; constructor).
  unfold bind.
  rewrite (searchMounted_mount _ _ _ _ _ Hok Hn) by (by rewrite Hold).
  rewrite AddDiffEntry_run. by apply IH.
Qed.

(** C8. The list returned by [GenerateDiff] is [md1 ++ md2]: [md1] is the
    list the scan of the new table produces, cell by cell, each entry either
    as that scan left it or turned from Mount into Move with its newFs kept,
    and the newFs pointers of [md1] follow the order of the new table; [md2]
    holds only Umount entries, whose oldFs pointers follow the order of the
    old table. *)
Theorem C8_diff_order h oldTab newTab md h' :
  Forall (λ p, is_Some (fsval h p)) (entries_of oldTab) →
  Forall (λ p, is_Some (fsval h p)) (entries_of newTab) →
  GenerateDiff oldTab newTab h = Some (md, h') →
  ∃ md1 md2 h1 v1 v1' v2,
    for_range (entries_of newTab) []
      (searchMounted (default (mkMountTab []) oldTab)) h = Some (md1, h1) ∧
    md = md1 ++ md2 ∧
    reads h1 md1 v1 ∧ reads h' md1 v1' ∧ reads h' md2 v2 ∧
    Forall2 patched v1 v1' ∧
    newFs <$> v1' `sublist_of` entries_of newTab ∧
    Forall (λ e, action e ≠ MountActionUmount) v1' ∧
    Forall (λ e, action e = MountActionUmount ∧ newFs e = None) v2 ∧
    oldFs <$> v2 `sublist_of` entries_of oldTab.
Proof.
  intros Hold Hnew Hrun.
  destruct (pass1_run h (default (mkMountTab []) oldTab) (entries_of newTab) [] []
              Hold Hnew (diff_ok_nil h)) as (md1 & h1 & Hrun1 & Hfs1 & Hd1).
  simpl in Hrun1, Hd1. fold (entries_of oldTab) in Hd1.
  set (v1 := pass1_view (fs_heap h) (entries_of oldTab) (entries_of newTab)) in *.
  assert (Forall2 patched v1 v1 → ∀ v1', Forall2 patched v1 v1' →
          newFs <$> v1' `sublist_of` entries_of newTab ∧
          Forall (λ e, action e ≠ MountActionUmount) v1') as Hshape.
  { intros _ v1' Hp. split.
    - replace (newFs <$> v1') with (newFs <$> v1); [apply pass1_view_sublist|].
      clear -Hp. induction Hp as [|a b l k [->|(_ & _ & Hab)] _ IH];
        simpl; [done|by f_equal..].
    - apply Forall_forall. intros e He.
      destruct (proj1 (list_elem_of_lookup _ _) He) as (i & Hi).
      destruct (Forall2_lookup_r _ _ _ _ _ Hp Hi) as (e1 & He1 & Hpe).
      apply list_elem_of_lookup_2, pass1_view_newFs in He1 as (_ & Hmv & Hum).
      destruct Hpe as [->|(_ & Hact & _)]; [done|]. by rewrite Hact. }
  unfold GenerateDiff, Size in Hrun. fold (entries_of oldTab) in *.
  fold (entries_of newTab) in *.
  destruct (entries_of oldTab) as [|o olds] eqn:Eo.
  - (* old table without entries: the scan alone is the result *)
    assert (GenerateDiff oldTab newTab h = Some (md1, h1)) as Hrun'.
    { rewrite <-Hrun1.
      rewrite searchMounted_no_old by (try done; by rewrite <-Eo).
      unfold GenerateDiff, Size. fold (entries_of oldTab) (entries_of newTab).
      rewrite Eo. destruct (entries_of newTab); [done|].
      cbn [length]. rewrite bool_decide_eq_false_2 by done.
      by rewrite bool_decide_eq_true_2. }
    unfold GenerateDiff, Size in Hrun'. fold (entries_of oldTab) in *.
    fold (entries_of newTab) in *. rewrite Eo in Hrun'.
    rewrite Hrun' in Hrun. injection Hrun as <- <-.
    destruct Hd1 as (_ & Hr1 & _).
    exists md1, [], h1, v1, v1, []. rewrite app_nil_r.
    destruct (Hshape (patched_refl _) v1 (patched_refl _)).
    split_and!; try done; first [apply reads_nil|apply patched_refl|constructor].
  - destruct (entries_of newTab) as [|n news] eqn:En.
    + (* new table without entries: only Umount entries *)
      simpl in Hrun1. injection Hrun1 as <- <-.
      cbn [length] in Hrun. rewrite bool_decide_eq_true_2 in Hrun by done.
      rewrite bool_decide_eq_false_2 in Hrun by done. cbn [andb] in Hrun.
      destruct (adds_run (λ p, mkEntry p None MountActionUmount) (o :: olds) [] h []
                  (NoDup_nil_2) (reads_nil h)) as (ext & h2 & Hrun2 & _ & _ & Hr2).
      assert (for_range (o :: olds) NewMountTabDiff
                (λ entry diffTable,
                   AddDiffEntry diffTable entry None MountActionUmount) h
              = Some (ext, h2)) as Hrun3 by exact Hrun2.
      simpl in Hr2. rewrite Hrun3 in Hrun. injection Hrun as <- <-.
      exists [], ext, h, [], [], ((λ p, mkEntry p None MountActionUmount) <$> o :: olds).
      split_and!;
        [done|done|apply reads_nil|apply reads_nil|exact Hr2|constructor
        |done|constructor| |].
      * apply Forall_fmap, Forall_forall. by intros p _.
      * by rewrite fmap_oldFs_umounts.
    + (* both loops run *)
      cbn [length] in Hrun. rewrite !bool_decide_eq_false_2 in Hrun by done.
      cbn [andb] in Hrun. rewrite <-Eo, <-En in *.
      unfold entries_of in Hrun1 at 1.
      rewrite (bind_run _ _ _ _ _ Hrun1) in Hrun.
      assert (tab_ok h1 (default (mkMountTab []) newTab)) as Hnew1
        by (unfold tab_ok; by rewrite Hfs1).
      assert (Forall (λ p, is_Some (fsval h1 p)) (entries_of oldTab)) as Hold1
        by (by rewrite Hfs1).
      destruct (pass2_run h1 _ _ md1 v1 Hnew1 Hold1 Hd1)
        as (md2 & h2 & Hrun2 & Hfs2 & Hd2).
      rewrite Hrun2 in Hrun.
      injection Hrun as <- <-.
      destruct (pass2_view_shape (fs_heap h1)
                  (entries (default (mkMountTab []) newTab)) (entries_of oldTab)
                  v1 [] ltac:(constructor))
        as (v1' & u & Hv & Hp & Hu & Hsub).
      rewrite app_nil_r in Hv. simpl in Hv. rewrite Hv in Hd2.
      destruct Hd2 as (_ & Hr2 & _). destruct Hd1 as (_ & Hr1 & _).
      apply Forall2_app_inv in Hr2 as [Hr2a Hr2b].
      2:{ rewrite (Forall2_length _ _ _ Hr1). by eapply Forall2_length. }
      destruct (Hshape (patched_refl _) v1' Hp).
      exists md1, md2, h1, v1, v1', u. split_and!; done.
Qed.

Lemma C8_diff_order_witness :
  ∃ h',
    GenerateDiff (Ex.tab [5; 1]%positive) (Ex.tab [4; 2]%positive) Ex.h0
    = Some ([Some 1; Some 2; Some 3]%positive, h') ∧
    reads h' [Some 1; Some 2; Some 3]%positive
      [mkEntry None (Some 4%positive) MountActionMount;
       mkEntry (Some 1%positive) (Some 2%positive) MountActionMove;
       mkEntry (Some 5%positive) None MountActionUmount] ∧
    ∃ md1 md2 h1 v1 v1' v2,
      for_range [Some 4; Some 2]%positive []
        (searchMounted (mkMountTab [Some 5; Some 1]%positive)) Ex.h0
      = Some (md1, h1) ∧
      [Some 1; Some 2; Some 3]%positive = md1 ++ md2 ∧
      reads h1 md1 v1 ∧ reads h' md1 v1' ∧ reads h' md2 v2 ∧
      Forall2 patched v1 v1' ∧
      newFs <$> v1' `sublist_of` [Some 4; Some 2]%positive ∧
      Forall (λ e, action e ≠ MountActionUmount) v1' ∧
      Forall (λ e, action e = MountActionUmount ∧ newFs e = None) v2 ∧
      oldFs <$> v2 `sublist_of` [Some 5; Some 1]%positive.
Proof.
  eexists. split; [vm_compute; reflexivity|]. split.
  { repeat constructor. }
  apply (C8_diff_order Ex.h0 (Ex.tab [5; 1]%positive) (Ex.tab [4; 2]%positive));
    [solve_allocated..|].
  vm_compute. reflexivity.
Defined.

(** ** Entries that refer to a given mount *)

Section filter_insert.
Context {A : Type} (P : A → Prop) `{!∀ x, Decision (P x)}.

Lemma filter_insert_keep (l : list A) i x y :
  l !! i = Some x → ¬ P x → ¬ P y → filter P (<[i := y]> l) = filter P l.
Proof.
  intros Hi Hx Hy.
  rewrite <-(take_drop_middle l i x Hi) at 2.
  rewrite insert_take_drop by (by eapply lookup_lt_Some).
  rewrite !filter_app, !filter_cons. by rewrite !decide_False.
Qed.

Lemma filter_insert_single (l : list A) i x y :
  filter P l = [x] → l !! i = Some x → P x → P y →
  filter P (<[i := y]> l) = [y].
Proof.
  intros Hf Hi Hx Hy.
  rewrite <-(take_drop_middle l i x Hi) in Hf.
  rewrite insert_take_drop by (by eapply lookup_lt_Some).
  rewrite !filter_app, !filter_cons in *.
  rewrite decide_True in Hf by done. rewrite decide_True by done.
  destruct (filter P (take i l)) as [|a l1]; simpl in *.
  - injection Hf as Hf. by rewrite Hf.
  - injection Hf as _ Hf. by destruct l1.
Qed.

Lemma filter_single_elem_of (l : list A) x y :
  filter P l = [x] → y ∈ l → P y → y = x.
Proof.
  intros Hf Hy HPy.
  assert (y ∈ filter P l) as Hin by (by apply list_elem_of_filter).
  rewrite Hf in Hin. by apply list_elem_of_singleton in Hin.
Qed.
End filter_insert.

Lemma is_mount_of_true fh s i e :
  is_mount_of fh s i e = true ↔
  action e = MountActionMount ∧
  ∃ w, fsv fh (newFs e) = Some w ∧ id w = i ∧ source w = s.
Proof.
  split; [apply is_mount_of_newFs|].
  intros (Ha & w & Hw & Hi & Hs). unfold is_mount_of.
  rewrite Hw. by rewrite !bool_decide_eq_true_2.
Qed.

Lemma pass1_view_mount_inv fh old new :
  Forall (mount_inv new) (pass1_view fh old new).
Proof.
  apply Forall_forall. intros e (p & Hp & He)%elem_of_pass1_view.
  apply elem_of_mounted_view in He
    as (n & Hn & Hnew & [[Hl ->]|(o & ov & Hl & Ho & _ & ->)]);
    unfold mount_inv; simpl; done.
Qed.

Lemma umounted_view_mount_inv fh new v q :
  Forall (mount_inv new) v → Forall (mount_inv new) (umounted_view fh new v q).
Proof.
  intros Hv.
  destruct (umounted_view_cases fh new v q)
    as [->|(o & Ho & Hl & [[Hf ->]|(idx & e & Hf & ->)])]; [done| |].
  - apply Forall_app. split; [done|]. by repeat constructor.
  - apply Forall_insert; [done|]. by intros ?.
Qed.

(** A visit that neither appends nor patches an entry satisfying [P]
    leaves the entries satisfying [P] as they are. *)
Lemma umounted_view_filter_keep (P : MountTabDiffEntry → Prop)
    `{!∀ x, Decision (P x)} fh new v q :
  ¬ P (mkEntry q None MountActionUmount) →
  (∀ w e, fsv fh q = Some w → e ∈ v →
     is_mount_of fh (source w) (id w) e = true →
     ¬ P e ∧ ¬ P (mkEntry q (newFs e) MountActionMove)) →
  filter P (umounted_view fh new v q) = filter P v.
Proof.
  intros Hu Hm.
  destruct (umounted_view_cases fh new v q)
    as [->|(o & Ho & Hl & [[Hf ->]|(idx & e & Hf & ->)])]; [done| |].
  - rewrite filter_app, filter_cons, decide_False by done.
    by rewrite filter_nil, app_nil_r.
  - apply list_find_Some in Hf as (Hidx & Hmo & _).
    destruct (Hm o e Ho (list_elem_of_lookup_2 _ _ _ Hidx) Hmo) as [H1 H2].
    by eapply filter_insert_keep.
Qed.

Lemma filter_none {A} (P : A → Prop) `{!∀ x, Decision (P x)} (l : list A) :
  Forall (λ x, ¬ P x) l → filter P l = [].
Proof.
  induction 1 as [|x l Hx _ IH]; [done|]. by rewrite filter_cons_False.
Qed.

(** ** Old entries whose ID is gone *)

Section gone.
Context (fh : gmap loc Filesystem) (new : list ptr) (p : ptr) (o : Filesystem).
Context (Hnew : Forall (λ q, is_Some (fsv fh q)) new).
Context (Hp : fsv fh p = Some o).
Context (Hpair : ∀ q w, q ∈ new → fsv fh q = Some w →
                   ¬ (source w = source o ∧ target w = target o)).
Context (Hid : ∀ q w, q ∈ new → fsv fh q = Some w → id w ≠ id o).




End gone.


(** ** Pass 2, entry by entry *)



(** ** Structurally identical tables *)

Lemma lookup_mount_is_Some fh es p a s t :
  Forall (λ q, is_Some (fsv fh q)) es →
  p ∈ es → fsv fh p = Some a → source a = s → target a = t →
  ∃ o ov, lookup_mount fh es s t = Some o ∧ Some o ∈ es ∧
    fsv fh (Some o) = Some ov ∧ source ov = s ∧ target ov = t.
Proof.
  intros Hes Hp Ha Hs Ht.
  destruct (lookup_mount fh es s t) as [o|] eqn:Hl.
  - destruct (lookup_mount_Some _ _ _ _ _ Hl) as (pre & post & ov & -> & Hov & ? & ? & _).
    exists o, ov. split_and!; try done.
    apply elem_of_app. right. left.
  - exfalso. by apply (proj1 (lookup_mount_None _ _ _ _ Hes) Hl p a).
Qed.

(** Pairwise structurally identical tables give the empty diff list as soon
    as old-table entries that share Source and Target also share both option
    strings. *)
Lemma identical_tables_run h oldTab newTab :
  Forall2 (same_entry h) (entries_of oldTab) (entries_of newTab) →
  (∀ p q a b, p ∈ entries_of oldTab → q ∈ entries_of oldTab →
     fsval h p = Some a → fsval h q = Some b →
     source a = source b → target a = target b →
     vfsOptions a = vfsOptions b ∧ fsOptions a = fsOptions b) →
  GenerateDiff oldTab newTab h = Some ([], h).
Proof.
  intros Hsame Hdup.
  assert (Forall (λ p, is_Some (fsval h p)) (entries_of oldTab)) as Hold.
  { eapply Forall2_Forall_l; [exact Hsame|]. apply Forall_forall.
    intros q _ p (a & b & Ha & _). eauto. }
  assert (Forall (λ p, is_Some (fsval h p)) (entries_of newTab)) as Hnew.
  { eapply Forall2_Forall_r; [exact Hsame|]. apply Forall_forall.
    intros p _ q (a & b & _ & Hb & _). eauto. }
  assert (∀ es, es ⊆ entries_of newTab →
            for_range es [] (searchMounted (default (mkMountTab []) oldTab)) h
            = Some ([], h)) as Hpass1.
  { induction es as [|q es IH]; intros Hsub; [done|]. cbn [for_range].
    assert (q ∈ entries_of newTab) as Hq by (apply Hsub; left).
    destruct (proj1 (list_elem_of_lookup _ _) Hq) as (i & Hi).
    destruct (Forall2_lookup_r _ _ _ _ _ Hsame Hi)
      as (p & Hp & a & b & Ha & Hb & Hs & Ht & Hv & Hf).
    apply list_elem_of_lookup_2 in Hp.
    destruct (lookup_mount_is_Some _ _ p a (source b) (target b) Hold Hp Ha Hs Ht)
      as (o & ov & Hl & Ho & Hov & Hs' & Ht').
    destruct (Hdup (Some o) p ov a Ho Hp Hov Ha) as [Hv' Hf']; [congruence..|].
    unfold bind.
    rewrite (searchMounted_match _ _ _ _ _ _ _ Hold Hb Hl Hov).
    rewrite !bool_decide_eq_false_2 by (intros ?; congruence). simpl.
    apply IH. intros x Hx. apply Hsub. by right. }
  assert (∀ es, es ⊆ entries_of oldTab →
            for_range es [] (searchUmounted (default (mkMountTab []) newTab)) h
            = Some ([], h)) as Hpass2.
  { induction es as [|p es IH]; intros Hsub; [done|]. cbn [for_range].
    assert (p ∈ entries_of oldTab) as Hp by (apply Hsub; left).
    destruct (proj1 (list_elem_of_lookup _ _) Hp) as (i & Hi).
    destruct (Forall2_lookup_l _ _ _ _ _ Hsame Hi)
      as (q & Hq & a & b & Ha & Hb & Hs & Ht & _).
    apply list_elem_of_lookup_2 in Hq.
    destruct (lookup_mount_is_Some _ _ q b (source a) (target a) Hnew Hq Hb)
      as (o & ov & Hl & _); [done..|].
    unfold bind. rewrite (searchUmounted_kept _ _ _ _ _ _ Hnew Ha Hl).
    apply IH. intros x Hx. apply Hsub. by right. }
  unfold GenerateDiff, Size. fold (entries_of oldTab) (entries_of newTab).
  pose proof (Forall2_length _ _ _ Hsame) as Hlen.
  destruct (entries_of oldTab) as [|o olds] eqn:Eo,
           (entries_of newTab) as [|n news] eqn:En; try done.
  rewrite !bool_decide_eq_false_2 by done. cbn [andb].
  unfold NewMountTabDiff.
  rewrite (bind_run _ _ _ _ _ (Hpass1 _ (reflexivity _))).
  apply Hpass2. done.
Qed.

(** C5. For tables that keep the data-model invariant (within one table no
    two entries have the same Source and the same Target) and whose entries
    are pairwise structurally identical (same Source, Target, VFSOptions and
    FSOptions, whatever the instances and their IDs), [GenerateDiff] returns
    the empty diff list and leaves the heap as it was.  The invariant is
    asked of the old table; the new table, entry by entry identical, then has
    it too. *)
Theorem C5_identical_tables_empty_diff h oldTab newTab :
  unique_mounts (fs_heap h) (entries_of oldTab) →
  Forall2 (same_entry h) (entries_of oldTab) (entries_of newTab) →
  GenerateDiff oldTab newTab h = Some ([], h) ∧
  unique_mounts (fs_heap h) (entries_of newTab).
Proof.
  intros Huniq Hsame. split.
  - apply identical_tables_run; [done|].
    intros p q a b Hp Hq Ha Hb Hs Ht.
    apply list_elem_of_lookup in Hp as (i & Hi).
    apply list_elem_of_lookup in Hq as (j & Hj).
    pose proof (Huniq _ _ _ _ _ _ Hi Hj Ha Hb Hs Ht) as ->.
    assert (a = b) as -> by congruence. done.
  - intros i j p q v w Hi Hj Hv Hw Hs Ht.
    destruct (Forall2_lookup_r _ _ _ _ _ Hsame Hi)
      as (p' & Hp' & a & b & Ha & Hb & Hsa & Hta & _).
    destruct (Forall2_lookup_r _ _ _ _ _ Hsame Hj)
      as (q' & Hq' & a' & b' & Ha' & Hb' & Hsa' & Hta' & _).
    assert (b = v) as -> by congruence.
    assert (b' = w) as -> by congruence.
    apply (Huniq _ _ _ _ _ _ Hp' Hq' Ha Ha'); congruence.
Qed.

Lemma C5_identical_tables_empty_diff_witness :
  GenerateDiff (Ex.tab [1; 5]%positive) (Ex.tab [6; 5]%positive) Ex.h0
  = Some ([], Ex.h0) ∧
  unique_mounts Ex.fh0 (entries_of (Ex.tab [6; 5]%positive)).
Proof.
  apply (C5_identical_tables_empty_diff Ex.h0 (Ex.tab [1; 5]%positive)
           (Ex.tab [6; 5]%positive)).
  - intros i j p q v w Hi Hj Hv Hw Hs Ht.
    destruct i as [|[|i]]; destruct j as [|[|j]];
      vm_compute in Hi, Hj; simplify_eq; try done;
      vm_compute in Hv, Hw; simplify_eq; done.
  - repeat constructor.
    + exists Ex.sdb1_a, Ex.sdb1_a. by repeat split.
    + exists Ex.sdd1_d, Ex.sdd1_d. by repeat split.
Defined.

(** The invariant is needed.  Two tmpfs mounts stacked on one mount point,
    listed in both tables: the tables are pairwise structurally identical but
    list one (Source, Target) pair twice, the second new entry is compared
    with the first old entry, and a Remount is reported. *)
Lemma stacked_mounts_give_remount :
  Forall2 (same_entry Ex.h0)
    (entries_of (Ex.tab [7; 8]%positive)) (entries_of (Ex.tab [9; 10]%positive)) ∧
  ¬ unique_mounts Ex.fh0 (entries_of (Ex.tab [7; 8]%positive)) ∧
  ∃ h',
    GenerateDiff (Ex.tab [7; 8]%positive) (Ex.tab [9; 10]%positive) Ex.h0
    = Some ([Some 1%positive], h') ∧
    deval h' (Some 1%positive)
    = Some (mkEntry (Some 7%positive) (Some 10%positive) MountActionRemount).
Proof.
  split_and!.
  - repeat constructor.
    + exists Ex.tmp_1m, Ex.tmp_1m. by repeat split.
    + exists Ex.tmp_2m, Ex.tmp_2m. by repeat split.
  - intros Hu.
    by pose proof (Hu 0%nat 1%nat (Some 7%positive) (Some 8%positive)
                     Ex.tmp_1m Ex.tmp_2m eq_refl eq_refl eq_refl eq_refl
                     eq_refl eq_refl).
  - eexists. split; [vm_compute; reflexivity|reflexivity].
Qed.

(** ** Relocated mounts *)

Lemma pass2_view_mount_inv fh new es v :
  Forall (mount_inv new) v → Forall (mount_inv new) (pass2_view fh new v es).
Proof.
  revert v. induction es as [|q es IH]; intros v Hv; [done|].
  simpl. by apply IH, umounted_view_mount_inv.
Qed.

Lemma unique_ids_split fh pre x post v :
  unique_ids fh (pre ++ x :: post) → fsv fh x = Some v →
  ∀ q w, q ∈ pre ++ post → fsv fh q = Some w → id w ≠ id v.
Proof.
  intros Hu Hx q w Hq Hw Hid.
  assert ((pre ++ x :: post) !! length pre = Some x) as Hix.
  { by rewrite lookup_app_r, Nat.sub_diag by lia. }
  apply elem_of_app in Hq as [Hq|Hq];
    apply list_elem_of_lookup in Hq as (i & Hi).
  - assert (i < length pre)%nat as Hlt by (by eapply lookup_lt_Some).
    assert ((pre ++ x :: post) !! i = Some q) as Hiq by (by rewrite lookup_app_l).
    pose proof (Hu _ _ _ _ _ _ Hiq Hix Hw Hx Hid). lia.
  - assert ((pre ++ x :: post) !! (length pre + S i)%nat = Some q) as Hiq.
    { rewrite lookup_app_r by lia.
      replace (length pre + S i - length pre)%nat with (S i) by lia. done. }
    pose proof (Hu _ _ _ _ _ _ Hiq Hix Hw Hx Hid). lia.
Qed.

Section relocated.
Context (fh : gmap loc Filesystem) (old new : list ptr).
Context (o n : ptr) (ov nv : Filesystem).
Context (Hold : Forall (λ q, is_Some (fsv fh q)) old).
Context (Hnew : Forall (λ q, is_Some (fsv fh q)) new).
Context (Uold : unique_ids fh old) (Unew : unique_ids fh new).
Context (Ho : o ∈ old) (Hn : n ∈ new).
Context (Hov : fsv fh o = Some ov) (Hnv : fsv fh n = Some nv).
Context (Hid : id nv = id ov) (Hsrc : source nv = source ov).
Context (Hgone : ∀ q w, q ∈ new → fsv fh q = Some w →
                   ¬ (source w = source ov ∧ target w = target ov)).
Context (Hfree : ∀ q w, q ∈ old → fsv fh q = Some w →
                   ¬ (source w = source nv ∧ target w = target nv)).

Local Abbreviation refers := (refers_to o n).

Lemma relocated_same_id q w :
  q ∈ new → fsv fh q = Some w → id w = id nv → q = n.
Proof using All.
  intros Hq Hw Hi.
  apply list_elem_of_lookup in Hq as (i & Hiq).
  destruct (proj1 (list_elem_of_lookup _ _) Hn) as (j & Hjn).
  pose proof (Unew _ _ _ _ _ _ Hiq Hjn Hw Hnv Hi) as ->. congruence.
Qed.

Lemma relocated_mounted_other q :
  q ∈ new → q ≠ n → Forall (λ e, ¬ refers e) (mounted_view fh old q).
Proof using All.
  intros Hq Hne. apply Forall_forall. intros e He.
  apply elem_of_mounted_view in He
    as (w & Hw & Hnw & [[Hl ->]|(o' & w' & Hl & Ho' & _ & ->)]);
    unfold refers_to; simpl.
  - intros [<-|?]; done.
  - intros [<-|?]; [|done].
    apply lookup_mount_Some in Hl as (_ & _ & w'' & _ & Hw'' & Hs & Ht & _).
    rewrite Hov in Hw''. injection Hw'' as <-. by apply (Hgone q w).
Qed.

Lemma relocated_mounted_self :
  mounted_view fh old n = [mkEntry None n MountActionMount].
Proof using All.
  unfold mounted_view. rewrite Hnv.
  by rewrite (proj2 (lookup_mount_None fh old (source nv) (target nv) Hold)).
Qed.

Lemma relocated_pass1 :
  filter refers (pass1_view fh old new) = [mkEntry None n MountActionMount].
Proof using All.
  destruct (list_elem_of_split _ _ Hn) as (pre & post & Hsplit).
  assert (∀ q, q ∈ pre ++ post → q ∈ new ∧ q ≠ n) as Hother.
  { intros q Hq. split.
    - rewrite Hsplit. apply elem_of_app in Hq as [?|?];
        apply elem_of_app; [by left|right; by right].
    - intros ->. rewrite Hsplit in Unew.
      by apply (unique_ids_split _ _ _ _ _ Unew Hnv n nv Hq Hnv). }
  assert (∀ es, (∀ q, q ∈ es → q ∈ new ∧ q ≠ n) →
            filter refers (es ≫= mounted_view fh old) = []) as Hnone.
  { induction es as [|q es IH]; intros Hes; [done|].
    rewrite bind_cons, filter_app, IH, app_nil_r.
    - apply filter_none. destruct (Hes q) as [? ?]; [left|].
      by apply relocated_mounted_other.
    - intros x Hx. apply Hes. by right. }
  unfold pass1_view. rewrite Hsplit, bind_app, bind_cons, !filter_app.
  rewrite !Hnone, relocated_mounted_self.
  - rewrite filter_cons_True by (by right). by rewrite filter_nil.
  - intros q Hq. apply Hother, elem_of_app. by right.
  - intros q Hq. apply Hother, elem_of_app. by left.
Qed.

Lemma relocated_visit_other v q w :
  fsv fh q = Some w → id w ≠ id ov →
  Forall (mount_inv new) v →
  filter refers (umounted_view fh new v q) = filter refers v.
Proof using All.
  intros Hw Hne Hv. apply umounted_view_filter_keep.
  - unfold refers_to. simpl. intros [->|<-]; [|done]. congruence.
  - intros w' e Hw' He (Ha & u & Hu & Hiu & _)%is_mount_of_true.
    assert (w' = w) as -> by congruence.
    destruct (proj1 (Forall_forall _ _) Hv e He Ha) as [Hnil _].
    assert (newFs e ≠ n) as Hnn.
    { intros Heq. rewrite Heq, Hnv in Hu. injection Hu as <-. congruence. }
    unfold refers_to. simpl. split.
    + rewrite Hnil. intros [<-|?]; done.
    + intros [->|?]; [congruence|done].
Qed.

Lemma relocated_visit_others es v :
  (∀ q w, q ∈ es → fsv fh q = Some w → id w ≠ id ov) →
  Forall (mount_inv new) v →
  filter refers (pass2_view fh new v es) = filter refers v.
Proof using All.
  revert v. induction es as [|q es IH]; intros v Hes Hv; [done|].
  simpl. rewrite IH.
  - destruct (fsv fh q) as [w|] eqn:Hw.
    + apply (relocated_visit_other v q w); [done| |done].
      apply (Hes q w); [left|done].
    + unfold umounted_view. by rewrite Hw.
  - intros x w Hx. apply Hes. by right.
  - by apply umounted_view_mount_inv.
Qed.

Lemma relocated_visit_self v :
  Forall (mount_inv new) v →
  filter refers v = [mkEntry None n MountActionMount] →
  filter refers (umounted_view fh new v o) = [mkEntry o n MountActionMove].
Proof using All.
  intros Hv Hf. unfold umounted_view. rewrite Hov.
  rewrite (proj2 (lookup_mount_None fh new (source ov) (target ov) Hnew)) by done.
  set (X := mkEntry None n MountActionMount) in *.
  assert (X ∈ v) as HX.
  { assert (X ∈ filter refers v) as Hin by (rewrite Hf; left).
    by apply list_elem_of_filter in Hin as [_ ?]. }
  assert (is_mount_of fh (source ov) (id ov) X = true) as HmX.
  { apply is_mount_of_true. split; [done|]. exists nv. done. }
  destruct (list_find_elem_of (λ e, is_mount_of fh (source ov) (id ov) e = true)
              v X HX HmX) as [[idx e] Hfind].
  rewrite Hfind.
  apply list_find_Some in Hfind as (Hidx & (Ha & u & Hu & Hiu & _)%is_mount_of_true & _).
  assert (e ∈ v) as He by (by eapply list_elem_of_lookup_2).
  destruct (proj1 (Forall_forall _ _) Hv e He Ha) as [_ Hin].
  assert (newFs e = n) as Hen.
  { apply (relocated_same_id _ u); [done..|congruence]. }
  assert (e = X) as ->.
  { apply (filter_single_elem_of refers v); [done..|by right]. }
  simpl. apply (filter_insert_single refers v idx X); try done; by right.
Qed.

Lemma relocated_diff_view :
  filter refers (diff_view fh old new) = [mkEntry o n MountActionMove].
Proof using All.
  destruct (list_elem_of_split _ _ Ho) as (pre & post & Hsplit).
  assert (∀ q w, q ∈ pre ++ post → fsv fh q = Some w → id w ≠ id ov) as Hother.
  { rewrite Hsplit in Uold. by apply (unique_ids_split _ _ _ _ _ Uold). }
  assert (diff_view fh old new
          = pass2_view fh new (pass1_view fh old new) old) as ->.
  { unfold diff_view. destruct old; [by apply elem_of_nil in Ho|].
    destruct new; [by apply elem_of_nil in Hn|done]. }
  rewrite Hsplit at 2. unfold pass2_view. rewrite foldl_app. simpl.
  fold (pass2_view fh new (pass1_view fh old new) pre).
  match goal with |- context [foldl _ ?s post] =>
    fold (pass2_view fh new s post) end.
  rewrite relocated_visit_others.
  - apply relocated_visit_self.
    + apply pass2_view_mount_inv, pass1_view_mount_inv.
    + rewrite relocated_visit_others; [apply relocated_pass1| |].
      * intros q w Hq. apply Hother, elem_of_app. by left.
      * apply pass1_view_mount_inv.
  - intros q w Hq. apply Hother, elem_of_app. by right.
  - apply umounted_view_mount_inv, pass2_view_mount_inv, pass1_view_mount_inv.
Qed.
End relocated.

(** C2 (amended). With IDs unique within each table: when an old entry [o]
    and a new entry [n] have the same ID and the same Source, no new entry
    has the Source and Target of [o] and no old entry has the Source and
    Target of [n], exactly one entry of the list returned by [GenerateDiff]
    refers to [o] or to [n], and it is the Move entry from [o] to [n].  When
    the Sources of [o] and [n] differ, the list holds no Move entry from [o]
    to [n]. *)
Theorem C2_move_detection h oldTab newTab md h' o n ov nv :
  Forall (λ q, is_Some (fsval h q)) (entries_of oldTab) →
  Forall (λ q, is_Some (fsval h q)) (entries_of newTab) →
  GenerateDiff oldTab newTab h = Some (md, h') →
  fsval h o = Some ov → fsval h n = Some nv →
  ∃ v, reads h' md v ∧
    (unique_ids (fs_heap h) (entries_of oldTab) →
     unique_ids (fs_heap h) (entries_of newTab) →
     o ∈ entries_of oldTab → n ∈ entries_of newTab →
     id nv = id ov → source nv = source ov →
     (∀ q w, q ∈ entries_of newTab → fsval h q = Some w →
        ¬ (source w = source ov ∧ target w = target ov)) →
     (∀ q w, q ∈ entries_of oldTab → fsval h q = Some w →
        ¬ (source w = source nv ∧ target w = target nv)) →
     filter (λ e, oldFs e = o ∨ newFs e = n) v = [mkEntry o n MountActionMove]) ∧
    (source nv ≠ source ov → mkEntry o n MountActionMove ∉ v).
Proof.
  intros Hold Hnew Hrun Hov Hnv.
  destruct (GenerateDiff_inv _ _ _ _ _ Hold Hnew Hrun) as (Hfs & _ & Hr & _).
  eexists. split; [exact Hr|]. split.
  - intros Uold Unew Ho Hn Hid Hsrc Hgone Hfree.
    exact (relocated_diff_view (fs_heap h) _ _ o n ov nv Hold Hnew Uold Unew
             Ho Hn Hov Hnv Hid Hsrc Hgone Hfree).
  - intros Hsrc Hin.
    pose proof (diff_view_moves (fs_heap h) (entries_of oldTab) _ Hnew) as Hall.
    destruct (proj1 (Forall_forall _ _) Hall _ Hin) as [_ Hmv].
    destruct (Hmv eq_refl) as (ov' & nv' & Ho' & Hn' & _ & _ & _ & Hs & _).
    simpl in Ho', Hn'. congruence.
Qed.

(** Case analysis on membership in a concrete list. *)
Ltac elem_cases H :=
  vm_compute in H;
  repeat (apply elem_of_cons in H as [->|H]); [..|by apply elem_of_nil in H].

(** Proves that the IDs of a concrete table of at most three entries are
    unique. *)
Ltac solve_unique_ids :=
  intros i j p q v w Hi Hj Hv Hw Hid;
  destruct i as [|[|[|i]]]; destruct j as [|[|[|j]]];
  vm_compute in Hi, Hj; simplify_eq; try done;
  vm_compute in Hv, Hw; simplify_eq; done.

Lemma C2_move_detection_witness :
  (∃ md h' v,
     GenerateDiff (Ex.tab [1; 5]%positive) (Ex.tab [5; 2]%positive) Ex.h0
     = Some (md, h') ∧
     reads h' md v ∧
     filter (λ e, oldFs e = Some 1%positive ∨ newFs e = Some 2%positive) v
     = [mkEntry (Some 1%positive) (Some 2%positive) MountActionMove]) ∧
  (∃ md h' v,
     GenerateDiff (Ex.tab [1]%positive) (Ex.tab [4]%positive) Ex.h0
     = Some (md, h') ∧
     reads h' md v ∧
     mkEntry (Some 1%positive) (Some 4%positive) MountActionMove ∉ v).
Proof.
  split.
  - eexists _, _.
    destruct (C2_move_detection Ex.h0 (Ex.tab [1; 5]%positive)
                (Ex.tab [5; 2]%positive) _ _ (Some 1%positive) (Some 2%positive)
                Ex.sdb1_a Ex.sdb1_b ltac:(solve_allocated) ltac:(solve_allocated)
                ltac:(vm_compute; reflexivity) eq_refl eq_refl)
      as (vs & Hvs & Hmove & _).
    exists vs. split; [reflexivity|]. split; [exact Hvs|].
    apply Hmove; try done.
    + solve_unique_ids.
    + solve_unique_ids.
    + vm_compute. left.
    + vm_compute. right. left.
    + intros q w Hq Hw. elem_cases Hq; vm_compute in Hw; simplify_eq;
        by intros [? ?].
    + intros q w Hq Hw. elem_cases Hq; vm_compute in Hw; simplify_eq;
        by intros [? ?].
  - eexists _, _.
    destruct (C2_move_detection Ex.h0 (Ex.tab [1]%positive)
                (Ex.tab [4]%positive) _ _ (Some 1%positive) (Some 4%positive)
                Ex.sdb1_a Ex.sdc1_b ltac:(solve_allocated) ltac:(solve_allocated)
                ltac:(vm_compute; reflexivity) eq_refl eq_refl)
      as (vs & Hvs & _ & Hnomove).
    exists vs. split; [reflexivity|]. split; [exact Hvs|].
    by apply Hnomove.
Defined.

(** The mount with ID 5 is listed first as /dev/sdb1 on /mnt/a and then as
    /dev/sdc1 on /mnt/b: the diff is a Mount of the new entry followed by a
    Umount of the old one, and holds no Move. *)
Lemma C2_move_detection_counterexample :
  id Ex.sdc1_b = id Ex.sdb1_a ∧
  source Ex.sdc1_b ≠ source Ex.sdb1_a ∧
  target Ex.sdc1_b ≠ target Ex.sdb1_a ∧
  ∃ h',
    GenerateDiff (Ex.tab [1]%positive) (Ex.tab [4]%positive) Ex.h0
    = Some ([Some 1; Some 2]%positive, h') ∧
    reads h' [Some 1; Some 2]%positive
      [mkEntry None (Some 4%positive) MountActionMount;
       mkEntry (Some 1%positive) None MountActionUmount].
Proof.
  split_and!; [done..|].
  eexists. split; [vm_compute; reflexivity|]. by repeat constructor.
Qed.

(** ** The order of [sort.Strings] *)

Lemma string_compare_refl s : String.compare s s = Eq.
Proof.
  induction s as [|a s IH]; [done|]. simpl.
  unfold Ascii.compare. by rewrite N.compare_refl.
Qed.

Lemma string_compare_lt_trans s1 s2 s3 :
  String.compare s1 s2 = Lt → String.compare s2 s3 = Lt →
  String.compare s1 s3 = Lt.
Proof.
  revert s2 s3. induction s1 as [|a s1 IH]; intros [|b s2] [|c s3]; simpl;
    try done.
  unfold Ascii.compare.
  destruct (N.compare_spec (N_of_ascii a) (N_of_ascii b)) as [Hab|Hab|Hab];
    destruct (N.compare_spec (N_of_ascii b) (N_of_ascii c)) as [Hbc|Hbc|Hbc];
    destruct (N.compare_spec (N_of_ascii a) (N_of_ascii c)) as [Hac|Hac|Hac];
    try done; try lia.
  apply IH.
Qed.

Lemma string_le_lt_eq s1 s2 : string_le s1 s2 ↔ string_lt s1 s2 ∨ s1 = s2.
Proof.
  unfold string_le, string_lt, String.leb, String.ltb. split.
  - destruct (String.compare s1 s2) eqn:Hc; try done; [|by left].
    right. by apply String.compare_eq_iff.
  - intros [H| ->]; [|by rewrite string_compare_refl].
    by destruct (String.compare s1 s2).
Qed.

Lemma string_lt_compare s1 s2 : string_lt s1 s2 ↔ String.compare s1 s2 = Lt.
Proof.
  unfold string_lt, String.ltb. by destruct (String.compare s1 s2).
Qed.

Global Instance string_le_trans : Transitive string_le.
Proof.
  intros s1 s2 s3. rewrite !string_le_lt_eq, !string_lt_compare.
  intros [H12| ->] [H23| ->]; eauto using string_compare_lt_trans.
Qed.

Global Instance string_le_total : Total string_le.
Proof. intros s1 s2. apply String.leb_total. Qed.

Lemma sorted_le_NoDup_lt l :
  StronglySorted string_le l → NoDup l → StronglySorted string_lt l.
Proof.
  induction 1 as [|x l Hl IH Hx]; intros Hnd; constructor.
  - apply IH. by apply NoDup_cons in Hnd as [_ ?].
  - apply NoDup_cons in Hnd as [Hnin _].
    apply Forall_forall. intros y Hy.
    destruct (proj1 (string_le_lt_eq x y)) as [?| ->]; try done.
    by apply (proj1 (Forall_forall _ _) Hx).
Qed.

Lemma sort_Strings_spec (S : gset string) :
  StronglySorted string_lt (sort_Strings (elements S)) ∧
  ∀ s, s ∈ sort_Strings (elements S) ↔ s ∈ S.
Proof.
  unfold sort_Strings. split.
  - apply sorted_le_NoDup_lt; [apply StronglySorted_merge_sort; apply _|].
    rewrite merge_sort_Permutation. apply NoDup_elements.
  - intros s. rewrite merge_sort_Permutation. apply elem_of_elements.
Qed.

(** ** ListSources *)

Lemma presence_src_ptr fh e : presence fh e → is_Some (fsv fh (src_ptr e)).
Proof. unfold presence, src_ptr. destruct (action e); tauto. Qed.

Lemma collectSource_run h d e w (S : gset string) :
  deval h d = Some e → fsval h (src_ptr e) = Some w →
  collectSource d S h = Some ({[source w]} ∪ S, h).
Proof.
  intros Hd Hw. unfold collectSource. run_with (load_de_run _ _ _ Hd).
  assert ((if bool_decide (action e = MountActionUmount)
           then GetSource (oldFs e) else GetSource (newFs e)) h
          = Some (source w, h)) as Hsrc.
  { unfold src_ptr in Hw.
    destruct (action e); simpl; by apply GetSource_run. }
  run_with Hsrc.
  destruct (bool_decide_reflect (source w ∈ S)) as [Hin|Hin]; [|done].
  unfold ret. repeat f_equal. apply set_eq. intros y.
  rewrite elem_of_union, elem_of_singleton. split; [by right|].
  by intros [->|?].
Qed.

Lemma collectSources_run h md v (S : gset string) :
  reads h md v → Forall (λ e, is_Some (fsval h (src_ptr e))) v →
  ∃ S', for_range md S collectSource h = Some (S', h) ∧
    ∀ s, s ∈ S' ↔ s ∈ S ∨ ∃ e w, e ∈ v ∧ fsval h (src_ptr e) = Some w ∧ source w = s.
Proof.
  intros Hr. revert S. induction Hr as [|d e md v Hd Hr IH]; intros S Hv.
  - exists S. split; [done|]. intros s. split; [by left|].
    intros [?|(e & w & He & _)]; [done|]. by apply elem_of_nil in He.
  - apply Forall_cons in Hv as [[w Hw] Hv]. cbn [for_range].
    run_with (collectSource_run _ _ _ _ S Hd Hw).
    destruct (IH ({[source w]} ∪ S) Hv) as (S' & Hrun & HS').
    exists S'. split; [done|]. intros s. rewrite HS'. split.
    + intros [[->%elem_of_singleton|?]%elem_of_union|(e' & w' & He' & Hw' & Hs)].
      * right. exists e, w. split_and!; [left|done..].
      * by left.
      * right. exists e', w'. split_and!; [by right|done..].
    + intros [?|(e' & w' & [->|He']%elem_of_cons & Hw' & Hs)].
      * left. apply elem_of_union. by right.
      * left. rewrite Hw in Hw'. injection Hw' as <-.
        apply elem_of_union. left. by apply elem_of_singleton.
      * right. eauto.
Qed.

(** C6. On a diff list produced by [GenerateDiff], [ListSources] returns,
    without changing the heap, a strictly ascending (hence sorted and
    duplicate-free) sequence that holds exactly the strings [oldFs.Source]
    of the Umount entries and [newFs.Source] of all other entries. *)
Theorem C6_ListSources_sorted_set h oldTab newTab md h' :
  Forall (λ p, is_Some (fsval h p)) (entries_of oldTab) →
  Forall (λ p, is_Some (fsval h p)) (entries_of newTab) →
  GenerateDiff oldTab newTab h = Some (md, h') →
  ∃ l, ListSources md h' = Some (l, h') ∧
    StronglySorted string_lt l ∧
    ∀ s, s ∈ l ↔
      ∃ p e w, p ∈ md ∧ deval h' p = Some e ∧
        fsval h' (match action e with
                  | MountActionUmount => oldFs e
                  | _ => newFs e
                  end) = Some w ∧
        source w = s.
Proof.
  intros Hold Hnew Hrun.
  destruct (GenerateDiff_inv _ _ _ _ _ Hold Hnew Hrun) as (Hfs & _ & Hr & _).
  pose proof (diff_view_presence _ _ _ Hold Hnew) as Hpres.
  rewrite <-Hfs in Hpres, Hr.
  destruct (collectSources_run h' md _ ∅ Hr) as (S & Hloop & HS).
  { eapply Forall_impl; [exact Hpres|]. intros e. apply presence_src_ptr. }
  unfold ListSources. run_with Hloop.
  destruct (sort_Strings_spec S) as [Hsorted Hmem].
  eexists. split; [reflexivity|]. split; [done|].
  intros s. rewrite Hmem, HS. split.
  - intros [Hin|(e & w & He & Hw & Hs)]; [by apply not_elem_of_empty in Hin|].
    destruct (reads_elem_of_r _ _ _ _ Hr He) as (p & Hp & Hpe).
    exists p, e, w. done.
  - intros (p & e & w & Hp & Hpe & Hw & Hs). right.
    destruct (reads_elem_of _ _ _ _ Hr Hp) as (e' & He' & Hin).
    assert (e' = e) as -> by congruence. exists e, w. done.
Qed.

Lemma C6_ListSources_sorted_set_witness :
  ∃ md h' l,
    GenerateDiff None (Ex.tab [5; 1; 2]%positive) Ex.h0 = Some (md, h') ∧
    ListSources md h' = Some (l, h') ∧
    l = ["/dev/sdb1"; "/dev/sdd1"]%string ∧
    StronglySorted string_lt l ∧
    ∀ s, s ∈ l ↔
      ∃ p e w, p ∈ md ∧ deval h' p = Some e ∧
        fsval h' (match action e with
                  | MountActionUmount => oldFs e
                  | _ => newFs e
                  end) = Some w ∧
        source w = s.
Proof.
  eexists _, _.
  destruct (C6_ListSources_sorted_set Ex.h0 None (Ex.tab [5; 1; 2]%positive) _ _
              ltac:(solve_allocated) ltac:(solve_allocated)
              ltac:(vm_compute; reflexivity)) as (l & Hl & Hsorted & Hmem).
  exists l. split; [reflexivity|]. split; [exact Hl|]. split; [|by split].
  vm_compute in Hl. by injection Hl as <-.
Defined.

(** * Further properties of the diff engine *)

(** ** What GenerateDiff leaves alone *)

Lemma framed_refl h : framed h [] h.
Proof.
  split_and!; [done|done| |by left].
  intros p Hp. by apply elem_of_nil in Hp.
Qed.

Lemma framed_alloc h0 md h e :
  framed h0 md h →
  framed h0 (md ++ [Some (fresh (dom (de_heap h)))])
    (mkHeap (fs_heap h) (<[fresh (dom (de_heap h)) := e]> (de_heap h))).
Proof.
  intros (Hfs & Hold & Hnew & Hdom).
  assert (de_heap h !! fresh (dom (de_heap h)) = None) as Hfresh
    by apply not_elem_of_dom, is_fresh.
  split_and!; simpl.
  - done.
  - intros l e0 Hl. rewrite lookup_insert_ne; [by apply Hold|].
    intros <-. apply Hold in Hl. congruence.
  - intros p [Hp| ->%list_elem_of_singleton]%elem_of_app; [by apply Hnew|].
    simpl. destruct (de_heap h0 !! _) as [e0|] eqn:E; [|done].
    apply Hold in E. congruence.
  - intros l Hl. destruct (decide (l = fresh (dom (de_heap h)))) as [->|Hne].
    + right. apply elem_of_app. right. left.
    + rewrite lookup_insert_ne in Hl by done.
      destruct (Hdom l Hl) as [?|?]; [by left|].
      right. apply elem_of_app. by left.
Qed.

Lemma framed_store h0 md h d e :
  framed h0 md h → Some d ∈ md →
  framed h0 md (mkHeap (fs_heap h) (<[d := e]> (de_heap h))).
Proof.
  intros (Hfs & Hold & Hnew & Hdom) Hd. split_and!; simpl.
  - done.
  - intros l e0 Hl. rewrite lookup_insert_ne; [by apply Hold|].
    intros <-. specialize (Hnew _ Hd). simpl in Hnew. congruence.
  - done.
  - intros l Hl. destruct (decide (l = d)) as [->|Hne]; [by right|].
    rewrite lookup_insert_ne in Hl by done. by apply Hdom.
Qed.

Lemma AddDiffEntry_building h0 md h o n a md' h' :
  building h0 md h → entry_ok (fs_heap h) (mkEntry o n a) →
  AddDiffEntry md o n a h = Some (md', h') → building h0 md' h'.
Proof.
  intros [[v Hd] Hf] He. rewrite AddDiffEntry_run. intros [= <- <-]. split.
  - eexists. by apply diff_ok_alloc.
  - by apply framed_alloc.
Qed.

Lemma searchMounted_building h0 old p md h md' h' :
  tab_ok h0 old → is_Some (fsval h0 p) → building h0 md h →
  searchMounted old p md h = Some (md', h') → building h0 md' h'.
Proof.
  intros Hold Hp [[v Hd] Hf] Hrun.
  pose proof Hf as (Hfs & _).
  assert (tab_ok h old) as Hold' by (unfold tab_ok; by rewrite Hfs).
  destruct Hp as [n Hn]. rewrite <-Hfs in Hn.
  destruct (lookup_mount (fs_heap h) (entries old) (source n) (target n))
    as [o|] eqn:Hl.
  - destruct (lookup_mount_Some _ _ _ _ _ Hl) as (_ & _ & ov & _ & Ho & _).
    simpl in Ho.
    rewrite (searchMounted_match _ _ _ _ _ _ _ Hold' Hn Hl Ho) in Hrun.
    destruct (_ || _).
    + eapply AddDiffEntry_building; [by split; eauto| |exact Hrun].
      split; right; simpl; eauto.
    + injection Hrun as <- <-. split; eauto.
  - rewrite (searchMounted_mount _ _ _ _ _ Hold' Hn Hl) in Hrun.
    eapply AddDiffEntry_building; [by split; eauto| |exact Hrun].
    split; [by left|right; simpl; eauto].
Qed.

Lemma searchUmounted_building h0 new p md h md' h' :
  tab_ok h0 new → is_Some (fsval h0 p) → building h0 md h →
  searchUmounted new p md h = Some (md', h') → building h0 md' h'.
Proof.
  intros Hnew Hp [[v Hd] Hf] Hrun.
  pose proof Hf as (Hfs & _).
  assert (tab_ok h new) as Hnew' by (unfold tab_ok; by rewrite Hfs).
  destruct Hp as [o Ho]. rewrite <-Hfs in Ho.
  destruct (lookup_mount (fs_heap h) (entries new) (source o) (target o))
    as [q|] eqn:Hl.
  { rewrite (searchUmounted_kept _ _ _ _ _ _ Hnew' Ho Hl) in Hrun.
    injection Hrun as <- <-. split; eauto. }
  pose proof Hd as (Hnd & Hr & Hok).
  destruct (list_find (λ e, is_mount_of (fs_heap h) (source o) (id o) e = true) v)
    as [[idx e]|] eqn:Hfind.
  - destruct (searchUmounted_move _ _ _ _ _ _ _ _ Hnew' Ho Hr Hok Hl Hfind)
      as (d & Hidx & Hrun').
    rewrite Hrun' in Hrun. injection Hrun as <- <-. split.
    + eexists. apply diff_ok_store; [done..|].
      apply list_find_Some in Hfind as (_ & Hm & _).
      apply is_mount_of_newFs in Hm as (_ & w & Hw & _).
      split; right; simpl; eauto.
    + apply framed_store; [done|]. by eapply list_elem_of_lookup_2.
  - rewrite (searchUmounted_umount _ _ _ _ _ _ Hnew' Ho Hr Hok Hl Hfind) in Hrun.
    eapply AddDiffEntry_building; [by split; eauto| |exact Hrun].
    split; [right; simpl; eauto|by left].
Qed.

Lemma for_range_building {A} (body : A → MountTabDiff → M MountTabDiff) h0 es :
  (∀ x md h md' h', x ∈ es → building h0 md h →
     body x md h = Some (md', h') → building h0 md' h') →
  ∀ md h md' h', building h0 md h →
    for_range es md body h = Some (md', h') → building h0 md' h'.
Proof.
  induction es as [|x es IH]; intros Hbody md h md' h' Hb Hrun.
  - by injection Hrun as <- <-.
  - cbn [for_range] in Hrun.
    apply bind_inv in Hrun as (md1 & h1 & Hstep & Hrest).
    eapply IH; [|eapply Hbody; [left|done..]|exact Hrest].
    intros y ? ? ? ? Hy. apply Hbody. by right.
Qed.

Lemma GenerateDiff_building h oldTab newTab md h' :
  Forall (λ p, is_Some (fsval h p)) (entries_of oldTab) →
  Forall (λ p, is_Some (fsval h p)) (entries_of newTab) →
  GenerateDiff oldTab newTab h = Some (md, h') → building h md h'.
Proof.
  intros Hold Hnew. unfold GenerateDiff, Size.
  fold (entries_of oldTab) (entries_of newTab).
  assert (building h [] h) as Hb0.
  { split; [exists []; apply diff_ok_nil|apply framed_refl]. }
  destruct (bool_decide (length (entries_of newTab) = 0%nat)
            && bool_decide (length (entries_of oldTab) = 0%nat)).
  { intros [= <- <-]. done. }
  destruct (bool_decide (length (entries_of oldTab) = 0%nat)).
  { apply (for_range_building _ h (entries_of newTab)); [|done].
    intros p md0 h0 md1 h1 Hp Hb. pose proof Hb as [_ (Hfs & _)].
    apply AddDiffEntry_building; [done|]. rewrite Hfs.
    split; [by left|right]. by apply (proj1 (Forall_forall _ _) Hnew). }
  destruct (bool_decide (length (entries_of newTab) = 0%nat)).
  { apply (for_range_building _ h (entries_of oldTab)); [|done].
    intros p md0 h0 md1 h1 Hp Hb. pose proof Hb as [_ (Hfs & _)].
    apply AddDiffEntry_building; [done|]. rewrite Hfs.
    split; [right|by left]. by apply (proj1 (Forall_forall _ _) Hold). }
  intros (md1 & h1 & Hrun1 & Hrun2)%bind_inv.
  eapply (for_range_building _ h (entries_of oldTab)); [| |exact Hrun2].
  - intros p md0 h0 md2 h2 Hp. apply searchUmounted_building; [done|].
    by apply (proj1 (Forall_forall _ _) Hold).
  - eapply (for_range_building _ h (entries_of newTab)); [|exact Hb0|exact Hrun1].
    intros p md0 h0 md2 h2 Hp. apply searchMounted_building; [done|].
    by apply (proj1 (Forall_forall _ _) Hnew).
Qed.

(** X1. [GenerateDiff] works on cells of its own: the pointers it returns are
    pairwise distinct and fresh, every [Filesystem] and every diff entry that
    existed before the call is as it was, and every diff-entry cell that
    exists after the call existed before or is in the returned list. *)
Theorem X1_GenerateDiff_frame h oldTab newTab md h' :
  Forall (λ p, is_Some (fsval h p)) (entries_of oldTab) →
  Forall (λ p, is_Some (fsval h p)) (entries_of newTab) →
  GenerateDiff oldTab newTab h = Some (md, h') →
  NoDup md ∧
  (∀ p, p ∈ md → ∃ l, p = Some l ∧ de_heap h !! l = None) ∧
  fs_heap h' = fs_heap h ∧
  (∀ l e, de_heap h !! l = Some e → de_heap h' !! l = Some e) ∧
  (∀ l, is_Some (de_heap h' !! l) → is_Some (de_heap h !! l) ∨ Some l ∈ md).
Proof.
  intros Hold Hnew Hrun.
  destruct (GenerateDiff_building _ _ _ _ _ Hold Hnew Hrun)
    as [(v & Hnd & Hr & _) (Hfs & Hkeep & Hfresh & Hdom)].
  split_and!; try done.
  intros p Hp. destruct (reads_elem_of _ _ _ _ Hr Hp) as (e & He & _).
  destruct p as [l|]; [|done]. exists l. split; [done|]. by apply (Hfresh (Some l)).
Qed.

Lemma X1_GenerateDiff_frame_witness :
  let h := mkHeap Ex.fh0
             (<[1%positive := mkEntry None (Some 5%positive) MountActionMount]> ∅) in
  ∃ md h',
    GenerateDiff (Ex.tab [1; 5]%positive) (Ex.tab [2; 3]%positive) h
    = Some (md, h') ∧
    NoDup md ∧
    (∀ p, p ∈ md → ∃ l, p = Some l ∧ de_heap h !! l = None) ∧
    fs_heap h' = fs_heap h ∧
    (∀ l e, de_heap h !! l = Some e → de_heap h' !! l = Some e) ∧
    (∀ l, is_Some (de_heap h' !! l) → is_Some (de_heap h !! l) ∨ Some l ∈ md).
Proof.
  intros h. eexists _, _. split; [vm_compute; reflexivity|].
  apply (X1_GenerateDiff_frame h (Ex.tab [1; 5]%positive) (Ex.tab [2; 3]%positive));
    [solve_allocated..|].
  vm_compute. reflexivity.
Defined.

(** ** The early returns and the two passes *)

Lemma bind_ret_r {A} (m : M A) h : bind m ret h = m h.
Proof. unfold bind, ret. by destruct (m h) as [[a h1]|]. Qed.

Lemma searchUmounted_no_new h new es md v :
  entries new = [] → Forall (λ p, is_Some (fsval h p)) es →
  NoDup md → reads h md v →
  Forall (λ e, action e = MountActionUmount ∧ entry_ok (fs_heap h) e) v →
  for_range es md (searchUmounted new) h
  = for_range es md (λ entry diffTable,
      AddDiffEntry diffTable entry None MountActionUmount) h.
Proof.
  intros Hnew. revert h md v.
  induction es as [|p es IH]; intros h md v Hes Hnd Hr Hv; [done|].
  apply Forall_cons in Hes as [[o Ho] Hes]. cbn [for_range].
  assert (tab_ok h new) as Hok by (unfold tab_ok; rewrite Hnew; constructor).
  assert (Forall (entry_ok (fs_heap h)) v) as Hv'.
  { eapply Forall_impl; [exact Hv|]. by intros e [_ ?]. }
  unfold bind.
  rewrite (searchUmounted_umount _ _ _ _ _ _ Hok Ho Hr Hv').
  - rewrite AddDiffEntry_run.
    destruct (cells_alloc h md v (mkEntry p None MountActionUmount) Hnd Hr)
      as [Hnd1 Hr1].
    eapply IH; [exact Hes|exact Hnd1|exact Hr1|]. simpl.
    apply Forall_app. split; [done|].
    constructor; [|constructor]. split; [done|].
    split; simpl; [right; eauto|by left].
  - by rewrite Hnew.
  - apply list_find_None. eapply Forall_impl; [exact Hv|].
    intros e [Ha _] (Hm & _)%is_mount_of_newFs. congruence.
Qed.

(** X2. The three early returns of [GenerateDiff] are shortcuts: on all
    tables whose entries are allocated, [GenerateDiff] returns what the scan
    of the new table followed by the scan of the old table returns. *)
Theorem X2_GenerateDiff_two_passes h oldTab newTab :
  Forall (λ p, is_Some (fsval h p)) (entries_of oldTab) →
  Forall (λ p, is_Some (fsval h p)) (entries_of newTab) →
  GenerateDiff oldTab newTab h
  = (do diffTable <- for_range (entries_of newTab) NewMountTabDiff
                       (searchMounted (default (mkMountTab []) oldTab));
     for_range (entries_of oldTab) diffTable
       (searchUmounted (default (mkMountTab []) newTab))) h.
Proof.
  intros Hold Hnew. unfold GenerateDiff, Size, NewMountTabDiff.
  fold (entries_of oldTab) (entries_of newTab).
  destruct (entries_of oldTab) as [|o olds] eqn:Eo.
  - destruct (entries_of newTab) as [|n news]; [done|].
    cbn [length]. rewrite bool_decide_eq_false_2 by done.
    rewrite bool_decide_eq_true_2 by done. cbn [andb].
    unfold bind. rewrite searchMounted_no_old by (try done; by rewrite <-Eo).
    by destruct (for_range _ _ _ h) as [[md1 h1]|].
  - destruct (entries_of newTab) as [|n news] eqn:En.
    + cbn [length]. rewrite bool_decide_eq_true_2 by done.
      rewrite bool_decide_eq_false_2 by done. cbn [andb for_range].
      unfold bind at 1. unfold ret at 1.
      symmetry.
      apply (searchUmounted_no_new h _ (o :: olds) [] []);
        [exact En|done|constructor|constructor|constructor].
    + cbn [length]. by rewrite !bool_decide_eq_false_2.
Qed.

Lemma X2_GenerateDiff_two_passes_witness :
  GenerateDiff (Ex.tab [1; 5]%positive) None Ex.h0
  = (do diffTable <- for_range [] []
                       (searchMounted (mkMountTab [Some 1; Some 5]%positive));
     for_range [Some 1; Some 5]%positive diffTable
       (searchUmounted (mkMountTab []))) Ex.h0.
Proof.
  apply (X2_GenerateDiff_two_passes Ex.h0 (Ex.tab [1; 5]%positive) None);
    solve_allocated.
Defined.

(** ** What each diff entry says about the tables *)

Lemma Find_lookup h mt s t r :
  tab_ok h mt → lookup_mount (fs_heap h) (entries mt) s t = r →
  Find mt [SourceFilter s; TargetFilter t] h = Some (r, h).
Proof. intros Hok <-. by apply Find_run. Qed.

Lemma pass1_view_justified fh old new :
  Forall (justified fh old new) (pass1_view fh old new).
Proof.
  apply Forall_forall. intros e (p & Hp & He)%elem_of_pass1_view.
  apply elem_of_mounted_view in He
    as (n & Hn & Hnew & [[Hl ->]|(o & ov & Hl & Ho & Hopt & ->)]);
    unfold justified; simpl.
  - split_and!; eauto.
  - destruct (lookup_mount_Some _ _ _ _ _ Hl) as (pre & post & w & -> & _).
    split_and!; [apply elem_of_app; right; left|done|].
    exists ov, n. done.
Qed.

Lemma diff_view_justified fh old new :
  Forall (λ p, is_Some (fsv fh p)) old →
  Forall (λ p, is_Some (fsv fh p)) new →
  Forall (justified fh old new) (diff_view fh old new).
Proof.
  intros Hold Hnew. unfold diff_view.
  destruct old as [|o0 olds] eqn:Eo; [destruct new as [|n0 news] eqn:En|].
  - constructor.
  - apply Forall_fmap, Forall_forall. intros p Hp. unfold justified. simpl.
    destruct (proj1 (Forall_forall _ _) Hnew p Hp) as [n Hn]. eauto.
  - destruct new as [|n0 news] eqn:En.
    + apply Forall_fmap, Forall_forall. intros p Hp. unfold justified. simpl.
      destruct (proj1 (Forall_forall _ _) Hold p Hp) as [o Ho]. eauto.
    + rewrite <-Eo, <-En in *. apply pass2_view_Forall.
      * apply pass1_view_justified.
      * intros p w Hp Hw Hl. unfold justified. simpl. eauto.
      * intros p w e Hp Hw Hl (Ha & _)%is_mount_of_newFs He.
        unfold justified in *. rewrite Ha in He. simpl.
        destruct He as (_ & Hin & n & Hn & Hln).
        split_and!; [done..|]. exists w, n. done.
Qed.

(** X3. Every entry of a list returned by [GenerateDiff] is backed by the
    tables.  A Mount entry has a nil oldFs and a new-table entry as newFs for
    which [Find] on the old table returns nil.  A Umount entry has a nil
    newFs and an old-table entry as oldFs for which [Find] on the new table
    returns nil.  A Move entry pairs such an old-table entry with such a
    new-table entry.  A Remount entry has a new-table entry as newFs and, as
    oldFs, the old-table entry that [Find] returns for it, and the two differ
    in VFSOptions or in FSOptions. *)
Theorem X3_entries_justified h oldTab newTab md h' :
  Forall (λ p, is_Some (fsval h p)) (entries_of oldTab) →
  Forall (λ p, is_Some (fsval h p)) (entries_of newTab) →
  GenerateDiff oldTab newTab h = Some (md, h') →
  let findOld (n : Filesystem) :=
    Find (default (mkMountTab []) oldTab)
      [SourceFilter (source n); TargetFilter (target n)] h in
  let findNew (o : Filesystem) :=
    Find (default (mkMountTab []) newTab)
      [SourceFilter (source o); TargetFilter (target o)] h in
  ∀ d e, d ∈ md → deval h' d = Some e →
    match action e with
    | MountActionMount =>
        oldFs e = None ∧ newFs e ∈ entries_of newTab ∧
        ∃ n, fsval h (newFs e) = Some n ∧ findOld n = Some (None, h)
    | MountActionUmount =>
        newFs e = None ∧ oldFs e ∈ entries_of oldTab ∧
        ∃ o, fsval h (oldFs e) = Some o ∧ findNew o = Some (None, h)
    | MountActionMove =>
        oldFs e ∈ entries_of oldTab ∧ newFs e ∈ entries_of newTab ∧
        ∃ o n, fsval h (oldFs e) = Some o ∧ fsval h (newFs e) = Some n ∧
          findNew o = Some (None, h) ∧ findOld n = Some (None, h)
    | MountActionRemount =>
        oldFs e ∈ entries_of oldTab ∧ newFs e ∈ entries_of newTab ∧
        ∃ o n, fsval h (oldFs e) = Some o ∧ fsval h (newFs e) = Some n ∧
          findOld n = Some (oldFs e, h) ∧
          (vfsOptions o ≠ vfsOptions n ∨ fsOptions o ≠ fsOptions n)
    end.
Proof.
  intros Hold Hnew Hrun findOld findNew d e Hd He.
  destruct (GenerateDiff_inv _ _ _ _ _ Hold Hnew Hrun) as (Hfs & _ & Hr & _).
  destruct (reads_elem_of _ _ _ _ Hr Hd) as (e' & He' & Hin).
  assert (e' = e) as -> by congruence.
  pose proof (proj1 (Forall_forall _ _)
                (diff_view_justified _ _ _ Hold Hnew) e Hin) as Hj.
  unfold justified in Hj. unfold findOld, findNew.
  destruct (action e).
  - destruct Hj as (? & ? & n & Hn & Hl). split_and!; [done..|].
    exists n. split; [done|]. by apply Find_lookup.
  - destruct Hj as (? & ? & o & Ho & Hl). split_and!; [done..|].
    exists o. split; [done|]. by apply Find_lookup.
  - destruct Hj as (? & ? & o & n & Ho & Hn & Hlo & Hln). split_and!; [done..|].
    exists o, n. split_and!; [done..| |]; by apply Find_lookup.
  - destruct Hj as (? & ? & o & n & Ho & Hn & Hl & Hopt). split_and!; [done..|].
    exists o, n. split_and!; [done..| |done]. by apply Find_lookup.
Qed.

Lemma X3_entries_justified_witness :
  ∃ h',
    GenerateDiff (Ex.tab [5; 1]%positive) (Ex.tab [3; 2]%positive) Ex.h0
    = Some ([Some 1; Some 2; Some 3]%positive, h') ∧
    deval h' (Some 1%positive)
    = Some (mkEntry (Some 1%positive) (Some 3%positive) MountActionRemount) ∧
    Some 1%positive ∈ entries_of (Ex.tab [5; 1]%positive) ∧
    Some 3%positive ∈ entries_of (Ex.tab [3; 2]%positive) ∧
    ∃ o n, fsval Ex.h0 (Some 1%positive) = Some o ∧
      fsval Ex.h0 (Some 3%positive) = Some n ∧
      Find (mkMountTab [Some 5; Some 1]%positive)
        [SourceFilter (source n); TargetFilter (target n)] Ex.h0
      = Some (Some 1%positive, Ex.h0) ∧
      (vfsOptions o ≠ vfsOptions n ∨ fsOptions o ≠ fsOptions n).
Proof.
  eexists. split; [vm_compute; reflexivity|]. split; [reflexivity|].
  apply (X3_entries_justified Ex.h0 (Ex.tab [5; 1]%positive)
           (Ex.tab [3; 2]%positive) _ _ ltac:(solve_allocated)
           ltac:(solve_allocated) eq_refl (Some 1%positive)
           (mkEntry (Some 1%positive) (Some 3%positive) MountActionRemount)).
  - left.
  - reflexivity.
Defined.

(** ** Which table entries are reported *)

Lemma mounted_view_changed fh old p n :
  fsv fh p = Some n →
  mounted_view fh old p ≠ [] ↔
  lookup_mount fh old (source n) (target n) = None ∨
  ∃ ov, fsv fh (lookup_mount fh old (source n) (target n)) = Some ov ∧
    (vfsOptions ov ≠ vfsOptions n ∨ fsOptions ov ≠ fsOptions n).
Proof.
  intros Hn. unfold mounted_view. rewrite Hn.
  destruct (lookup_mount fh old (source n) (target n)) as [o|] eqn:Hl; simpl.
  2:{ split; [by left|done]. }
  destruct (fh !! o) as [ov|] eqn:Ho.
  2:{ split; [done|]. intros [?|(ov & ? & _)]; done. }
  destruct (bool_decide_reflect (vfsOptions ov ≠ vfsOptions n)) as [Hv|Hv]; simpl.
  { split; [|done]. intros _. right. exists ov. auto. }
  destruct (bool_decide_reflect (fsOptions ov ≠ fsOptions n)) as [Hf|Hf].
  { split; [|done]. intros _. right. exists ov. auto. }
  split; [done|]. intros [?|(ov' & [= <-] & [?|?])]; done.
Qed.

Lemma diff_view_newFs_sound fh old new :
  Forall (λ p, is_Some (fsv fh p)) new →
  Forall (λ e, newFs e = None ∨
               (newFs e ∈ new ∧ mounted_view fh old (newFs e) ≠ []))
    (diff_view fh old new).
Proof.
  intros Hnew. unfold diff_view.
  destruct old as [|o0 olds] eqn:Eo; [destruct new as [|n0 news] eqn:En|].
  - constructor.
  - apply Forall_fmap, Forall_forall. intros p Hp. simpl. right. split; [done|].
    destruct (proj1 (Forall_forall _ _) Hnew p Hp) as [n Hn].
    unfold mounted_view. by rewrite Hn.
  - destruct new as [|n0 news] eqn:En.
    + apply Forall_fmap, Forall_forall. intros p Hp. by left.
    + rewrite <-Eo, <-En in *. apply pass2_view_Forall.
      * apply Forall_forall. intros e (p & Hp & He)%elem_of_pass1_view.
        right. pose proof He as He'.
        apply elem_of_mounted_view in He' as (_ & _ & -> & _).
        split; [done|]. intros Hnil. rewrite Hnil in He.
        by apply elem_of_nil in He.
      * intros p w _ _ _. by left.
      * intros p w e _ _ _ (_ & u & Hu & _)%is_mount_of_newFs [Hnil|He].
        { rewrite Hnil in Hu. done. }
        by right.
Qed.

Lemma diff_view_newFs_complete fh old new p :
  Forall (λ q, is_Some (fsv fh q)) new →
  p ∈ new → mounted_view fh old p ≠ [] →
  ∃ e, e ∈ diff_view fh old new ∧ newFs e = p.
Proof.
  intros Hnew Hp Hm. unfold diff_view.
  destruct new as [|n0 news] eqn:En; [by apply elem_of_nil in Hp|].
  destruct old as [|o0 olds] eqn:Eo.
  { exists (mkEntry None p MountActionMount). split; [|done].
    apply list_elem_of_fmap. eauto. }
  rewrite <-Eo, <-En in *.
  destruct (mounted_view fh old p) as [|e0 l] eqn:Hmv; [done|].
  assert (e0 ∈ mounted_view fh old p) as He0 by (rewrite Hmv; left).
  assert (e0 ∈ pass1_view fh old new) as Hin.
  { apply list_elem_of_bind. eauto. }
  apply elem_of_mounted_view in He0 as (_ & _ & Hnw & _).
  destruct (pass2_view_shape fh new old (pass1_view fh old new) []
              ltac:(constructor)) as (v' & u' & Hv & Hpatched & _).
  rewrite app_nil_r in Hv. simpl in Hv.
  apply list_elem_of_lookup in Hin as (i & Hi).
  destruct (Forall2_lookup_l _ _ _ _ _ Hpatched Hi) as (e1 & He1 & Hpe).
  exists e1. split.
  - rewrite Hv. apply elem_of_app. left. by eapply list_elem_of_lookup_2.
  - destruct Hpe as [->|(_ & _ & ->)]; done.
Qed.

(** X4. A new-table entry is the newFs of some entry of the list returned by
    [GenerateDiff] exactly when [Find] on the old table, for its Source and
    Target, returns nil or an entry that differs from it in VFSOptions or in
    FSOptions: new mounts and changed mounts are reported, unchanged mounts
    are not. *)
Theorem X4_newFs_reported h oldTab newTab md h' p n :
  Forall (λ q, is_Some (fsval h q)) (entries_of oldTab) →
  Forall (λ q, is_Some (fsval h q)) (entries_of newTab) →
  GenerateDiff oldTab newTab h = Some (md, h') →
  fsval h p = Some n →
  (∃ d e, d ∈ md ∧ deval h' d = Some e ∧ newFs e = p) ↔
  p ∈ entries_of newTab ∧
  ∃ r, Find (default (mkMountTab []) oldTab)
         [SourceFilter (source n); TargetFilter (target n)] h = Some (r, h) ∧
    (r = None ∨
     ∃ ov, fsval h r = Some ov ∧
       (vfsOptions ov ≠ vfsOptions n ∨ fsOptions ov ≠ fsOptions n)).
Proof.
  intros Hold Hnew Hrun Hn.
  destruct (GenerateDiff_inv _ _ _ _ _ Hold Hnew Hrun) as (Hfs & _ & Hr & _).
  rewrite (Find_run _ _ _ _ Hold). fold (entries_of oldTab).
  pose proof (mounted_view_changed (fs_heap h) (entries_of oldTab) p n Hn) as Hch.
  split.
  - intros (d & e & Hd & He & Hp).
    destruct (reads_elem_of _ _ _ _ Hr Hd) as (e' & He' & Hin).
    assert (e' = e) as -> by congruence.
    pose proof (proj1 (Forall_forall _ _)
                  (diff_view_newFs_sound _ (entries_of oldTab) _ Hnew) e Hin)
      as [Hnil|[Hin' Hm]].
    { rewrite Hp in Hnil. by rewrite Hnil in Hn. }
    rewrite Hp in Hin', Hm. split; [done|]. eexists. split; [done|].
    by apply Hch.
  - intros (Hp & r & [= <-] & Hcase).
    destruct (diff_view_newFs_complete (fs_heap h) (entries_of oldTab) _ p
                Hnew Hp) as (e & He & Hnw); [by apply Hch|].
    destruct (reads_elem_of_r _ _ _ _ Hr He) as (d & Hd & Hde). eauto.
Qed.

Lemma umounted_view_keeps fh new v q e :
  e ∈ v → action e ≠ MountActionMount → e ∈ umounted_view fh new v q.
Proof.
  intros He Ha.
  destruct (umounted_view_cases fh new v q)
    as [->|(o & Ho & Hl & [[Hf ->]|(idx & e' & Hf & ->)])]; [done| |].
  - apply elem_of_app. by left.
  - apply list_find_Some in Hf as (Hidx & (Ha' & _)%is_mount_of_newFs & _).
    apply list_elem_of_lookup in He as (j & Hj).
    apply list_elem_of_lookup. exists j.
    rewrite list_lookup_insert_ne; [done|]. intros ->. congruence.
Qed.

Lemma pass2_view_keeps fh new es v e :
  e ∈ v → action e ≠ MountActionMount → e ∈ pass2_view fh new v es.
Proof.
  revert v. induction es as [|q es IH]; intros v He Ha; [done|].
  simpl. apply IH; [|done]. by apply umounted_view_keeps.
Qed.

Lemma umounted_view_vanished fh new v p o :
  fsv fh p = Some o → lookup_mount fh new (source o) (target o) = None →
  ∃ e, e ∈ umounted_view fh new v p ∧ oldFs e = p ∧
    (action e = MountActionUmount ∨ action e = MountActionMove).
Proof.
  intros Ho Hl. unfold umounted_view. rewrite Ho, Hl.
  destruct (list_find _ v) as [[idx e]|] eqn:Hf.
  - exists (mkEntry p (newFs e) MountActionMove). split; [|by auto].
    apply list_find_Some in Hf as (Hidx & _).
    apply list_elem_of_lookup. exists idx.
    apply list_lookup_insert_eq. by eapply lookup_lt_Some.
  - exists (mkEntry p None MountActionUmount). split; [|by auto].
    apply elem_of_app. right. left.
Qed.

Lemma diff_view_oldFs_complete fh old new p o :
  p ∈ old → fsv fh p = Some o →
  lookup_mount fh new (source o) (target o) = None →
  ∃ e, e ∈ diff_view fh old new ∧ oldFs e = p ∧
    (action e = MountActionUmount ∨ action e = MountActionMove).
Proof.
  intros Hp Ho Hl. unfold diff_view.
  destruct old as [|o0 olds] eqn:Eo; [by apply elem_of_nil in Hp|].
  destruct new as [|n0 news] eqn:En.
  { exists (mkEntry p None MountActionUmount). split; [|by auto].
    apply list_elem_of_fmap. eauto. }
  rewrite <-Eo, <-En in *.
  destruct (list_elem_of_split _ _ Hp) as (pre & post & Hsplit).
  assert (pass2_view fh new (pass1_view fh old new) old
          = pass2_view fh new
              (umounted_view fh new
                 (pass2_view fh new (pass1_view fh old new) pre) p) post) as ->.
  { rewrite Hsplit at 2. unfold pass2_view. by rewrite foldl_app. }
  destruct (umounted_view_vanished fh new
              (pass2_view fh new (pass1_view fh old new) pre) p o Ho Hl)
    as (e & He & Hold & Ha).
  exists e. split; [|done]. apply pass2_view_keeps; [done|].
  destruct Ha as [-> | ->]; done.
Qed.

(** X5. An old-table entry is the oldFs of a Umount or a Move entry of the
    list returned by [GenerateDiff] exactly when [Find] on the new table, for
    its Source and Target, returns nil: every mount that vanished from its
    place is reported, and no other. *)
Theorem X5_oldFs_reported h oldTab newTab md h' p o :
  Forall (λ q, is_Some (fsval h q)) (entries_of oldTab) →
  Forall (λ q, is_Some (fsval h q)) (entries_of newTab) →
  GenerateDiff oldTab newTab h = Some (md, h') →
  fsval h p = Some o →
  (∃ d e, d ∈ md ∧ deval h' d = Some e ∧ oldFs e = p ∧
     (action e = MountActionUmount ∨ action e = MountActionMove)) ↔
  p ∈ entries_of oldTab ∧
  Find (default (mkMountTab []) newTab)
    [SourceFilter (source o); TargetFilter (target o)] h = Some (None, h).
Proof.
  intros Hold Hnew Hrun Ho.
  destruct (GenerateDiff_inv _ _ _ _ _ Hold Hnew Hrun) as (Hfs & _ & Hr & _).
  split.
  - intros (d & e & Hd & He & Hp & Ha).
    destruct (reads_elem_of _ _ _ _ Hr Hd) as (e' & He' & Hin).
    assert (e' = e) as -> by congruence.
    pose proof (proj1 (Forall_forall _ _)
                  (diff_view_justified _ _ _ Hold Hnew) e Hin) as Hj.
    unfold justified in Hj.
    destruct Ha as [Ha|Ha]; rewrite Ha in Hj.
    + destruct Hj as (_ & Hin' & o' & Ho' & Hl). rewrite Hp in Hin', Ho'.
      assert (o' = o) as -> by congruence.
      split; [done|]. by apply Find_lookup.
    + destruct Hj as (Hin' & _ & o' & n & Ho' & _ & Hl & _).
      rewrite Hp in Hin', Ho'. assert (o' = o) as -> by congruence.
      split; [done|]. by apply Find_lookup.
  - intros (Hp & Hfind). rewrite (Find_run _ _ _ _ Hnew) in Hfind.
    injection Hfind as Hl.
    destruct (diff_view_oldFs_complete (fs_heap h) _ (entries_of newTab) p o
                Hp Ho Hl) as (e & He & Hpe & Ha).
    destruct (reads_elem_of_r _ _ _ _ Hr He) as (d & Hd & Hde). eauto 10.
Qed.

Lemma X4_newFs_reported_witness :
  ∃ md h',
    GenerateDiff (Ex.tab [5; 1]%positive) (Ex.tab [3; 2; 5]%positive) Ex.h0
    = Some (md, h') ∧
    (∃ d e, d ∈ md ∧ deval h' d = Some e ∧ newFs e = Some 2%positive) ∧
    ¬ (∃ d e, d ∈ md ∧ deval h' d = Some e ∧ newFs e = Some 5%positive).
Proof.
  eexists _, _. split; [vm_compute; reflexivity|].
  pose proof (λ p n, X4_newFs_reported Ex.h0 (Ex.tab [5; 1]%positive)
                (Ex.tab [3; 2; 5]%positive) _ _ p n ltac:(solve_allocated)
                ltac:(solve_allocated) eq_refl) as H.
  split.
  - apply (H (Some 2%positive) Ex.sdb1_b eq_refl). split.
    + vm_compute. right. left.
    + eexists. split; [vm_compute; reflexivity|]. by left.
  - intros Hex. apply (H (Some 5%positive) Ex.sdd1_d eq_refl) in Hex
      as (_ & r & Hf & Hc).
    vm_compute in Hf. injection Hf as <-.
    destruct Hc as [?|(ov & Hov & Hopt)]; [done|].
    vm_compute in Hov. injection Hov as <-. by destruct Hopt.
Defined.

Lemma X5_oldFs_reported_witness :
  ∃ md h',
    GenerateDiff (Ex.tab [5; 1]%positive) (Ex.tab [2; 5]%positive) Ex.h0
    = Some (md, h') ∧
    (∃ d e, d ∈ md ∧ deval h' d = Some e ∧ oldFs e = Some 1%positive ∧
       (action e = MountActionUmount ∨ action e = MountActionMove)) ∧
    ¬ (∃ d e, d ∈ md ∧ deval h' d = Some e ∧ oldFs e = Some 5%positive ∧
         (action e = MountActionUmount ∨ action e = MountActionMove)).
Proof.
  eexists _, _. split; [vm_compute; reflexivity|].
  pose proof (λ p o, X5_oldFs_reported Ex.h0 (Ex.tab [5; 1]%positive)
                (Ex.tab [2; 5]%positive) _ _ p o ltac:(solve_allocated)
                ltac:(solve_allocated) eq_refl) as H.
  split.
  - apply (H (Some 1%positive) Ex.sdb1_a eq_refl). split.
    + vm_compute. right. left.
    + vm_compute. reflexivity.
  - intros Hex. apply (H (Some 5%positive) Ex.sdd1_d eq_refl) in Hex as (_ & Hf).
    vm_compute in Hf. done.
Defined.

(** ** ListSources on any readable diff list *)

Lemma ListSources_run h md v :
  reads h md v → Forall (λ e, is_Some (fsval h (src_ptr e))) v →
  ∃ l, ListSources md h = Some (l, h) ∧
    StronglySorted string_lt l ∧
    ∀ s, s ∈ l ↔ ∃ e w, e ∈ v ∧ fsval h (src_ptr e) = Some w ∧ source w = s.
Proof.
  intros Hr Hv.
  destruct (collectSources_run h md v ∅ Hr Hv) as (S & Hloop & HS).
  unfold ListSources. run_with Hloop.
  destruct (sort_Strings_spec S) as [Hsorted Hmem].
  eexists. split; [reflexivity|]. split; [done|].
  intros s. rewrite Hmem, HS. split; [|by right].
  intros [Hin|?]; [by apply not_elem_of_empty in Hin|done].
Qed.

Lemma diff_view_sources fh old new s :
  Forall (λ p, is_Some (fsv fh p)) old →
  Forall (λ p, is_Some (fsv fh p)) new →
  (∃ e w, e ∈ diff_view fh old new ∧ fsv fh (src_ptr e) = Some w ∧ source w = s) ↔
  (∃ p n, p ∈ new ∧ fsv fh p = Some n ∧ source n = s ∧
     (lookup_mount fh old (source n) (target n) = None ∨
      ∃ ov, fsv fh (lookup_mount fh old (source n) (target n)) = Some ov ∧
        (vfsOptions ov ≠ vfsOptions n ∨ fsOptions ov ≠ fsOptions n))) ∨
  (∃ p o, p ∈ old ∧ fsv fh p = Some o ∧ source o = s ∧
     lookup_mount fh new (source o) (target o) = None).
Proof.
  intros Hold Hnew.
  pose proof (diff_view_justified fh old new Hold Hnew) as Hj.
  pose proof (diff_view_moves fh old new Hnew) as Hmv.
  rewrite Forall_forall in Hj, Hmv. split.
  - intros (e & w & He & Hw & Hs). specialize (Hj e He).
    unfold justified in Hj. unfold src_ptr in Hw.
    destruct (action e).
    + destruct Hj as (_ & Hin & n & Hn & Hl). left. exists (newFs e), n.
      split_and!; [done..|congruence|by left].
    + destruct Hj as (_ & Hin & o & Ho & Hl). right. exists (oldFs e), o.
      split_and!; [done..|congruence|done].
    + destruct Hj as (_ & Hin & o & n & _ & Hn & _ & Hl). left.
      exists (newFs e), n. split_and!; [done..|congruence|by left].
    + destruct Hj as (_ & Hin & o & n & Ho & Hn & Hl & Hopt). left.
      exists (newFs e), n. split_and!; [done..|congruence|].
      right. exists o. rewrite Hl. done.
  - intros [(p & n & Hp & Hn & Hs & Hch)|(p & o & Hp & Ho & Hs & Hl)].
    + destruct (diff_view_newFs_complete fh old new p Hnew Hp)
        as (e & He & Hnw); [by apply (mounted_view_changed fh old p n)|].
      exists e, n. split; [done|]. split; [|done].
      specialize (Hj e He). unfold justified in Hj. unfold src_ptr.
      destruct (action e); try (by rewrite Hnw).
      destruct Hj as (Hnil & _). rewrite Hnw in Hnil. by rewrite Hnil in Hn.
    + destruct (diff_view_oldFs_complete fh old new p o Hp Ho Hl)
        as (e & He & Hpe & Ha).
      destruct Ha as [Ha|Ha].
      * exists e, o. unfold src_ptr. rewrite Ha, Hpe. done.
      * destruct (Hmv e He) as [_ Hm].
        destruct (Hm Ha) as (ov & nv & Hov & Hnv & _ & _ & _ & Hsrc & _).
        exists e, nv. unfold src_ptr. rewrite Ha. split; [done|].
        split; [done|]. rewrite Hpe, Ho in Hov. injection Hov as <-.
        congruence.
Qed.

(** X6. [ListSources] of the list returned by [GenerateDiff] succeeds,
    leaves the heap as it was and returns a strictly ascending list that
    holds exactly the Sources of the new-table entries for which [Find] on
    the old table returns nil or an entry with other VFSOptions or FSOptions,
    and of the old-table entries for which [Find] on the new table returns
    nil. *)
Theorem X6_changed_sources h oldTab newTab md h' :
  Forall (λ p, is_Some (fsval h p)) (entries_of oldTab) →
  Forall (λ p, is_Some (fsval h p)) (entries_of newTab) →
  GenerateDiff oldTab newTab h = Some (md, h') →
  ∃ l, ListSources md h' = Some (l, h') ∧
    StronglySorted string_lt l ∧
    ∀ s, s ∈ l ↔
      (∃ p n r, p ∈ entries_of newTab ∧ fsval h p = Some n ∧ source n = s ∧
         Find (default (mkMountTab []) oldTab)
           [SourceFilter (source n); TargetFilter (target n)] h = Some (r, h) ∧
         (r = None ∨
          ∃ ov, fsval h r = Some ov ∧
            (vfsOptions ov ≠ vfsOptions n ∨ fsOptions ov ≠ fsOptions n))) ∨
      (∃ p o, p ∈ entries_of oldTab ∧ fsval h p = Some o ∧ source o = s ∧
         Find (default (mkMountTab []) newTab)
           [SourceFilter (source o); TargetFilter (target o)] h = Some (None, h)).
Proof.
  intros Hold Hnew Hrun.
  destruct (GenerateDiff_inv _ _ _ _ _ Hold Hnew Hrun) as (Hfs & _ & Hr & _).
  pose proof (diff_view_presence _ _ _ Hold Hnew) as Hpres.
  destruct (ListSources_run h' md _ Hr) as (l & Hl & Hsorted & Hmem).
  { rewrite Hfs. eapply Forall_impl; [exact Hpres|].
    intros e. apply presence_src_ptr. }
  exists l. split; [done|]. split; [exact Hsorted|].
  intros s. rewrite Hmem, Hfs.
  rewrite (diff_view_sources _ _ _ s Hold Hnew). split.
  - intros [(p & n & Hp & Hn & Hs & Hch)|(p & o & Hp & Ho & Hs & Hlk)].
    + left. exists p, n. eexists. split_and!; [done..|by apply Find_lookup|done].
    + right. exists p, o. split_and!; [done..|]. by apply Find_lookup.
  - intros [(p & n & r & Hp & Hn & Hs & Hf & Hch)|(p & o & Hp & Ho & Hs & Hf)].
    + left. exists p, n. rewrite (Find_run _ _ _ _ Hold) in Hf.
      injection Hf as <-. done.
    + right. exists p, o. rewrite (Find_run _ _ _ _ Hnew) in Hf.
      injection Hf as Hf. done.
Qed.

Lemma X6_changed_sources_witness :
  ∃ md h' l,
    GenerateDiff (Ex.tab [5; 1]%positive) (Ex.tab [2; 5]%positive) Ex.h0
    = Some (md, h') ∧
    ListSources md h' = Some (l, h') ∧
    l = ["/dev/sdb1"]%string ∧
    StronglySorted string_lt l ∧
    ("/dev/sdb1"%string ∈ l ↔
     (∃ p n r, p ∈ entries_of (Ex.tab [2; 5]%positive) ∧
        fsval Ex.h0 p = Some n ∧ source n = "/dev/sdb1"%string ∧
        Find (mkMountTab [Some 5; Some 1]%positive)
          [SourceFilter (source n); TargetFilter (target n)] Ex.h0
        = Some (r, Ex.h0) ∧
        (r = None ∨
         ∃ ov, fsval Ex.h0 r = Some ov ∧
           (vfsOptions ov ≠ vfsOptions n ∨ fsOptions ov ≠ fsOptions n))) ∨
     (∃ p o, p ∈ entries_of (Ex.tab [5; 1]%positive) ∧
        fsval Ex.h0 p = Some o ∧ source o = "/dev/sdb1"%string ∧
        Find (mkMountTab [Some 2; Some 5]%positive)
          [SourceFilter (source o); TargetFilter (target o)] Ex.h0
        = Some (None, Ex.h0))).
Proof.
  eexists _, _.
  destruct (X6_changed_sources Ex.h0 (Ex.tab [5; 1]%positive)
              (Ex.tab [2; 5]%positive) _ _ ltac:(solve_allocated)
              ltac:(solve_allocated) ltac:(vm_compute; reflexivity))
    as (l & Hl & Hsorted & Hmem).
  exists l. split; [reflexivity|]. split; [exact Hl|].
  split; [|split; [exact Hsorted|apply Hmem]].
  vm_compute in Hl. by injection Hl as <-.
Defined.

(** ** Reading a returned diff entry *)

(** X7. On every entry of a list returned by [GenerateDiff] the three
    accessors succeed; [GetOldFs] returns nil exactly on Mount entries and
    [GetNewFs] returns nil exactly on Umount entries. *)
Theorem X7_accessors_on_results h oldTab newTab md h' :
  Forall (λ p, is_Some (fsval h p)) (entries_of oldTab) →
  Forall (λ p, is_Some (fsval h p)) (entries_of newTab) →
  GenerateDiff oldTab newTab h = Some (md, h') →
  ∀ d, d ∈ md →
    ∃ a ro h1 rn h2,
      GetAction d h' = Some (a, h') ∧
      GetOldFs d h' = Some (ro, h1) ∧
      GetNewFs d h' = Some (rn, h2) ∧
      (ro = None ↔ a = MountActionMount) ∧
      (rn = None ↔ a = MountActionUmount).
Proof.
  intros Hold Hnew Hrun d Hd.
  destruct (GenerateDiff_inv _ _ _ _ _ Hold Hnew Hrun) as (Hfs & _ & Hr & _).
  destruct (reads_elem_of _ _ _ _ Hr Hd) as (e & He & Hin).
  pose proof (proj1 (Forall_forall _ _)
                (diff_view_presence _ _ _ Hold Hnew) e Hin) as Hp.
  rewrite <-Hfs in Hp. unfold presence in Hp.
  assert (ptr_ok (fs_heap h') (oldFs e) ∧ ptr_ok (fs_heap h') (newFs e)) as [Ho Hn].
  { unfold ptr_ok. destruct (action e), Hp; auto. }
  pose proof (getter_run Old h' d e He Ho) as HgO.
  pose proof (getter_run New h' d e He Hn) as HgN.
  simpl in HgO, HgN.
  assert (GetAction d h' = Some (action e, h')) as Ha.
  { unfold GetAction. by run_with (load_de_run _ _ _ He). }
  exists (action e).
  destruct (action e), Hp as [H1 H2];
    repeat match goal with
           | H : is_Some _ |- _ => destruct H as [? H]
           end;
    try rewrite H1 in HgO; try rewrite H2 in HgN;
    try rewrite H1 in HgN; try rewrite H2 in HgO; simpl in HgO, HgN;
    eexists _, _, _, _;
    (split; [exact Ha|]); (split; [exact HgO|]); (split; [exact HgN|]);
    split; split; done.
Qed.

Lemma X7_accessors_on_results_witness :
  ∃ md h',
    GenerateDiff (Ex.tab [5; 1]%positive) (Ex.tab [2]%positive) Ex.h0
    = Some (md, h') ∧
    ∀ d, d ∈ md →
      ∃ a ro h1 rn h2,
        GetAction d h' = Some (a, h') ∧
        GetOldFs d h' = Some (ro, h1) ∧
        GetNewFs d h' = Some (rn, h2) ∧
        (ro = None ↔ a = MountActionMount) ∧
        (rn = None ↔ a = MountActionUmount).
Proof.
  eexists _, _. split; [vm_compute; reflexivity|].
  apply (X7_accessors_on_results Ex.h0 (Ex.tab [5; 1]%positive)
           (Ex.tab [2]%positive)); [solve_allocated..|].
  vm_compute. reflexivity.
Defined.

(** ** ListSources does not depend on the order of the diff list *)

Lemma string_lt_irrefl s : ¬ string_lt s s.
Proof. rewrite string_lt_compare, string_compare_refl. done. Qed.

Lemma string_lt_asym s1 s2 : string_lt s1 s2 → string_lt s2 s1 → False.
Proof.
  rewrite !string_lt_compare. intros H1 H2.
  apply (string_lt_irrefl s1), string_lt_compare.
  by apply (string_compare_lt_trans s1 s2 s1).
Qed.

Lemma sorted_lt_NoDup l : StronglySorted string_lt l → NoDup l.
Proof.
  induction 1 as [|x l Hl IH Hx]; constructor; [|done].
  intros Hin. apply (string_lt_irrefl x).
  by apply (proj1 (Forall_forall _ _) Hx).
Qed.

Lemma sorted_lt_unique l1 l2 :
  StronglySorted string_lt l1 → StronglySorted string_lt l2 →
  (∀ s, s ∈ l1 ↔ s ∈ l2) → l1 = l2.
Proof.
  intros H1 H2 Hmem.
  apply (StronglySorted_unique_strong string_lt); [|done..|].
  - intros x1 x2 _ _ Ha Hb. destruct (string_lt_asym _ _ Ha Hb).
  - apply NoDup_Permutation; auto using sorted_lt_NoDup.
Qed.

Lemma reads_subset h md v md' (P : MountTabDiffEntry → Prop) :
  reads h md v → Forall P v → (∀ d, d ∈ md' → d ∈ md) →
  ∃ v', reads h md' v' ∧ Forall P v' ∧ ∀ e, e ∈ v' → e ∈ v.
Proof.
  intros Hr HP. induction md' as [|d md' IH]; intros Hsub.
  - exists []. split_and!; [constructor|constructor|].
    intros e He. by apply elem_of_nil in He.
  - destruct IH as (v' & Hr' & HP' & Hin'); [intros x Hx; apply Hsub; by right|].
    destruct (reads_elem_of _ _ _ _ Hr (Hsub d ltac:(left))) as (e & He & Hin).
    exists (e :: v'). split_and!.
    + by constructor.
    + constructor; [|done]. by apply (proj1 (Forall_forall _ _) HP).
    + intros x [->|?]%elem_of_cons; auto.
Qed.

(** X8. [ListSources] depends only on which entries a diff list holds, not
    on their order or on repetitions: two lists with the same pointers give
    the same result, whenever the reported side of every entry is present. *)
Theorem X8_ListSources_order_independent h md md' v :
  reads h md v → Forall (λ e, is_Some (fsval h (src_ptr e))) v →
  (∀ d, d ∈ md' ↔ d ∈ md) →
  ListSources md' h = ListSources md h.
Proof.
  intros Hr Hv Hsame.
  destruct (reads_subset h md v md' _ Hr Hv (λ d, proj1 (Hsame d)))
    as (v' & Hr' & Hv' & Hin').
  destruct (ListSources_run h md v Hr Hv) as (l & -> & Hs & Hm).
  destruct (ListSources_run h md' v' Hr' Hv') as (l' & -> & Hs' & Hm').
  repeat f_equal. apply sorted_lt_unique; [done..|].
  intros s. rewrite Hm, Hm'. split.
  - intros (e & w & He & Hw). exists e, w. split; [by apply Hin'|done].
  - intros (e & w & He & Hw).
    destruct (reads_elem_of_r _ _ _ _ Hr He) as (d & Hd & Hde).
    apply Hsame in Hd.
    destruct (reads_elem_of _ _ _ _ Hr' Hd) as (e' & He' & Hin).
    assert (e' = e) as -> by congruence. eauto.
Qed.

Lemma X8_ListSources_order_independent_witness :
  let h := mkHeap Ex.fh0
             (<[2%positive := mkEntry (Some 1%positive) None MountActionUmount]>
                (<[1%positive := mkEntry None (Some 5%positive) MountActionMount]> ∅)) in
  ListSources [Some 2; Some 1; Some 2]%positive h
  = ListSources [Some 1; Some 2]%positive h.
Proof.
  intros h.
  apply (X8_ListSources_order_independent h _ _
           [mkEntry None (Some 5%positive) MountActionMount;
            mkEntry (Some 1%positive) None MountActionUmount]).
  - by repeat constructor.
  - constructor; [by eexists|]. constructor; [by eexists|constructor].
  - intros d. rewrite !elem_of_cons, !elem_of_nil. tauto.
Defined.

(** ** getMountEntry *)

(** X9. On a readable diff list without dangling pointers [getMountEntry]
    leaves the heap as it is and returns the pointer to the first Mount
    entry whose newFs is not nil and has the given ID and Source, or nil
    when the list holds no such entry. *)
Theorem X9_getMountEntry_first_match h md v s i :
  reads h md v → Forall (entry_ok (fs_heap h)) v →
  let candidate e :=
    action e = MountActionMount ∧
    ∃ w, fsval h (newFs e) = Some w ∧ id w = i ∧ source w = s in
  ∃ r, getMountEntry md s i h = Some (r, h) ∧
    ((r = None ∧ ∀ e, e ∈ v → ¬ candidate e) ∨
     (∃ k l e, r = Some l ∧ md !! k = Some (Some l) ∧ v !! k = Some e ∧
        candidate e ∧
        ∀ j e', (j < k)%nat → v !! j = Some e' → ¬ candidate e')).
Proof.
  intros Hr Hok candidate.
  assert (∀ e, candidate e ↔ is_mount_of (fs_heap h) s i e = true) as Hcand
    by (intros e; symmetry; apply is_mount_of_true).
  rewrite (getMountEntry_run _ _ _ s i Hr Hok).
  destruct (list_find _ v) as [[k e]|] eqn:Hf.
  - apply list_find_Some in Hf as (Hk & Hm & Hfirst).
    destruct (Forall2_lookup_r _ _ _ _ _ Hr Hk) as (d & Hd & Hde).
    destruct d as [l|]; [|done].
    eexists. split; [done|]. right. exists k, l, e. rewrite Hd.
    split_and!; [done..|by apply Hcand|].
    intros j e' Hlt Hj. rewrite Hcand. by eapply Hfirst.
  - eexists. split; [done|]. left. split; [done|].
    apply list_find_None in Hf. intros e He. rewrite Hcand.
    by apply (proj1 (Forall_forall _ _) Hf).
Qed.

Lemma X9_getMountEntry_first_match_witness :
  let h := mkHeap Ex.fh0
             (<[3%positive := mkEntry None (Some 2%positive) MountActionMount]>
                (<[2%positive := mkEntry None (Some 2%positive) MountActionMount]>
                   (<[1%positive := mkEntry None (Some 5%positive)
                                      MountActionMount]> ∅))) in
  getMountEntry [Some 1; Some 2; Some 3]%positive "/dev/sdb1" 5 h
  = Some (Some 2%positive, h).
Proof.
  intros h.
  destruct (X9_getMountEntry_first_match h [Some 1; Some 2; Some 3]%positive
              [mkEntry None (Some 5%positive) MountActionMount;
               mkEntry None (Some 2%positive) MountActionMount;
               mkEntry None (Some 2%positive) MountActionMount]
              "/dev/sdb1" 5) as (r & Hrun & _).
  - by repeat constructor.
  - repeat (constructor; [split; [by left|right; by eexists]|]). constructor.
  - rewrite Hrun. vm_compute in Hrun. by injection Hrun as <-.
Defined.

(** ** Swapping the two tables *)

Lemma mirror_involutive e : mirror (mirror e) = e.
Proof. by destruct e as [o n []]. Qed.

Lemma unique_mounts_lookup fh es p v :
  Forall (λ q, is_Some (fsv fh q)) es → unique_mounts fh es →
  p ∈ es → fsv fh p = Some v →
  lookup_mount fh es (source v) (target v) = p.
Proof.
  intros Hes Hu Hp Hv.
  destruct (lookup_mount fh es (source v) (target v)) as [o|] eqn:Hl.
  - apply lookup_mount_Some in Hl as (pre & post & w & -> & Hw & Hs & Ht & _).
    apply list_elem_of_lookup in Hp as (i & Hi).
    assert ((pre ++ Some o :: post) !! length pre = Some (Some o)) as Ho.
    { by rewrite lookup_app_r, Nat.sub_diag by lia. }
    pose proof (Hu _ _ _ _ _ _ Hi Ho Hv Hw (eq_sym Hs) (eq_sym Ht)) as ->.
    congruence.
  - exfalso.
    by apply (proj1 (lookup_mount_None _ _ _ _ Hes) Hl p v).
Qed.

Section mirror.
Context (fh : gmap loc Filesystem) (old new : list ptr).
Context (Hold : Forall (λ q, is_Some (fsv fh q)) old).
Context (Hnew : Forall (λ q, is_Some (fsv fh q)) new).
Context (Uold : unique_ids fh old) (Unew : unique_ids fh new).

(** An old and a new entry that would form a Move are referred to by the
    Move entry only. *)
Lemma mirror_relocated o n ov nv e :
  o ∈ old → n ∈ new → fsv fh o = Some ov → fsv fh n = Some nv →
  id nv = id ov → source nv = source ov →
  lookup_mount fh new (source ov) (target ov) = None →
  lookup_mount fh old (source nv) (target nv) = None →
  e ∈ diff_view fh old new → refers_to o n e →
  e = mkEntry o n MountActionMove.
Proof using All.
  intros Ho Hn Hov Hnv Hid Hsrc Hgone Hfree He Hr.
  pose proof (relocated_diff_view fh old new o n ov nv Hold Hnew Uold Unew
                Ho Hn Hov Hnv Hid Hsrc
                (proj1 (lookup_mount_None _ _ _ _ Hnew) Hgone)
                (proj1 (lookup_mount_None _ _ _ _ Hold) Hfree)) as Hf.
  assert (e ∈ filter (refers_to o n) (diff_view fh old new)) as Hin.
  { by apply list_elem_of_filter. }
  rewrite Hf in Hin. by apply list_elem_of_singleton in Hin.
Qed.

Lemma mirror_moved o n ov nv :
  o ∈ old → n ∈ new → fsv fh o = Some ov → fsv fh n = Some nv →
  id nv = id ov → source nv = source ov →
  lookup_mount fh new (source ov) (target ov) = None →
  lookup_mount fh old (source nv) (target nv) = None →
  mkEntry o n MountActionMove ∈ diff_view fh old new.
Proof using All.
  intros Ho Hn Hov Hnv Hid Hsrc Hgone Hfree.
  pose proof (relocated_diff_view fh old new o n ov nv Hold Hnew Uold Unew
                Ho Hn Hov Hnv Hid Hsrc
                (proj1 (lookup_mount_None _ _ _ _ Hnew) Hgone)
                (proj1 (lookup_mount_None _ _ _ _ Hold) Hfree)) as Hf.
  assert (mkEntry o n MountActionMove
          ∈ filter (refers_to o n) (diff_view fh old new)) as Hin.
  { rewrite Hf. left. }
  by apply list_elem_of_filter in Hin as [_ ?].
Qed.
End mirror.

(** The Move entries of a diff, with what both tables say about them. *)
Lemma diff_view_move_inv fh old new e :
  Forall (λ q, is_Some (fsv fh q)) old →
  Forall (λ q, is_Some (fsv fh q)) new →
  e ∈ diff_view fh old new → action e = MountActionMove →
  ∃ ov nv, oldFs e ∈ old ∧ newFs e ∈ new ∧
    fsv fh (oldFs e) = Some ov ∧ fsv fh (newFs e) = Some nv ∧
    id ov = id nv ∧ source ov = source nv ∧
    lookup_mount fh new (source ov) (target ov) = None ∧
    lookup_mount fh old (source nv) (target nv) = None.
Proof.
  intros Hold Hnew He Ha.
  pose proof (proj1 (Forall_forall _ _) (diff_view_moves fh old new Hnew) e He)
    as [_ Hmv].
  destruct (Hmv Ha) as (ov & nv & Hov & Hnv & Ho & Hn & Hid & Hsrc & _).
  pose proof (proj1 (Forall_forall _ _) (diff_view_justified fh old new Hold Hnew)
                e He) as Hj.
  unfold justified in Hj. rewrite Ha in Hj.
  destruct Hj as (_ & _ & ov' & nv' & Hov' & Hnv' & Hgone & Hfree).
  assert (ov' = ov) as -> by congruence.
  assert (nv' = nv) as -> by congruence.
  exists ov, nv. done.
Qed.

Lemma diff_view_mirror fh old new e :
  Forall (λ q, is_Some (fsv fh q)) old →
  Forall (λ q, is_Some (fsv fh q)) new →
  unique_ids fh old → unique_ids fh new → unique_mounts fh new →
  e ∈ diff_view fh old new → mirror e ∈ diff_view fh new old.
Proof.
  intros Hold Hnew Uold Unew Mnew He.
  pose proof (proj1 (Forall_forall _ _) (diff_view_justified fh old new Hold Hnew)
                e He) as Hj.
  destruct e as [o n a]. unfold justified, mirror in *. simpl in *.
  destruct a; simpl.
  - (* Mount *)
    destruct Hj as (-> & Hn & nv & Hnv & Hfree).
    destruct (diff_view_oldFs_complete fh new old n nv Hn Hnv Hfree)
      as ([o' n' a'] & He' & Ho' & Ha'). simpl in *. subst o'.
    destruct Ha' as [-> | ->].
    + pose proof (proj1 (Forall_forall _ _)
                    (diff_view_justified fh new old Hnew Hold) _ He') as Hj'.
      unfold justified in Hj'. simpl in Hj'. destruct Hj' as (-> & _). done.
    + exfalso.
      destruct (diff_view_move_inv fh new old _ Hnew Hold He' eq_refl)
        as (nv' & ov & _ & Ho & Hnv' & Hov & Hid & Hsrc & Hfree' & Hgone).
      simpl in *. assert (nv' = nv) as -> by congruence.
      assert (refers_to n' n (mkEntry None n MountActionMount)) as Hr
        by (by right).
      by pose proof (mirror_relocated fh old new Hold Hnew Uold Unew
                       n' n ov nv _ Ho Hn Hov Hnv Hid Hsrc Hgone Hfree He Hr).
  - (* Umount *)
    destruct Hj as (-> & Ho & ov & Hov & Hgone).
    assert (mounted_view fh new o ≠ []) as Hm.
    { apply (mounted_view_changed fh new o ov Hov). by left. }
    destruct (diff_view_newFs_complete fh new old o Hold Ho Hm)
      as ([o' n' a'] & He' & Hn'). simpl in *. subst n'.
    pose proof (proj1 (Forall_forall _ _)
                  (diff_view_justified fh new old Hnew Hold) _ He') as Hj'.
    unfold justified in Hj'. simpl in Hj'. destruct a'.
    + destruct Hj' as (-> & _). done.
    + destruct Hj' as (-> & _). done.
    + exfalso.
      destruct (diff_view_move_inv fh new old _ Hnew Hold He' eq_refl)
        as (nv & ov' & Hn & _ & Hnv & Hov' & Hid & Hsrc & Hfree & Hgone').
      simpl in *. assert (ov' = ov) as -> by congruence.
      assert (refers_to o o' (mkEntry o None MountActionUmount)) as Hr
        by (by left).
      by pose proof (mirror_relocated fh old new Hold Hnew Uold Unew
                       o o' ov nv _ Ho Hn Hov Hnv Hid Hsrc Hgone Hfree He Hr).
    + exfalso. destruct Hj' as (_ & _ & nv & ov' & Hnv & Hov' & Hl & _).
      assert (ov' = ov) as -> by congruence.
      rewrite Hgone in Hl. by rewrite <-Hl in Hnv.
  - (* Move *)
    destruct (diff_view_move_inv fh old new _ Hold Hnew He eq_refl)
      as (ov & nv & Ho & Hn & Hov & Hnv & Hid & Hsrc & Hgone & Hfree).
    simpl in *.
    by apply (mirror_moved fh new old Hnew Hold Unew Uold n o nv ov).
  - (* Remount *)
    destruct Hj as (Ho & Hn & ov & nv & Hov & Hnv & Hl & Hopt).
    assert (source ov = source nv ∧ target ov = target nv) as [Hs Ht].
    { destruct o as [ol|]; [|done].
      apply lookup_mount_Some in Hl as (_ & _ & w & _ & Hw & Hs & Ht & _).
      assert (w = ov) as -> by congruence. done. }
    assert (lookup_mount fh new (source ov) (target ov) = n) as Hl'.
    { rewrite Hs, Ht. by apply unique_mounts_lookup. }
    assert (mirror_entry : mkEntry n o MountActionRemount ∈ mounted_view fh new o).
    { unfold mounted_view. rewrite Hov, Hl'.
      destruct n as [nl|]; [|done]. simpl in Hnv. rewrite Hnv.
      assert (bool_decide (vfsOptions nv ≠ vfsOptions ov)
              || bool_decide (fsOptions nv ≠ fsOptions ov) = true) as ->.
      { apply orb_true_iff.
        destruct Hopt as [Hv|Hf]; [left|right]; by apply bool_decide_eq_true_2. }
      left. }
    unfold diff_view.
    destruct new as [|n0 news] eqn:En; [by apply elem_of_nil in Hn|].
    destruct old as [|o0 olds] eqn:Eo; [by apply elem_of_nil in Ho|].
    rewrite <-Eo, <-En in *.
    apply pass2_view_keeps; [|done].
    apply list_elem_of_bind. eauto.
Qed.

(** X10. With IDs and (Source, Target) pairs unique within each table,
    running [GenerateDiff] with the two tables swapped gives the mirrored
    entries: a Mount of [n] for a Umount of [n], a Umount of [o] for a Mount
    of [o], and each Move and Remount with oldFs and newFs exchanged. *)
Theorem X10_swapped_tables_mirror h oldTab newTab md h1 md' h2 :
  Forall (λ p, is_Some (fsval h p)) (entries_of oldTab) →
  Forall (λ p, is_Some (fsval h p)) (entries_of newTab) →
  unique_ids (fs_heap h) (entries_of oldTab) →
  unique_ids (fs_heap h) (entries_of newTab) →
  unique_mounts (fs_heap h) (entries_of oldTab) →
  unique_mounts (fs_heap h) (entries_of newTab) →
  GenerateDiff oldTab newTab h = Some (md, h1) →
  GenerateDiff newTab oldTab h = Some (md', h2) →
  ∀ e, (∃ d, d ∈ md ∧ deval h1 d = Some e) ↔
       (∃ d, d ∈ md' ∧ deval h2 d = Some (mirror e)).
Proof.
  intros Hold Hnew Uold Unew Mold Mnew Hrun Hrun' e.
  destruct (GenerateDiff_inv _ _ _ _ _ Hold Hnew Hrun) as (_ & _ & Hr & _).
  destruct (GenerateDiff_inv _ _ _ _ _ Hnew Hold Hrun') as (_ & _ & Hr' & _).
  split.
  - intros (d & Hd & Hde).
    destruct (reads_elem_of _ _ _ _ Hr Hd) as (e0 & He0 & Hin).
    assert (e0 = e) as -> by congruence.
    apply (reads_elem_of_r _ _ _ _ Hr').
    by apply diff_view_mirror.
  - intros (d & Hd & Hde).
    destruct (reads_elem_of _ _ _ _ Hr' Hd) as (e0 & He0 & Hin).
    assert (e0 = mirror e) as -> by congruence.
    apply (reads_elem_of_r _ _ _ _ Hr).
    rewrite <-(mirror_involutive e). by apply diff_view_mirror.
Qed.

(** Proves that the (Source, Target) pairs of a concrete table of at most
    three entries are unique. *)
Ltac solve_unique_mounts :=
  intros i j p q v w Hi Hj Hv Hw Hs Ht;
  destruct i as [|[|[|i]]]; destruct j as [|[|[|j]]];
  vm_compute in Hi, Hj; simplify_eq; try done;
  vm_compute in Hv, Hw; simplify_eq; done.

Lemma X10_swapped_tables_mirror_witness :
  ∃ md h1 md' h2,
    GenerateDiff (Ex.tab [1; 5; 7]%positive) (Ex.tab [2; 8]%positive) Ex.h0
    = Some (md, h1) ∧
    GenerateDiff (Ex.tab [2; 8]%positive) (Ex.tab [1; 5; 7]%positive) Ex.h0
    = Some (md', h2) ∧
    reads h1 md [mkEntry (Some 1%positive) (Some 2%positive) MountActionMove;
                 mkEntry (Some 7%positive) (Some 8%positive) MountActionRemount;
                 mkEntry (Some 5%positive) None MountActionUmount] ∧
    ∀ e, (∃ d, d ∈ md ∧ deval h1 d = Some e) ↔
         (∃ d, d ∈ md' ∧ deval h2 d = Some (mirror e)).
Proof.
  eexists _, _, _, _.
  split; [vm_compute; reflexivity|].
  split; [vm_compute; reflexivity|].
  split; [by repeat constructor|].
  apply (X10_swapped_tables_mirror Ex.h0 (Ex.tab [1; 5; 7]%positive)
           (Ex.tab [2; 8]%positive)).
  - solve_allocated.
  - solve_allocated.
  - solve_unique_ids.
  - solve_unique_ids.
  - solve_unique_mounts.
  - solve_unique_mounts.
  - vm_compute. reflexivity.
  - vm_compute. reflexivity.
Defined.

(** ** How often an entry of a table is reported *)

Section filter_count.
Context {A : Type} (P : A → Prop) `{!∀ x, Decision (P x)}.

Lemma filter_insert_length (l : list A) i x y :
  l !! i = Some x → ¬ P x →
  length (filter P (<[i := y]> l))
  = (length (filter P l) + length (filter P [y]))%nat.
Proof.
  intros Hi Hx.
  rewrite <-(take_drop_middle l i x Hi) at 2.
  rewrite insert_take_drop by (by eapply lookup_lt_Some).
  rewrite !filter_app, !length_app, (filter_cons_False P x) by done.
  rewrite (filter_cons P y (drop (S i) l)), (filter_cons P y []), filter_nil.
  destruct (decide (P y)); simpl; lia.
Qed.

Lemma filter_insert_same (l : list A) i x y :
  l !! i = Some x → (P x ↔ P y) →
  length (filter P (<[i := y]> l)) = length (filter P l).
Proof.
  intros Hi Hxy.
  rewrite <-(take_drop_middle l i x Hi) at 2.
  rewrite insert_take_drop by (by eapply lookup_lt_Some).
  rewrite !filter_app, !length_app, !filter_cons.
  destruct (decide (P x)), (decide (P y)); simpl; tauto || lia.
Qed.
End filter_count.

Section counts.
Context (fh : gmap loc Filesystem) (old new : list ptr) (p : ptr).

Local Abbreviation from_old :=
  (λ e, oldFs e = p ∧
        (action e = MountActionUmount ∨ action e = MountActionMove)).
Local Abbreviation to_new := (λ e : MountTabDiffEntry, newFs e = p).

Lemma umounted_view_old_count v q :
  length (filter from_old (umounted_view fh new v q))
  = (length (filter from_old v)
     + length (filter (λ x, x = p ∧ vanished fh new x = true) [q]))%nat.
Proof.
  rewrite (filter_cons _ q []), filter_nil.
  unfold umounted_view, vanished.
  destruct (fsv fh q) as [o|] eqn:Ho.
  2:{ rewrite decide_False by (by intros [_ ?]). simpl. lia. }
  destruct (lookup_mount fh new (source o) (target o)) as [r|] eqn:Hl.
  { rewrite decide_False by (by intros [_ ?]). simpl. lia. }
  rewrite bool_decide_eq_true_2 by done.
  destruct (list_find _ v) as [[idx e]|] eqn:Hf.
  - apply list_find_Some in Hf as (Hidx & (Ha & _)%is_mount_of_newFs & _).
    rewrite (filter_insert_length _ v idx e) by (done || intros [_ [?|?]]; congruence).
    f_equal. rewrite (filter_cons _ _ []), filter_nil. simpl.
    destruct (decide (q = p)) as [->|Hne].
    + rewrite !decide_True by auto. done.
    + rewrite !decide_False by (by intros [? _]). done.
  - rewrite filter_app, length_app. f_equal.
    rewrite (filter_cons _ _ []), filter_nil. simpl.
    destruct (decide (q = p)) as [->|Hne].
    + rewrite !decide_True by auto. done.
    + rewrite !decide_False by (by intros [? _]). done.
Qed.

Lemma pass2_view_old_count es v :
  length (filter from_old (pass2_view fh new v es))
  = (length (filter from_old v)
     + length (filter (λ x, x = p ∧ vanished fh new x = true) es))%nat.
Proof.
  revert v. induction es as [|q es IH]; intros v.
  { simpl. lia. }
  cbn [pass2_view foldl]. fold (pass2_view fh new (umounted_view fh new v q) es).
  rewrite IH, umounted_view_old_count.
  rewrite (filter_cons _ q es), (filter_cons _ q []), filter_nil.
  destruct (decide _); simpl; lia.
Qed.

Lemma pass1_view_old_count : filter from_old (pass1_view fh old new) = [].
Proof.
  apply filter_none, Forall_forall.
  intros e (_ & Hm & Hu)%pass1_view_newFs [_ [?|?]]; done.
Qed.

Lemma diff_view_old_count :
  Forall (λ q, is_Some (fsv fh q)) old →
  length (filter from_old (diff_view fh old new))
  = length (filter (λ x, x = p ∧ vanished fh new x = true) old).
Proof.
  intros Hold. unfold diff_view.
  destruct old as [|o0 olds] eqn:Eo.
  { destruct new; [done|]. rewrite filter_nil.
    rewrite filter_none; [done|].
    apply Forall_fmap, Forall_forall. intros q _ [_ [?|?]]; done. }
  destruct new as [|n0 news] eqn:En.
  - clear Eo. induction Hold as [|q l [w Hw] _ IH]; [done|].
    assert (vanished fh [] q = true) as Hq by (unfold vanished; by rewrite Hw).
    rewrite fmap_cons, !filter_cons. simpl.
    destruct (decide (q = p)) as [->|Hne].
    + rewrite !decide_True by auto. simpl. by rewrite IH.
    + rewrite !decide_False by (by intros [? _]). done.
  - rewrite <-Eo, <-En.
    by rewrite pass2_view_old_count, pass1_view_old_count.
Qed.

Lemma mounted_view_new_count q :
  length (filter to_new (mounted_view fh old q))
  = length (filter (λ x, x = p ∧ mounted_view fh old x ≠ []) [q]).
Proof.
  rewrite (filter_cons _ q []), filter_nil.
  destruct (mounted_view fh old q) as [|e [|e' l]] eqn:Hm.
  - rewrite decide_False by (by intros [_ ?]). done.
  - assert (e ∈ mounted_view fh old q) as He by (rewrite Hm; left).
    apply elem_of_mounted_view in He as (n & _ & Hnw & _).
    rewrite (filter_cons _ e []), filter_nil.
    destruct (decide (q = p)) as [->|Hne].
    + rewrite !decide_True by auto. done.
    + rewrite decide_False by congruence.
      rewrite decide_False by (by intros [? _]). done.
  - exfalso. unfold mounted_view in Hm. repeat (case_match; try done).
Qed.

Lemma pass1_view_new_count :
  length (filter to_new (pass1_view fh old new))
  = length (filter (λ x, x = p ∧ mounted_view fh old x ≠ []) new).
Proof.
  unfold pass1_view. induction new as [|q es IH]; [done|].
  rewrite bind_cons, filter_app, length_app, IH, mounted_view_new_count.
  rewrite (filter_cons _ q es), (filter_cons _ q []), filter_nil.
  destruct (decide _); simpl; lia.
Qed.

Lemma umounted_view_new_count v q :
  p ≠ None →
  length (filter to_new (umounted_view fh new v q))
  = length (filter to_new v).
Proof.
  intros Hp.
  destruct (umounted_view_cases fh new v q)
    as [->|(o & Ho & Hl & [[Hf ->]|(idx & e & Hf & ->)])]; [done| |].
  - rewrite filter_app, length_app, (filter_cons_False _ _ []), filter_nil
      by (simpl; congruence).
    simpl. lia.
  - apply list_find_Some in Hf as (Hidx & _).
    by apply (filter_insert_same _ v idx e).
Qed.

Lemma pass2_view_new_count es v :
  p ≠ None →
  length (filter to_new (pass2_view fh new v es)) = length (filter to_new v).
Proof.
  intros Hp. revert v. induction es as [|q es IH]; intros v; [done|].
  simpl. by rewrite IH, umounted_view_new_count.
Qed.

Lemma diff_view_new_count :
  Forall (λ q, is_Some (fsv fh q)) new → p ≠ None →
  length (filter to_new (diff_view fh old new))
  = length (filter (λ x, x = p ∧ mounted_view fh old x ≠ []) new).
Proof.
  intros Hnew Hp. unfold diff_view.
  destruct old as [|o0 olds] eqn:Eo.
  { destruct new as [|n0 news] eqn:En; [done|]. clear En.
    induction Hnew as [|q l [w Hw] _ IH]; [done|].
    rewrite fmap_cons, !filter_cons. simpl.
    assert (mounted_view fh [] q ≠ []) as Hm.
    { unfold mounted_view. by rewrite Hw. }
    destruct (decide (q = p)) as [->|Hne].
    - rewrite !decide_True by auto. simpl. by rewrite IH.
    - rewrite !decide_False by (by intros [? _]). done. }
  destruct new as [|n0 news] eqn:En.
  - rewrite filter_nil. rewrite filter_none; [done|].
    apply Forall_fmap, Forall_forall. intros q _. simpl. congruence.
  - rewrite <-Eo, <-En.
    by rewrite pass2_view_new_count, pass1_view_new_count.
Qed.
End counts.

Lemma filter_eq_length {A} (P Q : A → Prop)
    `{!∀ x, Decision (P x)} `{!∀ x, Decision (Q x)} (l : list A) :
  (∀ x, x ∈ l → P x ↔ Q x) → length (filter P l) = length (filter Q l).
Proof.
  induction l as [|x l IH]; intros HPQ; [done|].
  rewrite !filter_cons.
  assert (P x ↔ Q x) as Hx by (apply HPQ; left).
  assert (length (filter P l) = length (filter Q l)) as Hl.
  { apply IH. intros y Hy. apply HPQ. by right. }
  destruct (decide (P x)), (decide (Q x)); simpl; tauto || lia.
Qed.

(** X11. The list returned by [GenerateDiff] reports every change once for
    each time the table lists the entry.  An old-table entry for whose Source
    and Target [Find] on the new table returns nil is the oldFs of as many
    Umount and Move entries as the old table lists it.  A new-table entry
    for which [Find] on the old table returns nil, or an entry with other
    VFSOptions or FSOptions, is the newFs of as many entries as the new table
    lists it. *)
Theorem X11_reported_once h oldTab newTab md h' :
  Forall (λ q, is_Some (fsval h q)) (entries_of oldTab) →
  Forall (λ q, is_Some (fsval h q)) (entries_of newTab) →
  GenerateDiff oldTab newTab h = Some (md, h') →
  ∃ v, reads h' md v ∧
    (∀ p o, fsval h p = Some o →
       Find (default (mkMountTab []) newTab)
         [SourceFilter (source o); TargetFilter (target o)] h = Some (None, h) →
       length (filter (λ e, oldFs e = p ∧
                 (action e = MountActionUmount ∨ action e = MountActionMove)) v)
       = length (filter (λ q, q = p) (entries_of oldTab))) ∧
    (∀ p n r, fsval h p = Some n →
       Find (default (mkMountTab []) oldTab)
         [SourceFilter (source n); TargetFilter (target n)] h = Some (r, h) →
       (r = None ∨
        ∃ ov, fsval h r = Some ov ∧
          (vfsOptions ov ≠ vfsOptions n ∨ fsOptions ov ≠ fsOptions n)) →
       length (filter (λ e, newFs e = p) v)
       = length (filter (λ q, q = p) (entries_of newTab))).
Proof.
  intros Hold Hnew Hrun.
  destruct (GenerateDiff_inv _ _ _ _ _ Hold Hnew Hrun) as (Hfs & _ & Hr & _).
  eexists. split; [exact Hr|]. split.
  - intros p o Ho Hfind.
    rewrite (Find_run _ _ _ _ Hnew) in Hfind. injection Hfind as Hl.
    rewrite diff_view_old_count by done.
    apply filter_eq_length. intros x _. split; [by intros [? _]|].
    intros ->. split; [done|]. unfold vanished. rewrite Ho.
    by apply bool_decide_eq_true_2.
  - intros p n r Hn Hfind Hcase.
    rewrite (Find_run _ _ _ _ Hold) in Hfind. injection Hfind as Hl.
    rewrite diff_view_new_count by (done || by intros ->).
    apply filter_eq_length. intros x _. split; [by intros [? _]|].
    intros ->. split; [done|].
    apply (mounted_view_changed (fs_heap h) (entries_of oldTab) p n Hn).
    fold (entries_of oldTab) in Hl. rewrite Hl. done.
Qed.

Lemma X11_reported_once_witness :
  ∃ md h' v,
    GenerateDiff (Ex.tab [1; 5; 1]%positive) (Ex.tab [8; 8]%positive) Ex.h0
    = Some (md, h') ∧
    reads h' md v ∧
    length (filter (λ e, oldFs e = Some 1%positive ∧
              (action e = MountActionUmount ∨ action e = MountActionMove)) v)
    = 2%nat ∧
    length (filter (λ e, newFs e = Some 8%positive) v) = 2%nat.
Proof.
  eexists _, _.
  destruct (X11_reported_once Ex.h0 (Ex.tab [1; 5; 1]%positive)
              (Ex.tab [8; 8]%positive) _ _
              ltac:(solve_allocated) ltac:(solve_allocated)
              ltac:(vm_compute; reflexivity)) as (vs & Hvs & Hold & Hnew).
  exists vs. split; [reflexivity|]. split; [exact Hvs|]. split.
  - rewrite (Hold (Some 1%positive) Ex.sdb1_a); [done|done|].
    vm_compute. reflexivity.
  - rewrite (Hnew (Some 8%positive) Ex.tmp_2m None); [done|done| |by left].
    vm_compute. reflexivity.
Defined.

(** ** Running GenerateDiff again *)

(** X12. [GenerateDiff] reads the [Filesystem] entries only: called a
    second time on the heap that a first call left, it returns a list of new
    cells, none shared with the first list, that holds the same entries in
    the same order, and the first list still reads as before. *)
Theorem X12_GenerateDiff_again h oldTab newTab md1 h1 md2 h2 :
  Forall (λ p, is_Some (fsval h p)) (entries_of oldTab) →
  Forall (λ p, is_Some (fsval h p)) (entries_of newTab) →
  GenerateDiff oldTab newTab h = Some (md1, h1) →
  GenerateDiff oldTab newTab h1 = Some (md2, h2) →
  ∃ v, reads h1 md1 v ∧ reads h2 md1 v ∧ reads h2 md2 v ∧
    ∀ d, d ∈ md1 → d ∉ md2.
Proof.
  intros Hold Hnew Hrun1 Hrun2.
  destruct (GenerateDiff_inv _ _ _ _ _ Hold Hnew Hrun1) as (Hfs & _ & Hr1 & _).
  assert (Forall (λ p, is_Some (fsval h1 p)) (entries_of oldTab)) as Hold1
    by (by rewrite Hfs).
  assert (Forall (λ p, is_Some (fsval h1 p)) (entries_of newTab)) as Hnew1
    by (by rewrite Hfs).
  destruct (GenerateDiff_inv _ _ _ _ _ Hold1 Hnew1 Hrun2) as (_ & _ & Hr2 & _).
  destruct (GenerateDiff_building _ _ _ _ _ Hold1 Hnew1 Hrun2)
    as (_ & _ & Hkeep & Hfresh & _).
  rewrite Hfs in Hr2.
  eexists. split_and!; [exact Hr1| |exact Hr2|].
  - eapply Forall2_impl; [exact Hr1|]. intros [l|] e; simpl; [|done].
    apply Hkeep.
  - intros d Hd Hd2.
    destruct (reads_elem_of _ _ _ _ Hr1 Hd) as (e & He & _).
    by rewrite (Hfresh d Hd2) in He.
Qed.

Lemma X12_GenerateDiff_again_witness :
  ∃ md1 h1 md2 h2 v,
    GenerateDiff (Ex.tab [1; 5]%positive) (Ex.tab [2]%positive) Ex.h0
    = Some (md1, h1) ∧
    GenerateDiff (Ex.tab [1; 5]%positive) (Ex.tab [2]%positive) h1
    = Some (md2, h2) ∧
    reads h1 md1 v ∧ reads h2 md1 v ∧ reads h2 md2 v ∧
    ∀ d, d ∈ md1 → d ∉ md2.
Proof.
  eexists _, _, _, _.
  destruct (X12_GenerateDiff_again Ex.h0 (Ex.tab [1; 5]%positive)
              (Ex.tab [2]%positive) _ _ _ _
              ltac:(solve_allocated) ltac:(solve_allocated)
              ltac:(vm_compute; reflexivity) ltac:(vm_compute; reflexivity))
    as (vs & H1 & H2 & H3 & H4).
  exists vs. split; [reflexivity|]. split; [reflexivity|]. done.
Defined.

(** ** The first loop inside GenerateDiff *)

Lemma for_range_app {A S} (xs ys : list A) (acc : S) (body : A → S → M S) h :
  for_range (xs ++ ys) acc body h
  = (do acc' <- for_range xs acc body; for_range ys acc' body) h.
Proof.
  revert acc h. induction xs as [|x xs IH]; intros acc h; [done|].
  cbn [app for_range]. unfold bind in *.
  destruct (body x acc h) as [[acc1 h1]|]; [apply IH|done].
Qed.

(** [GenerateDiff] as the two scans, early returns included. *)
Lemma GenerateDiff_scans h oldTab newTab :
  Forall (λ p, is_Some (fsval h p)) (entries_of oldTab) →
  Forall (λ p, is_Some (fsval h p)) (entries_of newTab) →
  GenerateDiff oldTab newTab h
  = (do diffTable <- for_range (entries_of newTab) NewMountTabDiff
                       (searchMounted (default (mkMountTab []) oldTab));
     for_range (entries_of oldTab) diffTable
       (searchUmounted (default (mkMountTab []) newTab))) h.
Proof.
  intros Hold Hnew. unfold GenerateDiff, Size, NewMountTabDiff.
  fold (entries_of oldTab) (entries_of newTab).
  destruct (entries_of oldTab) as [|o olds] eqn:Eo.
  - destruct (entries_of newTab) as [|n news]; [done|].
    cbn [length]. rewrite bool_decide_eq_false_2 by done.
    rewrite bool_decide_eq_true_2 by done. cbn [andb].
    unfold bind. rewrite searchMounted_no_old by (try done; by rewrite <-Eo).
    by destruct (for_range _ _ _ h) as [[md1 h1]|].
  - destruct (entries_of newTab) as [|n news] eqn:En.
    + cbn [length]. rewrite bool_decide_eq_true_2 by done.
      rewrite bool_decide_eq_false_2 by done. cbn [andb for_range].
      unfold bind at 1. unfold ret at 1.
      symmetry.
      apply (searchUmounted_no_new h _ (o :: olds) [] []);
        [exact En|done|constructor|constructor|constructor].
    + cbn [length]. by rewrite !bool_decide_eq_false_2.
Qed.

(** The cell that the first loop appends is, at the end of the second loop,
    as appended or patched. *)
Lemma appended_cell_final fh new es h0 md0 v0 l e rest ext2 ext3 h3 :
  reads h0 md0 v0 →
  reads h3 (((md0 ++ [Some l]) ++ ext2) ++ ext3)
        (pass2_view fh new ((v0 ++ [e]) ++ rest) es) →
  (((md0 ++ [Some l]) ++ ext2) ++ ext3) !! length md0 = Some (Some l) ∧
  ∃ e', de_heap h3 !! l = Some e' ∧ patched e e'.
Proof.
  intros Hr0 Hr3.
  assert ((((md0 ++ [Some l]) ++ ext2) ++ ext3) !! length md0 = Some (Some l))
    as Hidx.
  { rewrite <-!app_assoc. by rewrite lookup_app_r, Nat.sub_diag by lia. }
  split; [done|].
  destruct (pass2_view_shape fh new es ((v0 ++ [e]) ++ rest) []
              ltac:(constructor)) as (v' & u' & Hv & Hpatched & _).
  rewrite app_nil_r in Hv. simpl in Hv. rewrite Hv in Hr3.
  assert (((v0 ++ [e]) ++ rest) !! length md0 = Some e) as He.
  { rewrite (Forall2_length _ _ _ Hr0), <-!app_assoc.
    by rewrite lookup_app_r, Nat.sub_diag by lia. }
  destruct (Forall2_lookup_l _ _ _ _ _ Hpatched He) as (e' & He' & Hp).
  exists e'. split; [|done].
  assert ((v' ++ u') !! length md0 = Some e') as He''.
  { by apply lookup_app_l_Some. }
  exact (Forall2_lookup_lr _ _ _ _ _ _ Hr3 Hidx He'').
Qed.

(** C3. In the first loop of [GenerateDiff], at a new-table entry [p]:
    [GenerateDiff] scans the entries before [p], runs the loop body on [p],
    scans the rest of the new table and then the old table.  When no old
    entry has the Source and Target of [p], the body appends a Mount entry
    (oldFs nil, newFs [p]) in a fresh cell, which the returned list holds at
    that position, as appended or turned into a Move with newFs [p] by the
    second loop.  When the first old entry with its Source and Target is
    [o]: if the VFSOptions or the FSOptions differ, the body appends a
    Remount entry (oldFs [o], newFs [p]) in a fresh cell, which the returned
    list holds unchanged at that position; if both agree, the body changes
    nothing and no entry of the returned list has newFs [p]. *)
Theorem C3_pass1_classification h oldTab newTab pre p post n :
  Forall (λ q, is_Some (fsval h q)) (entries_of oldTab) →
  Forall (λ q, is_Some (fsval h q)) (entries_of newTab) →
  entries_of newTab = pre ++ p :: post → fsval h p = Some n →
  let old := default (mkMountTab []) oldTab in
  let new := default (mkMountTab []) newTab in
  ∃ md0 h0 md h',
    for_range pre NewMountTabDiff (searchMounted old) h = Some (md0, h0) ∧
    (do d0 <- searchMounted old p md0;
     do d1 <- for_range post d0 (searchMounted old);
     for_range (entries old) d1 (searchUmounted new)) h0 = Some (md, h') ∧
    GenerateDiff oldTab newTab h = Some (md, h') ∧
    let l := fresh (dom (de_heap h0)) in
    let appended e :=
      Some (md0 ++ [Some l], mkHeap (fs_heap h0) (<[l := e]> (de_heap h0))) in
    ((∀ q w, q ∈ entries old → fsval h q = Some w →
        ¬ (source w = source n ∧ target w = target n)) →
     searchMounted old p md0 h0 = appended (mkEntry None p MountActionMount) ∧
     md !! length md0 = Some (Some l) ∧
     (de_heap h' !! l = Some (mkEntry None p MountActionMount) ∨
      ∃ o, de_heap h' !! l = Some (mkEntry o p MountActionMove))) ∧
    (∀ pre' o post' ov,
       entries old = pre' ++ Some o :: post' →
       (∀ q w, q ∈ pre' → fsval h q = Some w →
          ¬ (source w = source n ∧ target w = target n)) →
       fsval h (Some o) = Some ov →
       source ov = source n → target ov = target n →
       (vfsOptions ov ≠ vfsOptions n ∨ fsOptions ov ≠ fsOptions n →
        searchMounted old p md0 h0
        = appended (mkEntry (Some o) p MountActionRemount) ∧
        md !! length md0 = Some (Some l) ∧
        de_heap h' !! l = Some (mkEntry (Some o) p MountActionRemount)) ∧
       (vfsOptions ov = vfsOptions n → fsOptions ov = fsOptions n →
        searchMounted old p md0 h0 = Some (md0, h0) ∧
        ∀ d e, d ∈ md → deval h' d = Some e → newFs e ≠ p)).
Proof.
  intros Hold Hnew Hsplit Hn old new.
  assert (tab_ok h old) as Hold0 by exact Hold.
  assert (tab_ok h new) as Hnew0 by exact Hnew.
  pose proof Hnew as Hparts. rewrite Hsplit in Hparts.
  apply Forall_app in Hparts as [Hpre Hpost].
  apply Forall_cons in Hpost as [Hp Hpost].
  destruct (pass1_run h old pre [] [] Hold0 Hpre (diff_ok_nil h))
    as (md0 & h0 & Hrun0 & Hfs0 & Hd0).
  simpl in Hrun0, Hd0.
  assert (tab_ok h0 old) as Hold1 by (unfold tab_ok; by rewrite Hfs0).
  assert (is_Some (fsval h0 p)) as Hp1 by (by rewrite Hfs0).
  destruct (searchMounted_run h0 old p md0 _ Hold1 Hp1 Hd0)
    as (ext1 & h1 & Hrun1 & Hfs1 & Hd1).
  assert (tab_ok h1 old) as Hold2 by (unfold tab_ok; by rewrite Hfs1).
  assert (Forall (λ q, is_Some (fsval h1 q)) post) as Hpost2
    by (by rewrite Hfs1, Hfs0).
  destruct (pass1_run h1 old post _ _ Hold2 Hpost2 Hd1)
    as (ext2 & h2 & Hrun2 & Hfs2 & Hd2).
  assert (tab_ok h2 new) as Hnew3
    by (unfold tab_ok; by rewrite Hfs2, Hfs1, Hfs0).
  assert (Forall (λ q, is_Some (fsval h2 q)) (entries old)) as Hold3
    by (by rewrite Hfs2, Hfs1, Hfs0).
  destruct (pass2_run h2 new (entries old) _ _ Hnew3 Hold3 Hd2)
    as (ext3 & h3 & Hrun3 & Hfs3 & Hd3).
  assert ((do d0 <- searchMounted old p md0;
           do d1 <- for_range post d0 (searchMounted old);
           for_range (entries old) d1 (searchUmounted new)) h0
          = Some (((md0 ++ ext1) ++ ext2) ++ ext3, h3)) as Hrest.
  { unfold bind. by rewrite Hrun1, Hrun2. }
  assert (GenerateDiff oldTab newTab h
          = Some (((md0 ++ ext1) ++ ext2) ++ ext3, h3)) as Hrun.
  { rewrite (GenerateDiff_scans _ _ _ Hold Hnew), Hsplit.
    unfold bind at 1. rewrite for_range_app. unfold bind at 1.
    unfold NewMountTabDiff. fold old new. rewrite Hrun0.
    cbn [for_range]. unfold bind. rewrite Hrun1, Hrun2. exact Hrun3. }
  exists md0, h0, (((md0 ++ ext1) ++ ext2) ++ ext3), h3.
  split; [exact Hrun0|]. split; [exact Hrest|]. split; [exact Hrun|].
  intros l appended.
  assert (fsval h0 p = Some n) as Hn0 by (by rewrite Hfs0).
  destruct Hd0 as (Hnd0 & Hr0 & Hok0).
  destruct Hd3 as (_ & Hr3 & _).
  assert (∀ e, mounted_view (fs_heap h0) (entries old) p = [e] →
            searchMounted old p md0 h0 = appended e →
            (((md0 ++ ext1) ++ ext2) ++ ext3) !! length md0 = Some (Some l) ∧
            ∃ e', de_heap h3 !! l = Some e' ∧ patched e e') as Hcell.
  { intros e Hmv Hstep. rewrite Hstep in Hrun1. unfold appended in Hrun1.
    injection Hrun1 as Hext Hh1. apply app_inv_head in Hext. subst ext1.
    rewrite Hmv in Hd2. destruct Hd2 as (_ & Hr2 & _).
    rewrite Hmv in Hr3.
    exact (appended_cell_final _ _ _ _ _ _ _ _ _ _ _ _ Hr0 Hr3). }
  split.
  - intros Hno.
    assert (lookup_mount (fs_heap h0) (entries old) (source n) (target n) = None)
      as Hl.
    { rewrite Hfs0. by apply lookup_mount_None. }
    assert (searchMounted old p md0 h0
            = appended (mkEntry None p MountActionMount)) as Hstep.
    { by rewrite (searchMounted_mount _ _ _ _ _ Hold1 Hn0 Hl). }
    split; [exact Hstep|].
    destruct (Hcell (mkEntry None p MountActionMount)) as (Hidx & e' & He' & Hpe).
    { unfold mounted_view. by rewrite Hn0, Hl. }
    { exact Hstep. }
    split; [exact Hidx|].
    destruct Hpe as [->|(_ & Ha & Hnw)]; [by left|].
    right. exists (oldFs e'). rewrite He'. f_equal.
    destruct e' as [o' n' a']. simpl in *. by subst.
  - intros pre' o post' ov Hes Hfirst Ho Hs Ht.
    assert (lookup_mount (fs_heap h0) (entries old) (source n) (target n) = Some o)
      as Hl.
    { rewrite Hfs0, Hes. apply (lookup_mount_first _ _ _ _ ov); try done.
      unfold tab_ok in Hold0. rewrite Hes in Hold0.
      by apply Forall_app in Hold0 as [? _]. }
    assert (fs_heap h0 !! o = Some ov) as Ho0 by (by rewrite Hfs0).
    pose proof (searchMounted_match _ _ _ _ _ _ md0 Hold1 Hn0 Hl Ho0) as Hstep.
    split.
    + intros Hdiff.
      assert (bool_decide (vfsOptions ov ≠ vfsOptions n)
              || bool_decide (fsOptions ov ≠ fsOptions n) = true) as Hb.
      { apply orb_true_iff.
        destruct Hdiff; [left|right]; by apply bool_decide_eq_true_2. }
      rewrite Hb in Hstep.
      split; [exact Hstep|].
      destruct (Hcell (mkEntry (Some o) p MountActionRemount))
        as (Hidx & e' & He' & Hpe).
      { unfold mounted_view. by rewrite Hn0, Hl, Ho0, Hb. }
      { exact Hstep. }
      split; [exact Hidx|].
      destruct Hpe as [->|(Ha & _)]; done.
    + intros Hv Hf.
      rewrite !bool_decide_eq_false_2 in Hstep by (by intros []).
      split; [exact Hstep|].
      intros d e Hd He Hnw.
      destruct (GenerateDiff_inv _ _ _ _ _ Hold Hnew Hrun) as (_ & _ & Hr & _).
      destruct (reads_elem_of _ _ _ _ Hr Hd) as (e0 & He0 & Hin).
      assert (e0 = e) as -> by congruence.
      pose proof (proj1 (Forall_forall _ _)
                    (diff_view_newFs_sound _ (entries_of oldTab) _ Hnew) e Hin)
        as [Hnil|[_ Hm]].
      { rewrite Hnw in Hnil. by rewrite Hnil in Hn. }
      apply Hm. rewrite Hnw. unfold mounted_view.
      rewrite Hn. rewrite <-Hfs0. change (entries_of oldTab) with (entries old).
      rewrite Hl, Ho0.
      by rewrite !bool_decide_eq_false_2 by (by intros []).
Qed.

Lemma C3_pass1_classification_witness :
  ∃ md h',
    GenerateDiff (Ex.tab [1]%positive) (Ex.tab [5; 3; 6]%positive) Ex.h0
    = Some (md, h') ∧
    md = [Some 1%positive; Some 2%positive] ∧
    (de_heap h' !! 1%positive
     = Some (mkEntry None (Some 5%positive) MountActionMount) ∨
     ∃ o, de_heap h' !! 1%positive
          = Some (mkEntry o (Some 5%positive) MountActionMove)) ∧
    de_heap h' !! 2%positive
    = Some (mkEntry (Some 1%positive) (Some 3%positive) MountActionRemount) ∧
    ∀ d e, d ∈ md → deval h' d = Some e → newFs e ≠ Some 6%positive.
Proof.
  destruct (C3_pass1_classification Ex.h0 (Ex.tab [1]%positive)
              (Ex.tab [5; 3; 6]%positive) [] (Some 5%positive)
              [Some 3%positive; Some 6%positive] Ex.sdd1_d
              ltac:(solve_allocated) ltac:(solve_allocated) eq_refl eq_refl)
    as (md0 & h0 & md & h' & Hpre & _ & Hrun & Hmount & _).
  destruct (C3_pass1_classification Ex.h0 (Ex.tab [1]%positive)
              (Ex.tab [5; 3; 6]%positive) [Some 5%positive] (Some 3%positive)
              [Some 6%positive] Ex.sdb1_ro
              ltac:(solve_allocated) ltac:(solve_allocated) eq_refl eq_refl)
    as (md1 & h1 & md' & h'' & Hpre1 & _ & Hrun1 & _ & Hmatch1).
  destruct (C3_pass1_classification Ex.h0 (Ex.tab [1]%positive)
              (Ex.tab [5; 3; 6]%positive) [Some 5%positive; Some 3%positive]
              (Some 6%positive) [] Ex.sdb1_a
              ltac:(solve_allocated) ltac:(solve_allocated) eq_refl eq_refl)
    as (md2 & h2 & md'' & h''' & Hpre2 & _ & Hrun2 & _ & Hmatch2).
  rewrite Hrun in Hrun1, Hrun2.
  injection Hrun1 as <- <-. injection Hrun2 as <- <-.
  exists md, h'. split; [exact Hrun|].
  vm_compute in Hpre, Hpre1, Hpre2.
  injection Hpre as <- <-. injection Hpre1 as <- <-. injection Hpre2 as <- <-.
  split.
  { vm_compute in Hrun. by injection Hrun as <- _. }
  split.
  { destruct Hmount as (_ & _ & Hcell); [|exact Hcell].
    intros q w ->%list_elem_of_singleton [= <-]. by intros [? _]. }
  split.
  { destruct (Hmatch1 [] 1%positive [] Ex.sdb1_a) as [Hdiff _];
      try reflexivity.
    { intros q w Hq. by apply elem_of_nil in Hq. }
    destruct Hdiff as (_ & _ & Hcell); [by left|exact Hcell]. }
  destruct (Hmatch2 [] 1%positive [] Ex.sdb1_a) as [_ Hsame];
    try reflexivity.
  { intros q w Hq. by apply elem_of_nil in Hq. }
  destruct Hsame as (_ & Hnone); [reflexivity..|exact Hnone].
Defined.
